(** * viam-rdk: a verification development

    Shallow embeddings of
    - the wx250s arm driver         (robots/wx250s/arm.go),
    - the minirover base            (samples/minirover/main.go),
    - the box resetter              (samples/box/resetbox.go),
    - the lidar viewer's set-up     (cmd/lidar_view, package main),
    - the arm client                (components/arm/client.go),
    - the serial NMEA GPS sensor    (sensor/gps/nmea/serial.go),
    - the board gRPC service server (component/board server),
    - the frame system, the world-state merge and the motion service,
      modelled from the specification,
    followed by the theorems established about them. *)

From Stdlib Require Import ZArith QArith Qround Qabs Lia Lqa List Bool.
From stdpp Require Import base option list strings pretty gmap.

Local Open Scope Z_scope.
Local Open Scope string_scope.

(* ===================================================================== *)
(** * Programs that talk to hardware

    A driver method interacts with its devices, a mutex, the logger and
    the clock.  It is embedded as a tree of operations: each node issues
    one operation and continues with the reply it receives. *)
(* ===================================================================== *)

Module Prog.

(** [Spin] marks a loop that is still running when the iteration budget
    of the model is used up; [Panic] is a Go run-time panic. *)
Inductive prog (Op : Type) (reply : Op -> Type) (A : Type) : Type :=
| Ret (a : A)
| Vis (o : Op) (k : reply o -> prog Op reply A)
| Panic (msg : string)
| Spin.

Arguments Ret {Op reply A} a.
Arguments Vis {Op reply A} o k.
Arguments Panic {Op reply A} msg.
Arguments Spin {Op reply A}.

Section Combinators.
Context {Op : Type} {reply : Op -> Type}.

Fixpoint bind {A B : Type} (p : prog Op reply A) (f : A -> prog Op reply B)
  : prog Op reply B :=
  match p with
  | Ret a => f a
  | Vis o k => Vis o (fun r => bind (k r) f)
  | Panic m => Panic m
  | Spin => Spin
  end.

Definition trigger (o : Op) : prog Op reply (reply o) := Vis o Ret.

(** Go's [defer d]: [d] runs when the body returns and also when it
    panics. *)
Fixpoint defer {A : Type} (d : Op) (p : prog Op reply A) : prog Op reply A :=
  match p with
  | Ret a => Vis d (fun _ => Ret a)
  | Vis o k => Vis o (fun r => defer d (k r))
  | Panic m => Vis d (fun _ => Panic m)
  | Spin => Spin
  end.

(** How a run ends. *)
Inductive outcome (A : Type) : Type :=
| Returned (a : A)
| Panicked (msg : string)
| Running.

(** Running a program against an environment [respond] that answers
    every operation: the operations issued, in order, the outcome and
    the final environment. *)
Fixpoint run {W A : Type} (respond : W -> forall o : Op, reply o * W)
  (p : prog Op reply A) (w : W) : list Op * outcome A * W :=
  match p with
  | Ret a => ([], Returned A a, w)
  | Vis o k =>
      let '(r, w1) := respond w o in
      let '(tr, out, w2) := run respond (k r) w1 in
      (o :: tr, out, w2)
  | Panic m => ([], Panicked A m, w)
  | Spin => ([], Running A, w)
  end.

(** No operation the program may issue satisfies [bad]. *)
Fixpoint never {A : Type} (bad : Op -> bool) (p : prog Op reply A) : Prop :=
  match p with
  | Vis o k => bad o = false /\ forall r, never bad (k r)
  | _ => True
  end.

(** The program ends by returning, whatever it is answered. *)
Fixpoint total {A : Type} (p : prog Op reply A) : Prop :=
  match p with
  | Ret _ => True
  | Vis o k => forall r, total (k r)
  | Panic _ => False
  | Spin => False
  end.

(** In every run of the program the operations that [keep] selects are
    exactly [out], in that order, issued before the run can stop short. *)
Fixpoint emits {A : Type} (keep : Op -> bool) (p : prog Op reply A)
  (out : list Op) : Prop :=
  match p with
  | Vis o k =>
      if keep o
      then match out with
           | [] => False
           | x :: out' => x = o /\ forall r, emits keep (k r) out'
           end
      else forall r, emits keep (k r) out
  | _ => out = []
  end.

(** An operation together with the reply it got. *)
Inductive event : Type :=
| Event (o : Op) (r : reply o).

Definition eventOp (e : event) : Op := match e with Event o _ => o end.

(** The operations of a run with the replies the environment gave
    them, in order. *)
Fixpoint history {W A : Type} (respond : W -> forall o : Op, reply o * W)
  (p : prog Op reply A) (w : W) : list event :=
  match p with
  | Vis o k =>
      let '(r, w1) := respond w o in
      Event o r :: history respond (k r) w1
  | _ => []
  end.

End Combinators.

Arguments event : clear implicits.
Arguments Returned {A} a.
Arguments Panicked {A} msg.
Arguments Running {A}.

Module Notations.
Notation "x <- p ;; q" := (bind p (fun x => q))
  (at level 63, p at next level, right associativity).
Notation "p ;;; q" := (bind p (fun _ => q))
  (at level 63, right associativity).
End Notations.

End Prog.

Import Prog Prog.Notations.

(* ===================================================================== *)
(** * The wx250s arm driver (robots/wx250s/arm.go) *)
(* ===================================================================== *)

Module Wx250s.

(** A [*servo.Servo] is identified by its bus ID. *)
Definition Servo : Type := nat.

Inductive Op : Type :=
| MuLock                                     (* a.moveLock.Lock()   *)
| MuUnlock                                   (* a.moveLock.Unlock() *)
| GoalAndTrack (pos : Z) (block : bool) (servos : list Servo)
| PresentPosition (s : Servo)
| Moving (s : Servo)
| SetTorqueEnable (on : bool) (s : Servo)
| SetProfileAcceleration (accel : Z) (s : Servo)
| SetProfileVelocity (veloc : Z) (s : Servo)
| Sleep (millis : Z)                         (* time.Sleep *)
| Errorf (msg : string).                     (* golog.Global.Errorf *)

(** What each operation hands back; an [error] is [Some] message or
    [None] for nil. *)
Definition reply (o : Op) : Type :=
  match o with
  | MuLock | MuUnlock | Sleep _ | Errorf _ => unit
  | GoalAndTrack _ _ _ | SetTorqueEnable _ _
  | SetProfileAcceleration _ _ | SetProfileVelocity _ _ => option string
  | PresentPosition _ | Moving _ => (Z * option string)%type
  end.

Abbreviation prog := (Prog.prog Op reply).

(** Go's [int] on the 64-bit targets the driver runs on. *)
Definition wrap64 (z : Z) : Z := (z + 2 ^ 63) mod 2 ^ 64 - 2 ^ 63.

(** ** The arm *)

(** [type Arm struct { Joints map[string][]*servo.Servo; moveLock *sync.Mutex }].
    The mutex is the one lock of the operation alphabet. *)
Record Arm : Type := mkArm { Joints : gmap string (list Servo) }.

Definition JointOrder : list string :=
  ["Waist"; "Shoulder"; "Elbow"; "Forearm_rot"; "Wrist"; "Wrist_rot"].

(** The joint table built by [NewArm] from the servos found on the bus;
    [None] where Go's slice indexing panics (fewer than eight servos). *)
Definition NewArm (servos : list Servo) : option Arm :=
  s0 ← servos !! 0%nat; s1 ← servos !! 1%nat; s2 ← servos !! 2%nat;
  s3 ← servos !! 3%nat; s4 ← servos !! 4%nat; s5 ← servos !! 5%nat;
  s6 ← servos !! 6%nat; s7 ← servos !! 7%nat;
  Some (mkArm (<["Waist" := [s0]]> (<["Shoulder" := [s1; s2]]>
               (<["Elbow" := [s3; s4]]> (<["Forearm_rot" := [s5]]>
               (<["Wrist" := [s6]]> (<["Wrist_rot" := [s7]]> ∅))))))).

(** The arm on a bus with the eight servos 1..8, as [findServos]
    numbers them. *)
Definition eightServoArm : Arm :=
  default (mkArm ∅) (NewArm [1; 2; 3; 4; 5; 6; 7; 8]%nat).

(** [int(2048 + (pos/180)*2048)]: the conversion truncates toward zero.
    Degrees are carried as exact rationals; float64 rounding is not
    modelled. *)
Definition Qtrunc (q : Q) : Z :=
  if (0 <=? Qnum q)%Z then Qfloor q else Qceiling q.

Definition degreeToServoPos (pos : Q) : Z :=
  Qtrunc (2048 + (pos / 180) * 2048)%Q.

(** [a.Joints[jointName]]: a missing key yields the nil slice. *)
Definition GetServos (a : Arm) (jointName : string) : list Servo :=
  default [] (Joints a !! jointName).

Definition GetAllServos (a : Arm) : list Servo :=
  flat_map (GetServos a) JointOrder.

(** ** Methods *)

Definition JointTo (a : Arm) (jointName : string) (pos : Z) (block : bool)
  : prog unit :=
  let pos := (if pos >? 4095 then 4095 else if pos <? 0 then 0 else pos)%Z in
  r <- trigger (GoalAndTrack pos block (GetServos a jointName)) ;;
  match r with
  | Some e => trigger (Errorf (jointName +:+ " jointTo error: " +:+ e)) ;;; Ret tt
  | None => Ret tt
  end.

(** One pass of the inner loop of [WaitForMovement] over the servos. *)
Fixpoint pollMoving (servos : list Servo) (allAtPos : bool)
  : prog (bool + string) :=
  match servos with
  | [] => Ret (inl allAtPos)
  | s :: rest =>
      r <- trigger (Moving s) ;;
      match r with
      | (_, Some e) => Ret (inr e)
      | (isMoving, None) =>
          pollMoving rest (if (isMoving =? 0)%Z then allAtPos else false)
      end
  end.

(** [for !allAtPos { ... }], at most [fuel] iterations. *)
Fixpoint waitLoop (a : Arm) (fuel : nat) : prog (option string) :=
  match fuel with
  | O => Spin
  | S fuel' =>
      trigger (Sleep 200) ;;;
      r <- pollMoving (GetAllServos a) true ;;
      match r with
      | inr e => Ret (Some e)
      | inl true => Ret None
      | inl false => waitLoop a fuel'
      end
  end.

Definition WaitForMovement (a : Arm) (fuel : nat) : prog (option string) :=
  trigger MuLock ;;; defer MuUnlock (waitLoop a fuel).

(** The body of the loop of [MoveToJointPositions]; [a.JointOrder()[i]]
    panics when [i] is out of range. *)
Fixpoint moveJoints (a : Arm) (i : nat) (degrees : list Q) : prog unit :=
  match degrees with
  | [] => Ret tt
  | pos :: rest =>
      match JointOrder !! i with
      | Some jointName =>
          JointTo a jointName (degreeToServoPos pos) false ;;;
          moveJoints a (S i) rest
      | None => Panic "index out of range"
      end
  end.

Definition MoveToJointPositions (a : Arm) (degrees : list Q) (fuel : nat)
  : prog (option string) :=
  if (length JointOrder <? length degrees)%nat
  then Ret (Some "passed in too many positions")
  else
    trigger MuLock ;;;
    moveJoints a 0 degrees ;;;
    trigger MuUnlock ;;;
    WaitForMovement a fuel.

(** The inner loop of [GetAllAngles]: sum the present positions. *)
Fixpoint sumPositions (servos : list Servo) (angleSum : Z) : prog (Z + string) :=
  match servos with
  | [] => Ret (inl angleSum)
  | s :: rest =>
      r <- trigger (PresentPosition s) ;;
      match r with
      | (_, Some e) => Ret (inr e)
      | (pos, None) => sumPositions rest (wrap64 (angleSum + pos))
      end
  end.

(** The outer loop of [GetAllAngles].  Go visits the entries of
    [a.Joints] in an unspecified order, given here as [joints]. *)
Fixpoint rangeAngles (joints : list (string * list Servo))
  (angles : gmap string Z) : prog (gmap string Z * option string) :=
  match joints with
  | [] => Ret (angles, None)
  | (jointName, servos) :: rest =>
      r <- sumPositions servos 0 ;;
      match r with
      | inr e => Ret (angles, Some e)
      | inl angleSum =>
          match servos with
          | [] => Panic "integer divide by zero"
          | _ =>
              let angleMean := Z.quot angleSum (Z.of_nat (length servos)) in
              rangeAngles rest (<[jointName := angleMean]> angles)
          end
      end
  end.

Definition GetAllAngles (a : Arm) (joints : list (string * list Servo))
  : prog (gmap string Z * option string) :=
  trigger MuLock ;;; defer MuUnlock (rangeAngles joints ∅).

(** [for _, s := range a.GetAllServos() { err := s.SetProfileAcceleration(accel); ... }] *)
Fixpoint setAccelerations (accel : Z) (servos : list Servo) : prog (option string) :=
  match servos with
  | [] => Ret None
  | s :: rest =>
      r <- trigger (SetProfileAcceleration accel s) ;;
      match r with
      | Some e => Ret (Some e)
      | None => setAccelerations accel rest
      end
  end.

Definition SetAcceleration (a : Arm) (accel : Z) : prog (option string) :=
  trigger MuLock ;;;
  defer MuUnlock (setAccelerations accel (GetAllServos a)).

Fixpoint setVelocities (veloc : Z) (servos : list Servo) : prog (option string) :=
  match servos with
  | [] => Ret None
  | s :: rest =>
      r <- trigger (SetProfileVelocity veloc s) ;;
      match r with
      | Some e => Ret (Some e)
      | None => setVelocities veloc rest
      end
  end.

Definition SetVelocity (a : Arm) (veloc : Z) : prog (option string) :=
  trigger MuLock ;;;
  defer MuUnlock (setVelocities veloc (GetAllServos a)).

Fixpoint setTorques (on : bool) (servos : list Servo) : prog (option string) :=
  match servos with
  | [] => Ret None
  | s :: rest =>
      r <- trigger (SetTorqueEnable on s) ;;
      match r with
      | Some e => Ret (Some e)
      | None => setTorques on rest
      end
  end.

Definition TorqueOn (a : Arm) : prog (option string) :=
  trigger MuLock ;;; defer MuUnlock (setTorques true (GetAllServos a)).

Definition TorqueOff (a : Arm) : prog (option string) :=
  trigger MuLock ;;; defer MuUnlock (setTorques false (GetAllServos a)).

Definition SleepPosition (a : Arm) (fuel : nat) : prog (option string) :=
  trigger MuLock ;;;
  JointTo a "Waist" 2048 false ;;;
  JointTo a "Shoulder" 840 false ;;;
  JointTo a "Wrist_rot" 2048 false ;;;
  JointTo a "Wrist" 2509 false ;;;
  JointTo a "Forearm_rot" 2048 false ;;;
  JointTo a "Elbow" 3090 false ;;;
  trigger MuUnlock ;;;
  WaitForMovement a fuel.

(** [for jointName := range a.Joints { a.JointTo(jointName, 2048, wait) }] *)
Fixpoint homeJoints (a : Arm) (joints : list string) : prog unit :=
  match joints with
  | [] => Ret tt
  | jointName :: rest => JointTo a jointName 2048 false ;;; homeJoints a rest
  end.

Definition HomePosition (a : Arm) (joints : list string) (fuel : nat)
  : prog (option string) :=
  trigger MuLock ;;;
  homeJoints a joints ;;;
  trigger MuUnlock ;;;
  WaitForMovement a fuel.

(** [PrintPositions] reads every servo without taking the lock. *)
Fixpoint printServos (servos : list Servo) : prog (option string) :=
  match servos with
  | [] => Ret None
  | s :: rest =>
      r <- trigger (PresentPosition s) ;;
      match r with
      | (_, Some e) => Ret (Some e)
      | (_, None) => printServos rest
      end
  end.

Definition PrintPositions (a : Arm) : prog (option string) :=
  printServos (GetAllServos a).

(** ** The lock discipline *)

(** Operations that reach a servo over the bus. *)
Definition touchesServo (o : Op) : bool :=
  match o with
  | GoalAndTrack _ _ _ | PresentPosition _ | Moving _
  | SetTorqueEnable _ _ | SetProfileAcceleration _ _
  | SetProfileVelocity _ _ => true
  | MuLock | MuUnlock | Sleep _ | Errorf _ => false
  end.

(** The goal positions commanded in a run. *)
Definition isGoal (o : Op) : bool :=
  match o with GoalAndTrack _ _ _ => true | _ => false end.

Definition commands (tr : list Op) : list Op := List.filter isGoal tr.

(** [holds held p Q E]: started with the mutex [held] or not, [p] locks
    only a free mutex, unlocks only a mutex it holds and reaches a servo
    only while it holds the mutex; when it returns [a] with the mutex in
    state [h], [Q a h]; when it panics with the mutex in state [h],
    [E h]. *)
Fixpoint holds {A : Type} (held : bool) (p : prog A)
  (Q : A -> bool -> Prop) (E : bool -> Prop) : Prop :=
  match p with
  | Ret a => Q a held
  | Panic _ => E held
  | Spin => True
  | Vis o k =>
      match o with
      | MuLock => held = false /\ forall r, holds true (k r) Q E
      | MuUnlock => held = true /\ forall r, holds false (k r) Q E
      | _ => (touchesServo o = true -> held = true)
             /\ forall r, holds held (k r) Q E
      end
  end.

(** A method keeps the lock discipline and leaves the mutex free. *)
Definition guarded {A : Type} (held : bool) (p : prog A) : Prop :=
  holds held p (fun _ h => h = false) (fun _ => True).

(** The methods a client of the arm may call, with the iteration budget
    of their waiting loop and the order in which Go ranges over
    [a.Joints]. *)
Inductive call : Type :=
| CallMoveToJointPositions (degrees : list Q) (fuel : nat)
| CallGetAllAngles (joints : list (string * list Servo))
| CallSleepPosition (fuel : nat)
| CallHomePosition (joints : list string) (fuel : nat)
| CallTorqueOn
| CallTorqueOff
| CallWaitForMovement (fuel : nat)
| CallSetAcceleration (accel : Z)
| CallSetVelocity (veloc : Z).

Definition exec (a : Arm) (c : call) : prog unit :=
  match c with
  | CallMoveToJointPositions degrees fuel =>
      MoveToJointPositions a degrees fuel ;;; Ret tt
  | CallGetAllAngles joints => GetAllAngles a joints ;;; Ret tt
  | CallSleepPosition fuel => SleepPosition a fuel ;;; Ret tt
  | CallHomePosition joints fuel => HomePosition a joints fuel ;;; Ret tt
  | CallTorqueOn => TorqueOn a ;;; Ret tt
  | CallTorqueOff => TorqueOff a ;;; Ret tt
  | CallWaitForMovement fuel => WaitForMovement a fuel ;;; Ret tt
  | CallSetAcceleration accel => SetAcceleration a accel ;;; Ret tt
  | CallSetVelocity veloc => SetVelocity a veloc ;;; Ret tt
  end.

(** A goroutine that makes the calls [cs] one after the other. *)
Fixpoint script (a : Arm) (cs : list call) : prog unit :=
  match cs with
  | [] => Ret tt
  | c :: rest => exec a c ;;; script a rest
  end.

(** ** Goroutines sharing the arm

    A pool is the goroutines' remaining programs and the state of the
    mutex: free, or locked by the goroutine recorded in [holder].  One
    step lets one goroutine issue its next operation; [Lock] proceeds
    only on a free mutex, [Unlock] frees a locked mutex whoever locked
    it (a Go mutex has no owner) and is fatal on a free one. *)
Record pool : Type := mkPool {
  threads : list (prog unit);
  holder : option nat
}.

Inductive step : pool -> pool -> Prop :=
| step_lock ths i (k : reply MuLock -> prog unit) :
    ths !! i = Some (Vis MuLock k) ->
    step (mkPool ths None) (mkPool (<[i := k tt]> ths) (Some i))
| step_unlock ths i j (k : reply MuUnlock -> prog unit) :
    ths !! i = Some (Vis MuUnlock k) ->
    step (mkPool ths (Some j)) (mkPool (<[i := k tt]> ths) None)
| step_unlock_free ths i (k : reply MuUnlock -> prog unit) :
    ths !! i = Some (Vis MuUnlock k) ->
    step (mkPool ths None)
         (mkPool (<[i := Panic "sync: unlock of unlocked mutex"]> ths) None)
| step_io ths h i o (k : reply o -> prog unit) r :
    ths !! i = Some (Vis o k) ->
    o <> MuLock -> o <> MuUnlock ->
    step (mkPool ths h) (mkPool (<[i := k r]> ths) h).

(** Goroutine [i] is about to issue operation [o]. *)
Definition poised (P : pool) (i : nat) (o : Op) : Prop :=
  exists k : reply o -> prog unit, threads P !! i = Some (Vis o k).

(** Every goroutine keeps the discipline from where it stands, and it
    holds the mutex exactly when the pool says so. *)
Definition disciplined (P : pool) : Prop :=
  forall i p, threads P !! i = Some p ->
              guarded (bool_decide (holder P = Some i)) p.

(** The command [MoveToJointPositions] issues for a joint and a position
    in degrees: the servo position, kept within [0, 4095]. *)
Definition goalFor (a : Arm) (jointName : string) (pos : Q) : Op :=
  GoalAndTrack (Z.max 0 (Z.min 4095 (degreeToServoPos pos))) false
               (GetServos a jointName).

(** What [GetAllAngles] computes for one joint from the positions
    [posOf] of its servos: the truncated mean. *)
Definition angleMeanOf (posOf : Servo -> Z) (servos : list Servo) : Z :=
  Z.quot (fold_left (fun angleSum s => wrap64 (angleSum + posOf s)) servos 0)
         (Z.of_nat (length servos)).

(** The map [GetAllAngles] builds over the joints in the order Go
    visits them. *)
Definition anglesOf (posOf : Servo -> Z) (joints : list (string * list Servo))
  (angles : gmap string Z) : gmap string Z :=
  fold_left (fun m js => <[fst js := angleMeanOf posOf (snd js)]> m) joints angles.

(** The reads [GetAllAngles] issues over the joints. *)
Definition readsOf (joints : list (string * list Servo)) : list Op :=
  flat_map (fun js => map PresentPosition (snd js)) joints.

(** A bus on which every operation succeeds, every servo stands at the
    centre position and none is moving. *)
Definition atRest (w : unit) (o : Op) : reply o * unit :=
  (match o return reply o with
   | MuLock | MuUnlock | Sleep _ | Errorf _ => tt
   | GoalAndTrack _ _ _ | SetTorqueEnable _ _
   | SetProfileAcceleration _ _ | SetProfileVelocity _ _ => None
   | PresentPosition _ => (2048, None)
   | Moving _ => (0, None)
   end, w).

(** A bus on which every goal command times out. *)
Definition timingOut (w : unit) (o : Op) : reply o * unit :=
  (match o return reply o with
   | MuLock | MuUnlock | Sleep _ | Errorf _ => tt
   | GoalAndTrack _ _ _ => Some "timeout"
   | SetTorqueEnable _ _
   | SetProfileAcceleration _ _ | SetProfileVelocity _ _ => None
   | PresentPosition _ => (2048, None)
   | Moving _ => (0, None)
   end, w).

(** ** The rest of the driver *)

(** [((pos - 2048) * 180) / 2048], in exact arithmetic. *)
Definition servoPosToDegrees (pos : Q) : Q := ((pos - 2048) * 180) / 2048.

(** The angles the arm goes to before torque is turned off. *)
Definition SleepAngles : gmap string Z :=
  list_to_map [("Waist", 2048); ("Shoulder", 840); ("Elbow", 3090);
               ("Forearm_rot", 2048); ("Wrist", 2509); ("Wrist_rot", 2048)].

(** The angles the arm falls into after torque is off. *)
Definition OffAngles : gmap string Z :=
  list_to_map [("Waist", 2048); ("Shoulder", 795); ("Elbow", 3091);
               ("Forearm_rot", 2048); ("Wrist", 2566); ("Wrist_rot", 2048)].

(** [math.Abs(a-b) <= c]; every angle the driver compares is a whole
    number held in a float64. *)
Definition within (a b c : Z) : bool := (Z.abs (a - b) <=? c)%Z.

(** Go's [m[key]] on a [map[string]float64]: zero for a missing key. *)
Definition angleAt (m : gmap string Z) (joint : string) : Z :=
  default 0 (m !! joint).

(** The loop of [Close] over [JointOrder]: [alreadyAtSleep] stays true
    when every joint is within 15 of its sleep or of its off angle. *)
Definition alreadyAtSleep (angles : gmap string Z) : bool :=
  forallb (fun joint =>
             within (angleAt angles joint) (angleAt SleepAngles joint) 15
             || within (angleAt angles joint) (angleAt OffAngles joint) 15)
          JointOrder.

(** [if err != nil { golog.Global.Errorf(format, err) }] *)
Definition logError (what : string) (e : option string) : prog unit :=
  match e with
  | Some msg => trigger (Errorf (what +:+ msg)) ;;; Ret tt
  | None => Ret tt
  end.

(** [Close]; [joints] is the order in which [GetAllAngles] visits
    [a.Joints], [home] the order in which [HomePosition] does. *)
Definition Close (a : Arm) (joints : list (string * list Servo))
  (home : list string) (fuelHome fuelSleep : nat) : prog unit :=
  r <- GetAllAngles a joints ;;
  logError "failed to get angles: " (snd r) ;;;
  (if alreadyAtSleep (fst r) then Ret tt
   else e <- HomePosition a home fuelHome ;;
        logError "Home position error: " e) ;;;
  (e <- SleepPosition a fuelSleep ;; logError "Sleep pos error: " e) ;;;
  (e <- TorqueOff a ;; logError "Torque off error: " e).

(** The goal commands of [HomePosition] and of [SleepPosition]. *)
Definition homeGoals (a : Arm) (home : list string) : list Op :=
  map (fun jointName => GoalAndTrack 2048 false (GetServos a jointName)) home.

Definition sleepGoals (a : Arm) : list Op :=
  [GoalAndTrack 2048 false (GetServos a "Waist");
   GoalAndTrack 840 false (GetServos a "Shoulder");
   GoalAndTrack 2048 false (GetServos a "Wrist_rot");
   GoalAndTrack 2509 false (GetServos a "Wrist");
   GoalAndTrack 2048 false (GetServos a "Forearm_rot");
   GoalAndTrack 3090 false (GetServos a "Elbow")].

(** Torque commands in a run. *)
Definition isTorque (o : Op) : bool :=
  match o with SetTorqueEnable _ _ => true | _ => false end.

(** A bus whose servos keep moving until [n] sleeps have gone by: the
    environment counts the sleeps that are left. *)
Definition movingFor (n : nat) (o : Op) : reply o * nat :=
  match o return reply o * nat with
  | Sleep _ => (tt, pred n)
  | MuLock => (tt, n)
  | MuUnlock => (tt, n)
  | Errorf _ => (tt, n)
  | GoalAndTrack _ _ _ => (None, n)
  | SetTorqueEnable _ _ => (None, n)
  | SetProfileAcceleration _ _ => (None, n)
  | SetProfileVelocity _ _ => (None, n)
  | PresentPosition _ => ((2048, None), n)
  | Moving _ => ((if (n =? 0)%nat then 0 else 1, None), n)
  end.

(** Operations on the mutex. *)
Definition isLock (o : Op) : bool :=
  match o with MuLock | MuUnlock => true | _ => false end.

(** [n] rounds of the loop of [WaitForMovement]: a sleep, then one
    poll of every servo. *)
Definition pollRounds (a : Arm) (n : nat) : list Op :=
  concat (replicate n (Sleep 200 :: map Moving (GetAllServos a))).

(** The events of one pass over the servos in which they answered
    [answers], whether they are moving, without an error; when there
    are fewer answers than servos the pass got no further. *)
Definition polled (servos : list Servo) (answers : list Z)
  : list (event Op reply) :=
  zip_with (fun s isMoving => Event (Moving s) (isMoving, None)) servos answers.

(** The events of one round of the loop of [WaitForMovement]. *)
Definition pollRound (servos : list Servo) (answers : list Z)
  : list (event Op reply) :=
  Event (Sleep 200) tt :: polled servos answers.

(** A full round in which some servo answered that it is moving. *)
Definition busy (servos : list Servo) (answers : list Z) : Prop :=
  length answers = length servos /\ Exists (fun isMoving => isMoving <> 0%Z) answers.

(** Sleeps in a run. *)
Definition isSleep (o : Op) : bool :=
  match o with Sleep _ => true | _ => false end.

End Wx250s.

(* ===================================================================== *)
(** * Finding the servos of the wx250s (robots/wx250s/arm.go) *)
(* ===================================================================== *)

Module Wx250sSetup.

Definition Servo : Type := Wx250s.Servo.

(** [serial.OpenOptions], with the fields [findServos] fills in. *)
Record OpenOptions : Type := mkOpenOptions {
  PortName : string;
  BaudRate : Z;
  DataBits : Z;
  StopBits : Z;
  MinimumReadSize : Z;
  InterCharacterTimeout : Z
}.

Inductive Op : Type :=
| SerialOpen (options : OpenOptions)         (* serial.Open(options)    *)
| NewServo (i : Z)                           (* s_model.New(network, i) *)
| SetPGain (v : Z) (s : Servo)
| SetIGain (v : Z) (s : Servo)
| SetTorqueEnable (on : bool) (s : Servo)
| SetProfileVelocity (v : Z) (s : Servo)
| SetProfileAcceleration (v : Z) (s : Servo).

Definition reply (o : Op) : Type :=
  match o with
  | NewServo _ => (Servo + string)%type
  | _ => option string
  end.

Abbreviation prog := (Prog.prog Op reply).

(** The errors [findServos] and [setServoDefaults] build with
    [fmt.Errorf], by their format: the servo and the wrapped error are
    kept as they are rather than printed.  The text of a [strconv]
    error is not modelled. *)
Inductive error : Type :=
| MangledBaudrate                            (* "mangled baudrate: %v"          *)
| MangledServoCount                          (* "mangled servo count: %v"       *)
| OpeningSerialPort (e : string)             (* "error opening serial port: %v" *)
| InitializingServo (i : Z) (e : string)     (* "error initializing servo %d: %v" *)
| Setting (what : string) (s : Servo) (e : string). (* "error <what> servo %d: %v" *)

(** [strconv.Atoi]: an optional sign followed by one or more decimal
    digits, denoting a value that fits Go's 64-bit [int]; [None] is a
    non-nil error. *)
Definition digit (c : Ascii.ascii) : option Z :=
  let n := Z.of_nat (Ascii.nat_of_ascii c) in
  if ((48 <=? n) && (n <=? 57))%Z then Some (n - 48)%Z else None.

Fixpoint digits (s : string) (acc : Z) : option Z :=
  match s with
  | String.EmptyString => Some acc
  | String.String c rest =>
      match digit c with
      | Some d => digits rest (acc * 10 + d)%Z
      | None => None
      end
  end.

Definition Atoi (s : string) : option Z :=
  let '(neg, body) :=
    match s with
    | String.String c rest =>
        let n := Z.of_nat (Ascii.nat_of_ascii c) in
        if (n =? 45)%Z then (true, rest)            (* '-' *)
        else if (n =? 43)%Z then (false, rest)      (* '+' *)
        else (false, s)
    | String.EmptyString => (false, s)
    end in
  match body with
  | String.EmptyString => None
  | _ =>
      match digits body 0 with
      | Some n =>
          let v := (if neg then - n else n)%Z in
          if ((- 2 ^ 63 <=? v) && (v <? 2 ^ 63))%Z then Some v else None
      | None => None
      end
  end.

(** The settings a servo receives, in the order of the source. *)
Definition setServoDefaults (newServo : Servo) : prog (option error) :=
  err <- trigger (SetPGain 2800 newServo) ;;
  match err with
  | Some e => Ret (Some (Setting "SetPGain" newServo e))
  | None =>
  err <- trigger (SetIGain 50 newServo) ;;
  match err with
  | Some e => Ret (Some (Setting "SetIGain" newServo e))
  | None =>
  err <- trigger (SetTorqueEnable true newServo) ;;
  match err with
  | Some e => Ret (Some (Setting "SetTorqueEnable" newServo e))
  | None =>
  err <- trigger (SetProfileVelocity 50 newServo) ;;
  match err with
  | Some e => Ret (Some (Setting "SetProfileVelocity" newServo e))
  | None =>
  err <- trigger (SetProfileAcceleration 10 newServo) ;;
  match err with
  | Some e => Ret (Some (Setting "SetProfileAcceleration" newServo e))
  | None => Ret None
  end end end end end.

(** [for i := 1; i <= armServoCount; i++ { ... }], at most [fuel]
    iterations; [i++] is Go's wrapping increment. *)
Fixpoint servoLoop (fuel : nat) (i armServoCount : Z) (servos : list Servo)
  : prog (list Servo + error) :=
  if (i <=? armServoCount)%Z then
    match fuel with
    | O => Spin
    | S fuel' =>
        r <- trigger (NewServo i) ;;
        match r with
        | inr e => Ret (inr (InitializingServo i e))
        | inl newServo =>
            err <- setServoDefaults newServo ;;
            match err with
            | Some e => Ret (inr e)
            | None =>
                servoLoop fuel' (Wx250s.wrap64 (i + 1)) armServoCount
                          (servos ++ [newServo])%list
            end
        end
    end
  else Ret (inl servos).

(** [uint(baudRate)] *)
Definition toUint (z : Z) : Z := (z mod 2 ^ 64)%Z.

Definition options (usbPort : string) (baudRate : Z) : OpenOptions :=
  {| PortName := usbPort; BaudRate := toUint baudRate; DataBits := 8;
     StopBits := 1; MinimumReadSize := 0; InterCharacterTimeout := 100 |}.

Definition findServos (usbPort baudRateStr armServoCountStr : string)
  (fuel : nat) : prog (list Servo + error) :=
  match Atoi baudRateStr with
  | None => Ret (inr MangledBaudrate)
  | Some baudRate =>
      match Atoi armServoCountStr with
      | None => Ret (inr MangledServoCount)
      | Some armServoCount =>
          err <- trigger (SerialOpen (options usbPort baudRate)) ;;
          match err with
          | Some e => Ret (inr (OpeningSerialPort e))
          | None => servoLoop fuel 1 armServoCount []
          end
      end
  end.

(** [NewArm] up to its last line, which hands the arm it has built to
    [kinematics.NewArm]; the three strings are the attributes
    [usbPort], [baudRate] and [armServoCount].  Indexing [servos]
    beyond its length panics. *)
Definition NewArm (usbPort baudRate armServoCount : string) (fuel : nat)
  : prog (Wx250s.Arm + error) :=
  r <- findServos usbPort baudRate armServoCount fuel ;;
  match r with
  | inr err => Ret (inr err)
  | inl servos =>
      match Wx250s.NewArm servos with
      | Some newArm => Ret (inl newArm)
      | None => Panic "index out of range"
      end
  end.

(** What a servo is sent when every setting succeeds. *)
Definition defaults (s : Servo) : list Op :=
  [SetPGain 2800 s; SetIGain 50 s; SetTorqueEnable true s;
   SetProfileVelocity 50 s; SetProfileAcceleration 10 s].

(** The commands of a search that creates the servos [servos] under the
    IDs [i], [i+1], ... *)
Definition configured (i : Z) (servos : list Servo) : list Op :=
  concat (zip_with (fun j s => NewServo j :: defaults s)
            (seqZ i (Z.of_nat (length servos))) servos).

(** The error [findServos] makes of the reply to an operation, if the
    reply is a failure. *)
Definition failure (o : Op) : reply o -> option error :=
  match o return reply o -> option error with
  | SerialOpen _ => fun r => OpeningSerialPort <$> r
  | NewServo i =>
      fun r => match r with
               | inl _ => None
               | inr e => Some (InitializingServo i e)
               end
  | SetPGain _ s => fun r => Setting "SetPGain" s <$> r
  | SetIGain _ s => fun r => Setting "SetIGain" s <$> r
  | SetTorqueEnable _ s => fun r => Setting "SetTorqueEnable" s <$> r
  | SetProfileVelocity _ s => fun r => Setting "SetProfileVelocity" s <$> r
  | SetProfileAcceleration _ s => fun r => Setting "SetProfileAcceleration" s <$> r
  end.

Definition failed (ev : event Op reply) : option error :=
  match ev with Event o r => failure o r end.

(** The five settings of a servo, each answered with nil. *)
Definition settled (s : Servo) : list (event Op reply) :=
  [Event (SetPGain 2800 s) None; Event (SetIGain 50 s) None;
   Event (SetTorqueEnable true s) None; Event (SetProfileVelocity 50 s) None;
   Event (SetProfileAcceleration 10 s) None].

(** The events of a search in which the IDs [i], [i+1], ... answered
    with the servos [servos] and every setting with nil. *)
Definition configuredAs (i : Z) (servos : list Servo) : list (event Op reply) :=
  concat (zip_with (fun j s => Event (NewServo j) (inl s) :: settled s)
            (seqZ i (Z.of_nat (length servos))) servos).

(** A bus on which everything succeeds; servo [i] answers under ID [i]. *)
Definition healthy (_ : unit) (o : Op) : reply o * unit :=
  match o return reply o * unit with
  | NewServo i => (inl (Z.to_nat i), tt)
  | _ => (None, tt)
  end.

End Wx250sSetup.


(* ===================================================================== *)
(** * The minirover base (samples/minirover/main.go) *)
(* ===================================================================== *)

Module Minirover.

(** Handles of the [board.Motor]s and [board.Servo]s of a board. *)
Definition Motor : Type := nat.
Definition Servo : Type := nat.

Inductive Direction : Type := DirForward | DirBackward.

Inductive Op : Type :=
| GoFor (m : Motor) (d : Direction) (rpm rotations : Q) (block : bool)
| Off (m : Motor)
| IsOn (m : Motor)
| Move (s : Servo) (angle : Z)
| Sleep (millis : Z)                             (* time.Sleep *)
| Debugf (format : string) (args : list Z).      (* golog.Global.Debugf *)

Definition reply (o : Op) : Type :=
  match o with
  | GoFor _ _ _ _ _ | Off _ | Move _ _ => option string
  | IsOn _ => bool
  | Sleep _ | Debugf _ _ => unit
  end.

Abbreviation prog := (Prog.prog Op reply).

(** An [error] of this file is nil, a single error or what
    [multierr.Combine] makes of several: the list of the errors it was
    given that are not nil, nested combinations flattened. *)
Definition error : Type := list string.

Definition Combine (errs : list (option string)) : error := omap id errs.

(** [type Rover struct]: the four motors are never nil in a rover that
    [NewRover] returns; the servos are taken from the board unchecked
    and may be nil. *)
Record Rover : Type := mkRover {
  fl : Motor; fr : Motor; bl : Motor; br : Motor;
  pan : option Servo; tilt : option Servo
}.

Definition PanCenter : Z := 94.
Definition TiltCenter : Z := 113.

(** [utils.AbsInt] on Go's 64-bit [int]. *)
Definition AbsInt (n : Z) : Z := Wx250s.wrap64 (Z.abs n).

Definition Qlt_bool (x y : Q) : bool := negb (Qle_bool y x).

(** Issuing one operation. *)
Definition call (o : Op) : prog (reply o) := trigger o.

Definition Stop (r : Rover) : prog error :=
  e1 <- call (Off (fl r)) ;;
  e2 <- call (Off (fr r)) ;;
  e3 <- call (Off (bl r)) ;;
  e4 <- call (Off (br r)) ;;
  Ret (Combine [e1; e2; e3; e4]).

Definition Close (r : Rover) : prog error := Stop r.

(** [r.fl.IsOn() || r.fr.IsOn() || r.bl.IsOn() || r.br.IsOn()] *)
Definition anyOn (r : Rover) : prog bool :=
  on <- call (IsOn (fl r)) ;;
  if on : bool then Ret true else
  on <- call (IsOn (fr r)) ;;
  if on : bool then Ret true else
  on <- call (IsOn (bl r)) ;;
  if on : bool then Ret true else
  call (IsOn (br r)).

(** The loop of [waitForMotorsToStop], at most [fuel] iterations. *)
Fixpoint waitForMotorsToStop (r : Rover) (fuel : nat) : prog error :=
  match fuel with
  | O => Prog.Spin
  | S fuel' =>
      call (Sleep 10) ;;;
      on <- anyOn r ;;
      if on : bool then waitForMotorsToStop r fuel' else Ret []
  end.

(** The end shared by [MoveStraight] and [Spin]: the four commands are
    all issued before their errors are looked at. *)
Definition goAll (r : Rover) (dl dr : Direction) (rpm rotations : Q)
  (block : bool) (fuel : nat) : prog error :=
  e1 <- call (GoFor (fl r) dl rpm rotations false) ;;
  e2 <- call (GoFor (fr r) dr rpm rotations false) ;;
  e3 <- call (GoFor (bl r) dl rpm rotations false) ;;
  e4 <- call (GoFor (br r) dr rpm rotations false) ;;
  match Combine [e1; e2; e3; e4] with
  | [] => if block then waitForMotorsToStop r fuel else Ret []
  | err => stopErr <- Stop r ;; Ret (err ++ stopErr)%list
  end.

Section Wheels.
(** [math.Pi * 150] as a [float64].  Floating-point numbers are carried
    as exact rationals. *)
Variable WheelCircumferenceMillis : Q.

Definition MoveStraight (r : Rover) (distanceMillis : Z) (millisPerSec : Q)
  (block : bool) (fuel : nat) : prog error :=
  if (distanceMillis =? 0)%Z && block
  then Ret ["cannot block unless you have a distance"]
  else if negb (distanceMillis =? 0)%Z && Qle_bool millisPerSec 0
  then Ret ["if distanceMillis is set, millisPerSec has to be positive"]
  else
    let backward := (distanceMillis <? 0)%Z || Qlt_bool millisPerSec 0 in
    let d := if backward then DirBackward else DirForward in
    let distanceMillis := if backward then AbsInt distanceMillis else distanceMillis in
    let millisPerSec := if backward then Qabs millisPerSec else millisPerSec in
    let rotations := (inject_Z distanceMillis / WheelCircumferenceMillis)%Q in
    let rotationsPerSec := (millisPerSec / WheelCircumferenceMillis)%Q in
    let rpm := (60 * rotationsPerSec)%Q in
    goAll r d d rpm rotations block fuel.
End Wheels.

Definition Spin (r : Rover) (angleDeg : Q) (speed : Z) (block : bool)
  (fuel : nat) : prog error :=
  let speed := (if speed <? 120 then 120 else speed)%Z in
  let '(a, b) := if Qlt_bool angleDeg 0 then (DirBackward, DirForward)
                 else (DirForward, DirBackward) in
  let rotations := Qabs (angleDeg / 5) in
  let rpm := inject_Z speed in
  goAll r a b rpm rotations block fuel.

Definition WidthMillis (r : Rover) : Z * error := (600, []).

(** A method called on a nil [board.Servo] panics. *)
Definition servoMove (s : option Servo) (angle : Z) : prog (option string) :=
  match s with
  | Some h => call (Move h angle)
  | None => Panic "invalid memory address or nil pointer dereference"
  end.

(** [neckPosition(pan, tilt uint8)] *)
Definition neckPosition (r : Rover) (pan' tilt' : Z) : prog error :=
  call (Debugf "neckPosition to %v %v" [pan'; tilt']) ;;;
  e1 <- servoMove (pan r) pan' ;;
  e2 <- servoMove (tilt r) tilt' ;;
  Ret (Combine [e1; e2]).

Definition neckCenter (r : Rover) : prog error :=
  neckPosition r PanCenter TiltCenter.

(** [uint8(x)] of an [int]. *)
Definition toUint8 (x : Z) : Z := (x mod 256)%Z.

Definition neckOffset (r : Rover) (left : Z) : prog error :=
  neckPosition r
    (toUint8 (Wx250s.wrap64 (PanCenter + Wx250s.wrap64 (left * -30))))
    (toUint8 (TiltCenter - 20)).

(** A [board.Board], as far as [NewRover] asks it: [Motor] and [Servo]
    yield nil for a name the board does not have. *)
Record Board : Type := mkBoard {
  motors : gmap string Motor;
  servos : gmap string Servo
}.

(** [NewRover]; the board is an interface value and may be nil. *)
Definition NewRover (theBoard : option Board) : prog (option Rover * error) :=
  match theBoard with
  | None => Panic "invalid memory address or nil pointer dereference"
  | Some b =>
      match motors b !! "fl-m", motors b !! "fr-m",
            motors b !! "bl-m", motors b !! "br-m" with
      | Some fl', Some fr', Some bl', Some br' =>
          let rover := mkRover fl' fr' bl' br' (servos b !! "pan") (servos b !! "tilt") in
          err <- neckCenter rover ;;
          match err with
          | [] => call (Debugf "rover ready" []) ;;; Ret (Some rover, [])
          | _ => Ret (None, err)
          end
      | _, _, _, _ => Ret (None, ["missing a motor for minirover2"])
      end
  end.

(** What the four motors answer to [Off], asked in the order of
    [Stop], combined, and the environment they leave. *)
Definition stopped {W : Type} (respond : W -> forall o : Op, reply o * W) (w : W)
  (r : Rover) : error * W :=
  let '(e1, w1) := respond w (Off (fl r)) in
  let '(e2, w2) := respond w1 (Off (fr r)) in
  let '(e3, w3) := respond w2 (Off (bl r)) in
  let '(e4, w4) := respond w3 (Off (br r)) in
  (Combine [e1; e2; e3; e4], w4).

(** What the servos [p] and [t] answer to the moves to [pan'] and
    [tilt'], asked after the debug line, combined, and the environment
    they leave. *)
Definition moved {W : Type} (respond : W -> forall o : Op, reply o * W) (w : W)
  (p t : Servo) (pan' tilt' : Z) : error * W :=
  let '(_, w0) := respond w (Debugf "neckPosition to %v %v" [pan'; tilt']) in
  let '(e1, w1) := respond w0 (Move p pan') in
  let '(e2, w2) := respond w1 (Move t tilt') in
  (Combine [e1; e2], w2).

(** The commands to the four motors, in the order they are given. *)
Definition goes (r : Rover) (dl dr : Direction) (rpm rotations : Q) : list Op :=
  [GoFor (fl r) dl rpm rotations false; GoFor (fr r) dr rpm rotations false;
   GoFor (bl r) dl rpm rotations false; GoFor (br r) dr rpm rotations false].

Definition offs (r : Rover) : list Op :=
  [Off (fl r); Off (fr r); Off (bl r); Off (br r)].

(** What the four motors answer to these commands, combined, and the
    environment they leave. *)
Definition asked {W : Type} (respond : W -> forall o : Op, reply o * W) (w : W)
  (r : Rover) (dl dr : Direction) (rpm rotations : Q) : error * W :=
  let '(e1, w1) := respond w (GoFor (fl r) dl rpm rotations false) in
  let '(e2, w2) := respond w1 (GoFor (fr r) dr rpm rotations false) in
  let '(e3, w3) := respond w2 (GoFor (bl r) dl rpm rotations false) in
  let '(e4, w4) := respond w3 (GoFor (br r) dr rpm rotations false) in
  (Combine [e1; e2; e3; e4], w4).

Definition wheels (r : Rover) : list Motor := [fl r; fr r; bl r; br r].

(** One round of the waiting loop that asked the first [j] motors. *)
Definition pollRound (r : Rover) (j : nat) : list Op :=
  Sleep 10 :: map IsOn (take j (wheels r)).

(** A rover with the motors 1 to 4 and the servos 5 and 6, and motors
    that run until the given number of sleeps has passed. *)
Definition exampleRover : Rover :=
  mkRover 1%nat 2%nat 3%nat 4%nat (Some 5%nat) (Some 6%nat).

Definition exampleBoard : Board :=
  mkBoard (list_to_map [("fl-m", 1%nat); ("fr-m", 2%nat); ("bl-m", 3%nat);
                        ("br-m", 4%nat)])
          (list_to_map [("pan", 5%nat); ("tilt", 6%nat)]).

Definition obedient (n : nat) (o : Op) : reply o * nat :=
  match o return reply o * nat with
  | GoFor _ _ _ _ _ | Off _ | Move _ _ => (None, n)
  | IsOn _ => (negb (n =? 0)%nat, n)
  | Sleep _ => (tt, pred n)
  | Debugf _ _ => (tt, n)
  end.

End Minirover.


(* ===================================================================== *)
(** * Resetting the box (samples/box/resetbox.go) *)
(* ===================================================================== *)

Module ResetBox.

(** Handles of the devices of the robot. *)
Definition Interrupt : Type := nat.
Definition Servo : Type := nat.
Definition Arm : Type := nat.
Definition Gripper : Type := nat.

(** A [board.Board] and a [robot.Robot], as far as this file asks
    them: a lookup by name yields nil for a name that is absent. *)
Record Board : Type := mkBoard {
  interrupts : gmap string Interrupt;
  servos : gmap string Servo
}.

Record Robot : Type := mkRobot {
  boards : gmap string Board;
  arms : gmap string Arm;
  grippers : gmap string Gripper
}.

Inductive Op : Type :=
| InterruptValue (i : Interrupt)                 (* lSwitch.Value()  *)
| ServoMove (s : Servo) (angle : Z)              (* servo.Move(ctx, angle) *)
| SelectContextOrWait (millis : Z)               (* utils.SelectContextOrWait *)
| CtxErr                                         (* ctx.Err() *)
| GripperOpen (g : Gripper)
| GripperGrab (g : Gripper)
| MoveToJointPositions (a : Arm) (degrees : list Q)
| Errorf (msg : string).                         (* theRobot.Logger().Errorf *)

Definition reply (o : Op) : Type :=
  match o with
  | InterruptValue _ => Z
  | ServoMove _ _ | CtxErr | GripperOpen _ | MoveToJointPositions _ _ =>
      option string
  | SelectContextOrWait _ => bool
  | GripperGrab _ => (bool * option string)%type
  | Errorf _ => unit
  end.

Abbreviation prog := (Prog.prog Op reply).

Definition call (o : Op) : prog (reply o) := trigger o.

Definition nilDereference : string :=
  "invalid memory address or nil pointer dereference".

(** A method called on a nil interface value panics. *)
Definition method {A : Type} {H : Type} (h : option H) (m : H -> prog A) : prog A :=
  match h with
  | Some x => m x
  | None => Panic nilDereference
  end.

(** [if err != nil { return err }] *)
Definition check (err : option string) (rest : prog (option string))
  : prog (option string) :=
  match err with
  | Some e => Ret (Some e)
  | None => rest
  end.

(** [if !utils.SelectContextOrWait(ctx, d) { return ctx.Err() }] *)
Definition waitOr (millis : Z) (rest : prog (option string))
  : prog (option string) :=
  ok <- call (SelectContextOrWait millis) ;;
  if ok : bool then rest else call CtxErr.

(** [for currentValue == startValue { currentValue = lSwitch.Value() }],
    at most [fuel] iterations. *)
Fixpoint untilSwitched (lSwitch : option Interrupt) (currentValue startValue : Z)
  (fuel : nat) : prog unit :=
  if (currentValue =? startValue)%Z then
    match fuel with
    | O => Prog.Spin
    | S fuel' =>
        v <- method lSwitch (fun i => call (InterruptValue i)) ;;
        untilSwitched lSwitch v startValue fuel'
    end
  else Ret tt.

(** What [OpenBox] and [CloseBox] share: start the servo, wait for the
    limit switch, stop the servo (position 90). *)
Definition moveUntilSwitched (lSwitch : option Interrupt)
  (shakeServo : option Servo) (speed currentValue startValue : Z) (fuel : nat)
  : prog (option string) :=
  err <- method shakeServo (fun s => call (ServoMove s speed)) ;;
  check err (
  untilSwitched lSwitch currentValue startValue fuel ;;;
  err <- method shakeServo (fun s => call (ServoMove s 90)) ;;
  check err (Ret None)).

Definition OpenBox (b : Board) (gentle : bool) (fuel : nat)
  : prog (option string) :=
  let lSwitch := interrupts b !! "open" in
  currentValue <- method lSwitch (fun i => call (InterruptValue i)) ;;
  startValue <- method lSwitch (fun i => call (InterruptValue i)) ;;
  let servoSpeed := 70%Z in
  let servoSpeed := if gentle then 70%Z else servoSpeed in
  let shakeServo := servos b !! "shake" in
  let open :=
    (* uint8(servoSpeed) *)
    moveUntilSwitched lSwitch shakeServo (servoSpeed mod 256)
                      currentValue startValue fuel in
  if gentle then
    err <- method shakeServo (fun s => call (ServoMove s 100)) ;;
    check err (waitOr 300 open)
  else open.

Definition CloseBox (b : Board) (fuel : nat) : prog (option string) :=
  let lSwitch := interrupts b !! "closed" in
  currentValue <- method lSwitch (fun i => call (InterruptValue i)) ;;
  startValue <- method lSwitch (fun i => call (InterruptValue i)) ;;
  let shakeServo := servos b !! "shake" in
  moveUntilSwitched lSwitch shakeServo 110 currentValue startValue fuel.

Definition TiltField (b : Board) : prog (option string) :=
  method (servos b !! "tilt") (fun s => call (ServoMove s 70)).

Definition FlatField (b : Board) : prog (option string) :=
  method (servos b !! "tilt") (fun s => call (ServoMove s 32)).

Definition navigateWx250sToDuck : list (list Q) :=
  [ [-3.076171875; -101.42578125; 84.814453125; 2.724609375; 49.658203125; -11.6015625];
    [-10.107421875; -89.6484375; 76.728515625; 2.021484375; 47.548828125; -8.0859375];
    [-14.4140625; -80.5078125; 68.466796875; -3.779296875; 47.4609375; -7.734375];
    [-17.841796875; -69.2578125; 61.787109375; -14.0625; 47.4609375; -7.55859375];
    [-21.533203125; -54.404296875; 53.4375; -18.6328125; 47.548828125; -7.822265625];
    [-23.73046875; -39.638671875; 44.6484375; -16.34765625; 47.63671875; -7.822265625];
    [-28.388671875; -24.08203125; 31.9921875; -13.0078125; 50.09765625; -8.173828125];
    [-31.728515625; -4.306640625; 17.2265625; -13.88671875; 53.349609375; -8.349609375];
    [-34.98046875; 2.28515625; 16.34765625; -10.107421875; 55.01953125; -10.546875];
    [-36.826171875; 7.822265625; 16.962890625; -9.66796875; 43.41796875; -13.095703125];
    [-36.9140625; 17.666015625; 10.546875; -8.525390625; 39.990234375; -17.138671875];
    [-38.408203125; 25.48828125; 7.3828125; -5.009765625; 35.595703125; -26.806640625];
    [-38.49609375; 32.6953125; 2.4609375; -7.822265625; 35.595703125; -27.421875];
    [-39.287109375; 40.25390625; -1.58203125; 1.494140625; 35.595703125; -27.59765625];
    [-38.935546875; 44.82421875; -6.943359375; 1.93359375; 35.068359375; -27.94921875];
    [-38.935546875; 48.515625; -7.470703125; -0.263671875; 32.8828125; -33.3984375];
    [-38.583984375; 53.173828125; -12.568359375; 1.142578125; 30.443359375; -33.57421875];
    [-38.49609375; 56.6015625; -14.765625; 1.845703125; 28.8828125; -33.75];
    [-38.056640625; 58.7109375; -16.875; 1.40625; 28.41015625; -33.662109375];
    [-38.232421875; 60.64453125; -18.28125; 1.845703125; 27.322265625; -33.662109375];
    [-38.408203125; 62.2265625; -19.423828125; 1.494140625; 27.70703125; -33.486328125] ]%Q.

Definition navigateWx250sFromDuck : list (list Q) :=
  [ [-38.583984375; 62.138671875; -19.599609375; 2.63671875; 30.322265625; -33.486328125];
    [-38.3203125; 59.150390625; -18.193359375; 2.373046875; 30.76171875; -33.134765625];
    [-37.96875; 53.349609375; -14.94140625; 2.109375; 38.583984375; -32.958984375];
    [-38.056640625; 42.36328125; -8.61328125; 2.373046875; 39.990234375; -33.046875];
    [-38.14453125; 35.68359375; -2.197265625; 2.4609375; 39.990234375; -32.958984375];
    [-38.3203125; 28.740234375; 0.87890625; 2.109375; 39.990234375; -32.958984375];
    [-38.671875; 23.73046875; 1.0546875; 2.109375; 40.517578125; -32.87109375];
    [-39.375; 19.6875; 2.109375; 2.373046875; 43.76953125; -32.87109375];
    [-42.1875; 9.404296875; 5.712890625; 2.109375; 48.69140625; -32.87109375];
    [-47.373046875; -0.439453125; 8.0859375; 2.021484375; 54.052734375; -32.783203125];
    [-62.138671875; -9.84375; 8.525390625; -2.548828125; 60.380859375; -32.87109375];
    [-71.806640625; -15.556640625; 10.37109375; -11.07421875; 63.017578125; -32.958984375];
    [-79.98046875; -18.017578125; 13.18359375; -16.875; 65.0390625; -33.310546875];
    [-86.8359375; -17.2265625; 17.666015625; -17.40234375; 60.46875; -13.18359375];
    [-87.5390625; -13.53515625; 19.248046875; -4.04296875; 61.435546875; -4.921875];
    [-87.71484375; -4.39453125; 17.9296875; -0.3515625; 63.017578125; -4.658203125];
    [-87.5390625; 6.85546875; 9.931640625; -3.603515625; 68.203125; -4.39453125];
    [-87.099609375; 9.66796875; 10.8984375; -0.439453125; 68.90625; -1.23046875];
    [-86.484375; 10.1953125; 10.72265625; -0.791015625; 70.400390625; -0.263671875] ]%Q.

(** [for _, intPosition := range positions { ... }] *)
Fixpoint moveThrough (myArm : option Arm) (positions : list (list Q))
  (rest : prog (option string)) : prog (option string) :=
  match positions with
  | [] => rest
  | intPosition :: positions' =>
      err <- method myArm (fun a => call (MoveToJointPositions a intPosition)) ;;
      check err (moveThrough myArm positions' rest)
  end.

Definition ReplaceObject (theRobot : Robot) : prog (option string) :=
  let myArm := arms theRobot !! "pieceArm" in
  let myGripper := grippers theRobot !! "pieceGripper" in
  err <- method myGripper (fun g => call (GripperOpen g)) ;;
  check err (
  err <- method myArm (fun a => call (MoveToJointPositions a [0; 0; 0; 0; 0; 0]%Q)) ;;
  check err (
  moveThrough myArm navigateWx250sToDuck (
  r <- method myGripper (fun g => call (GripperGrab g)) ;;
  check (snd r) (
  waitOr 1000 (
  moveThrough myArm navigateWx250sFromDuck (
  err <- method myGripper (fun g => call (GripperOpen g)) ;;
  check err (
  waitOr 1000 (
  err <- method myArm (fun a => call (MoveToJointPositions a [-86; 5; 5; 0; 70; 0]%Q)) ;;
  check err (
  err <- method myArm (fun a => call (MoveToJointPositions a [-77; 0; 0; 0; 0; 0]%Q)) ;;
  check err (
  method myArm (fun a => call (MoveToJointPositions a [0; 0; 0; 0; 0; 0]%Q)))))))))))).

(** [for i := 0; i < shakes-1; i++ { ... }]: [n] iterations are left. *)
Fixpoint shake (resetBoard : Board) (n : nat) (fuel : nat)
  (rest : prog (option string)) : prog (option string) :=
  match n with
  | O => rest
  | S n' =>
      err <- CloseBox resetBoard fuel ;;
      check err (
      waitOr 500 (
      err <- OpenBox resetBoard false fuel ;;
      check err (
      waitOr 500 (
      shake resetBoard n' fuel rest))))
  end.

Definition ResetBoxSteps (theRobot : Robot) (shakes : Z) (fuel : nat)
  : prog (option string) :=
  match boards theRobot !! "resetDriveBoard" with
  | None => Ret (Some "robot does not have a resetDriveBoard")
  | Some resetBoard =>
      err <- OpenBox resetBoard true fuel ;;
      check err (
      err <- TiltField resetBoard ;;
      check err (
      waitOr 2000 (
      err <- FlatField resetBoard ;;
      check err (
      shake resetBoard (Z.to_nat (Wx250s.wrap64 (shakes - 1))) fuel (
      err <- CloseBox resetBoard fuel ;;
      check err (
      waitOr 500 (
      err <- OpenBox resetBoard true fuel ;;
      check err (
      ReplaceObject theRobot))))))))
  end.

Definition ResetBox (theRobot : Robot) (fuel : nat) : prog unit :=
  err <- ResetBoxSteps theRobot 4 fuel ;;
  match err with
  | Some e => call (Errorf ("error resetting box: " +:+ e))
  | None => Ret tt
  end.

(** The joint positions [ReplaceObject] sends the arm through. *)
Definition trajectory : list (list Q) :=
  ([[0; 0; 0; 0; 0; 0]] ++ navigateWx250sToDuck ++ navigateWx250sFromDuck
   ++ [[-86; 5; 5; 0; 70; 0]; [-77; 0; 0; 0; 0; 0]; [0; 0; 0; 0; 0; 0]])%Q%list.

(** The joint positions an operation sends the arm to, and whether an
    operation starts the closing of the box. *)
Definition degreesOf (o : Op) : option (list Q) :=
  match o with MoveToJointPositions _ degrees => Some degrees | _ => None end.

Definition startsClosing (o : Op) : bool :=
  match o with ServoMove _ 110 => true | _ => false end.

(** Every operation but the reads of a limit switch. *)
Definition notPoll (o : Op) : bool :=
  match o with InterruptValue _ => false | _ => true end.

(** Every run of [p] that returns nil has issued, reads of the limit
    switches aside, exactly the operations [script], in this order. *)
Definition completes {W : Type} (respond : W -> forall o : Op, reply o * W)
  (p : prog (option string)) (script : list Op) : Prop :=
  forall w tr w',
    run respond p w = (tr, Returned None, w') ->
    List.filter notPoll tr = script.

(** What opening and closing the box consist of. *)
Definition opening (s : Servo) (gentle : bool) : list Op :=
  ((if gentle then [ServoMove s 100; SelectContextOrWait 300] else [])
     ++ [ServoMove s 70; ServoMove s 90])%list.

Definition closing (s : Servo) : list Op := [ServoMove s 110; ServoMove s 90].

Definition replacing (a : Arm) (g : Gripper) : list Op :=
  ([GripperOpen g; MoveToJointPositions a [0; 0; 0; 0; 0; 0]%Q]
     ++ map (MoveToJointPositions a) navigateWx250sToDuck
     ++ [GripperGrab g; SelectContextOrWait 1000]
     ++ map (MoveToJointPositions a) navigateWx250sFromDuck
     ++ [GripperOpen g; SelectContextOrWait 1000;
         MoveToJointPositions a [-86; 5; 5; 0; 70; 0]%Q;
         MoveToJointPositions a [-77; 0; 0; 0; 0; 0]%Q;
         MoveToJointPositions a [0; 0; 0; 0; 0; 0]%Q])%list.

Definition shaking (s : Servo) (n : nat) : list Op :=
  concat (replicate n (closing s ++ [SelectContextOrWait 500]
                         ++ opening s false ++ [SelectContextOrWait 500])%list).

Definition resetting (s t : Servo) (a : Arm) (g : Gripper) (shakes : Z)
  : list Op :=
  (opening s true
     ++ [ServoMove t 70; SelectContextOrWait 2000; ServoMove t 32]
     ++ shaking s (Z.to_nat (shakes - 1))
     ++ closing s ++ [SelectContextOrWait 500]
     ++ opening s true
     ++ replacing a g)%list.

(** A robot with the reset board, the arm and the gripper, and devices
    that obey: a limit switch changes its value at every read. *)
Definition exampleBoard : Board :=
  mkBoard (list_to_map [("open", 1%nat); ("closed", 2%nat)])
          (list_to_map [("shake", 3%nat); ("tilt", 4%nat)]).

Definition exampleRobot : Robot :=
  mkRobot {["resetDriveBoard" := exampleBoard]} {["pieceArm" := 5%nat]}
          {["pieceGripper" := 6%nat]}.

Definition smooth (n : Z) (o : Op) : reply o * Z :=
  match o return reply o * Z with
  | InterruptValue _ => (n, (n + 1)%Z)
  | ServoMove _ _ | GripperOpen _ | MoveToJointPositions _ _ => (None, n)
  | CtxErr => (Some "context canceled", n)
  | SelectContextOrWait _ => (true, n)
  | GripperGrab _ => ((true, None), n)
  | Errorf _ => (tt, n)
  end.

End ResetBox.


(* ===================================================================== *)
(** * The lidar viewer (cmd/lidar_view, package main) *)
(* ===================================================================== *)

Module LidarView.

(** [strconv.ParseInt(s, 10, bitSize)]: an optional sign and decimal
    digits denoting a value that fits [bitSize] bits; [None] is a
    non-nil error. *)
Definition ParseInt (s : string) (bitSize : Z) : option Z :=
  let '(neg, body) :=
    match s with
    | String.String c rest =>
        let n := Z.of_nat (Ascii.nat_of_ascii c) in
        if (n =? 45)%Z then (true, rest)            (* '-' *)
        else if (n =? 43)%Z then (false, rest)      (* '+' *)
        else (false, s)
    | String.EmptyString => (false, s)
    end in
  match body with
  | String.EmptyString => None
  | _ =>
      match Wx250sSetup.digits body 0 with
      | Some n =>
          let v := (if neg then - n else n)%Z in
          if ((- 2 ^ (bitSize - 1) <=? v) && (v <? 2 ^ (bitSize - 1)))%Z
          then Some v else None
      | None => None
      end
  end.

(** [strings.Split(s, ":")] *)
Fixpoint Split (s : string) : list string :=
  match s with
  | String.EmptyString => [String.EmptyString]
  | String.String c rest =>
      if (Z.of_nat (Ascii.nat_of_ascii c) =? 58)%Z      (* ':' *)
      then String.EmptyString :: Split rest
      else match Split rest with
           | part :: parts => String.String c part :: parts
           | [] => [String.String c String.EmptyString]
           end
  end.

Inductive DeviceType : Type :=
| DeviceTypeFake
| DeviceTypeWS
| DeviceTypeOther (name : string).

(** [lidar.DeviceDescription] *)
Record DeviceDescription : Type := mkDesc {
  Type_ : DeviceType;
  Path : string;
  Host : string;
  Port : Z
}.

Definition fakeDev : string := "fake".

(** [fmt.Sprintf("%d", i)] *)
Definition Sprintf_d (i : nat) : string := pretty i.

(** The loop of [main] over the device flags. *)
Fixpoint fromFlags (i : nat) (addressFlags : list string)
  (deviceDescs : list DeviceDescription) : list DeviceDescription :=
  match addressFlags with
  | [] => deviceDescs
  | address :: rest =>
      match Split address with
      | [host; portStr] =>
          match ParseInt portStr 64 with
          | None => fromFlags (S i) rest deviceDescs
          | Some port =>
              if String.eqb address fakeDev
              then fromFlags (S i) rest
                     (deviceDescs ++ [mkDesc DeviceTypeFake (Sprintf_d i) "" 0])%list
              else fromFlags (S i) rest
                     (deviceDescs ++ [mkDesc DeviceTypeWS "" host port])%list
          end
      | _ => fromFlags (S i) rest deviceDescs
      end
  end.

(** The device descriptions [main] ends up with, given what
    [search.Devices] found. *)
Definition devices (found : list DeviceDescription) (addressFlags : list string)
  : list DeviceDescription :=
  let deviceDescs :=
    match found with
    | [] => [mkDesc DeviceTypeFake "0" "" 0]
    | _ => found
    end in
  match addressFlags with
  | [] => deviceDescs
  | _ => fromFlags 0 addressFlags []
  end.

(** How [main] goes on after its set-up. *)
Inductive outcome : Type :=
| Fatal                                    (* golog.Global.Fatal(err) *)
| UsageExit                                (* flag.Usage(); os.Exit(1) *)
| ViewLidar (port : Z) (deviceDescs : list DeviceDescription)
            (saveToDisk : string).

(** [flag.Arg(i)]: the empty string when there is no such argument. *)
Definition Arg (args : list string) (i : nat) : string :=
  default String.EmptyString (args !! i).

(** [main] up to its call of [viewLidar]; [args] are the arguments
    left after the flags, [found] is what [search.Devices] returns. *)
Definition main (addressFlags : list string) (saveToDisk : string)
  (args : list string) (found : list DeviceDescription) : outcome :=
  let port :=
    if (1 <=? length args)%nat
    then ParseInt (Arg args 1) 32
    else Some 5555%Z in
  match port with
  | None => Fatal
  | Some port =>
      match devices found addressFlags with
      | [] => UsageExit
      | deviceDescs => ViewLidar port deviceDescs saveToDisk
      end
  end.

(** [math.MaxFloat64] *)
Definition MaxFloat64 : Q := inject_Z (2 ^ 1024 - 2 ^ 971).

(** The loop of [viewLidar] that looks for the device with the best
    angular resolution; [answers] is what [AngularResolution] returns
    for the devices, in order.  Floating-point numbers are carried as
    exact rationals. *)
Fixpoint bestFrom (answers : list (Q * option string)) (i : nat)
  (bestResolution : Q) (bestResolutionDeviceNum : nat) : Q * nat + string :=
  match answers with
  | [] => inl (bestResolution, bestResolutionDeviceNum)
  | (angRes, err) :: rest =>
      match err with
      | Some e => inr e
      | None =>
          if Minirover.Qlt_bool angRes bestResolution
          then bestFrom rest (S i) angRes i
          else bestFrom rest (S i) bestResolution bestResolutionDeviceNum
      end
  end.

Definition best (answers : list (Q * option string)) : Q * nat + string :=
  bestFrom answers 0 MaxFloat64 0.

(** What a flag contributes when it has the form host:port. *)
Definition fromFlag (address : string) : option DeviceDescription :=
  match Split address with
  | [host; portStr] =>
      port ← ParseInt portStr 64; Some (mkDesc DeviceTypeWS "" host port)
  | _ => None
  end.

End LidarView.


(* ===================================================================== *)
(** * The arm client (components/arm/client.go) *)
(* ===================================================================== *)

Module ArmClient.

Section Client.
(** The data the client passes on without looking into it, and the
    conversions of the libraries it calls. *)
Context {Extra Struct Pose PosePb WorldState WorldStateMsg : Type}.
Context {Model Input JointPositions Config : Type}.
Variable StructToStructPb : option Extra -> Struct + string.
Variable WorldStateToProtobuf : WorldState -> WorldStateMsg + string.
Variable PoseToProtobuf : Pose -> PosePb.
Variable NewPoseFromProtobuf : PosePb -> Pose.
Variable InputFromProtobuf : Model -> JointPositions -> list Input.
Variable ProtobufFromInput : Model -> list Input -> JointPositions.
Variable GetName : Config -> string.
(** [config.ProtobufToFrameSystemPart(cfg)], and of the part it yields
    the field [ModelFrame], which may be nil. *)
Variable ProtobufToFrameSystemPart : Config -> option Model + string.

(** The calls to the server. *)
Inductive Op : Type :=
| GetEndPosition (Name : string) (ext : Struct)
| RpcMoveToPosition (Name : string) (To : PosePb) (ws : WorldStateMsg) (ext : Struct)
| RpcMoveToJointPositions (Name : string) (Positions : JointPositions) (ext : Struct)
| GetJointPositions (Name : string) (ext : Struct)
| RpcStop (Name : string) (ext : Struct)
| FrameSystemConfig.

Definition reply (o : Op) : Type :=
  match o with
  | GetEndPosition _ _ => (PosePb + string)%type
  | RpcMoveToPosition _ _ _ _ | RpcMoveToJointPositions _ _ _ | RpcStop _ _ =>
      option string
  | GetJointPositions _ _ => (JointPositions + string)%type
  | FrameSystemConfig => (list Config + string)%type
  end.

Definition call (o : Op) : Prog.prog Op reply (reply o) := trigger o.

(** [type client struct]; [model] may be nil. *)
Record client : Type := mkClient { name : string; model : option Model }.

Definition errArmClientModelNotValid : string :=
  "unable to retrieve a valid arm model from arm client".

(** The loop of [getModel] over the configurations. *)
Fixpoint firstNamed (cfgs : list Config) (name' : string) : option Model :=
  match cfgs with
  | [] => None
  | cfg :: rest =>
      if String.eqb (GetName cfg) name'
      then match ProtobufToFrameSystemPart cfg with
           | inl modelFrame => modelFrame
           | inr _ => None
           end
      else firstNamed rest name'
  end.

Definition getModel (name' : string) : Prog.prog Op reply (option Model) :=
  r <- call FrameSystemConfig ;;
  match r with
  | inr _ => Ret None
  | inl cfgs => Ret (firstNamed cfgs name')
  end.

Definition NewClientFromConn (name' : string) : Prog.prog Op reply client :=
  m <- getModel name' ;;
  Ret (mkClient name' m).

(** A result with an error is Go's pair of a value and an error that
    is not nil. *)
Definition EndPosition (c : client) (extra : option Extra)
  : Prog.prog Op reply (Pose + string) :=
  match StructToStructPb extra with
  | inr err => Ret (inr err)
  | inl ext =>
      r <- call (GetEndPosition (name c) ext) ;;
      match r with
      | inr err => Ret (inr err)
      | inl pose => Ret (inl (NewPoseFromProtobuf pose))
      end
  end.

Definition MoveToPosition (c : client) (pose : Pose) (worldState : WorldState)
  (extra : option Extra) : Prog.prog Op reply (option string) :=
  match StructToStructPb extra with
  | inr err => Ret (Some err)
  | inl ext =>
      match WorldStateToProtobuf worldState with
      | inr err => Ret (Some err)
      | inl worldStateMsg =>
          call (RpcMoveToPosition (name c) (PoseToProtobuf pose) worldStateMsg ext)
      end
  end.

Definition MoveToJointPositions (c : client) (positions : JointPositions)
  (extra : option Extra) : Prog.prog Op reply (option string) :=
  match StructToStructPb extra with
  | inr err => Ret (Some err)
  | inl ext => call (RpcMoveToJointPositions (name c) positions ext)
  end.

(** The method [JointPositions]. *)
Definition JointPositionsOf (c : client) (extra : option Extra)
  : Prog.prog Op reply (JointPositions + string) :=
  match StructToStructPb extra with
  | inr err => Ret (inr err)
  | inl ext => call (GetJointPositions (name c) ext)
  end.

Definition Stop (c : client) (extra : option Extra)
  : Prog.prog Op reply (option string) :=
  match StructToStructPb extra with
  | inr err => Ret (Some err)
  | inl ext => call (RpcStop (name c) ext)
  end.

Definition ModelFrame (c : client) : option Model := model c.

Definition CurrentInputs (c : client)
  : Prog.prog Op reply (list Input + string) :=
  r <- JointPositionsOf c None ;;
  match r with
  | inr err => Ret (inr err)
  | inl resp =>
      match model c with
      | None => Ret (inr errArmClientModelNotValid)
      | Some m => Ret (inl (InputFromProtobuf m resp))
      end
  end.

Definition GoToInputs (c : client) (goal : list Input)
  : Prog.prog Op reply (option string) :=
  match model c with
  | None => Ret (Some errArmClientModelNotValid)
  | Some m => MoveToJointPositions c (ProtobufFromInput m goal) None
  end.

End Client.

End ArmClient.


(* ===================================================================== *)
(** * The serial NMEA GPS (sensor/gps/nmea/serial.go) *)
(* ===================================================================== *)

Module NMEA.

(** [geo.Point]; coordinates are carried, never computed with. *)
Record Point : Type := NewPoint { Lat : Q; Lng : Q }.

(** What [nmea.Parse] yields, as far as this sensor looks at it. *)
Record GLL : Type := mkGLL { Latitude : Q; Longitude : Q }.

Inductive Sentence : Type :=
| SentenceGLL (gll : GLL)
| SentenceOther.

Definition toPoint (a : GLL) : Point := NewPoint (Latitude a) (Longitude a).

(** The mutable part of [serialNMEAGPS]; [None] is the nil pointer. *)
Record serialNMEAGPS : Type := mkGPS { lastLocation : option Point }.

(** The sensor as [newSerialNMEAGPS] leaves it. *)
Definition newSerialNMEAGPS : serialNMEAGPS := mkGPS None.

(** A call that either returns or panics. *)
Inductive go (A : Type) : Type :=
| Return (a : A)
| Panics (msg : string).

Arguments Return {A} a.
Arguments Panics {A} msg.

(** What one turn of the reader loop meets: whether the context is
    cancelled, and what [r.ReadString] hands back. *)
Record turn : Type := mkTurn {
  cancelled : bool;
  line : string;
  readErr : option string
}.

(** Where the reader goroutine stands after the turns it was given. *)
Inductive status : Type :=
| Listening                  (* still in the loop *)
| Stopped                    (* left the loop on cancellation *)
| Exited (msg : string).     (* logger.Fatalf ended the process *)

Section Reader.
(** [nmea.Parse] of the go-nmea library. *)
Variable Parse : string -> Sentence + string.

(** The body of the goroutine started by [Start]: the sensor after
    the given turns, the debug log and the status. *)
Fixpoint Start (g : serialNMEAGPS) (turns : list turn)
  : serialNMEAGPS * list string * status :=
  match turns with
  | [] => (g, [], Listening)
  | t :: rest =>
      if cancelled t then (g, [], Stopped)
      else
        match readErr t with
        | Some e => (g, [], Exited ("can't read gps serial " +:+ e))
        | None =>
            match Parse (line t) with
            | inr e =>
                let '(g', log, st) := Start g rest in
                (g', ("can't parse nmea " +:+ line t +:+ " : " +:+ e) :: log, st)
            | inl (SentenceGLL gll) => Start (mkGPS (Some (toPoint gll))) rest
            | inl SentenceOther => Start g rest
            end
        end
  end.
End Reader.

(** The turns the reader goes through before it leaves the loop: those
    ahead of the first cancellation or read error. *)
Fixpoint processed (turns : list turn) : list turn :=
  match turns with
  | [] => []
  | t :: rest =>
      if cancelled t then []
      else match readErr t with
           | Some _ => []
           | None => t :: processed rest
           end
  end.

(** The position a line carries, if it is a GLL sentence, and the
    debug line it causes, if it is rejected. *)
Definition fixOf (Parse : string -> Sentence + string) (t : turn)
  : option Point :=
  match Parse (line t) with
  | inl (SentenceGLL gll) => Some (toPoint gll)
  | _ => None
  end.

Definition rejectionOf (Parse : string -> Sentence + string) (t : turn)
  : option string :=
  match Parse (line t) with
  | inr e => Some ("can't parse nmea " +:+ line t +:+ " : " +:+ e)
  | inl _ => None
  end.

(** [g.lastLocation.Lat()] dereferences the pointer. *)
Definition Location (g : serialNMEAGPS) : go (Q * Q * option string) :=
  match lastLocation g with
  | None => Panics "invalid memory address or nil pointer dereference"
  | Some p => Return (Lat p, Lng p, None)
  end.

Definition Readings (g : serialNMEAGPS) : go (option (list Q) * option string) :=
  match Location g with
  | Panics m => Panics m
  | Return (_, _, Some e) => Return (None, Some e)
  | Return (lat, long, None) => Return (Some [lat; long], None)
  end.

(** The parser of the examples: a line starting with "$GPGLL" is a GLL
    sentence at (40.7, -74), "$GPGGA" is another sentence, anything else
    is rejected. *)
Definition exampleParse (l : string) : Sentence + string :=
  if String.prefix "$GPGLL" l then inl (SentenceGLL (mkGLL 40.7 (-74)))
  else if String.prefix "$GPGGA" l then inl SentenceOther
  else inr "nmea: sentence does not start with a '$' or '!'".

End NMEA.

(* ===================================================================== *)
(** * The board service server (component/board gRPC server) *)
(* ===================================================================== *)

Module Board.

(** [pb.BoardStatus]. *)
Record BoardStatus : Type := mkStatus {
  analogsStatus : gmap string Z;
  digitalInterruptsStatus : gmap string Z
}.

(** A [Board]: the device it drives and the analog readers and digital
    interrupts it knows by name. *)
Record Board : Type := mkBoard {
  device : nat;
  analogReaders : gmap string nat;
  digitalInterrupts : gmap string nat
}.

(** What the registry may hold under a name. *)
Inductive Resource : Type :=
| ResourceBoard (b : Board)
| ResourceOther (kind : string).

(** Modelled from the spec: [subtype.Service], the resource registry of
    the server; [Resource(name)] is a lookup by name that yields nil
    (here [None]) rather than failing when the name is absent. *)
Record subtypeServer : Type := NewServer { s : gmap string Resource }.

(** The hardware operations behind the [Board] interface. *)
Inductive Op : Type :=
| BoardStatusOf (dev : nat)
| BoardSetGPIO (dev : nat) (pin : string) (high : bool)
| BoardGetGPIO (dev : nat) (pin : string)
| BoardSetPWM (dev : nat) (pin : string) (dutyCyclePct : Q)
| BoardSetPWMFreq (dev : nat) (pin : string) (freq : Z)
| AnalogRead (reader : nat)
| InterruptValue (interrupt : nat).

Definition reply (o : Op) : Type :=
  match o with
  | BoardStatusOf _ => (BoardStatus * option string)%type
  | BoardSetGPIO _ _ _ | BoardSetPWM _ _ _ | BoardSetPWMFreq _ _ _ =>
      option string
  | BoardGetGPIO _ _ => (bool * option string)%type
  | AnalogRead _ | InterruptValue _ => (Z * option string)%type
  end.

Abbreviation prog := (Prog.prog Op reply).

Definition getBoard (srv : subtypeServer) (name : string) : Board + string :=
  match s srv !! name with
  | None => inr ("no board with name (" +:+ name +:+ ")")
  | Some (ResourceBoard board) => inl board
  | Some (ResourceOther _) =>
      inr ("resource with name (" +:+ name +:+ ") is not a board")
  end.

Inductive Request : Type :=
| StatusRequest (Name : string)
| SetGPIORequest (Name Pin : string) (High : bool)
| GetGPIORequest (Name Pin : string)
| SetPWMRequest (Name Pin : string) (DutyCyclePct : Q)
| SetPWMFrequencyRequest (Name Pin : string) (FrequencyHz : Z)
| ReadAnalogReaderRequest (BoardName AnalogReaderName : string)
| GetDigitalInterruptValueRequest (BoardName DigitalInterruptName : string).

Inductive Response : Type :=
| StatusResponse (Status : BoardStatus)
| SetGPIOResponse
| GetGPIOResponse (High : bool)
| SetPWMResponse
| SetPWMFrequencyResponse
| ReadAnalogReaderResponse (Value : Z)
| GetDigitalInterruptValueResponse (Value : Z).

(** Go's [int32(val)]. *)
Definition wrap32 (z : Z) : Z := (z + 2 ^ 31) mod 2 ^ 32 - 2 ^ 31.

(** Every handler returns Go's [(response, error)]. *)
Definition Status (srv : subtypeServer) (Name : string)
  : prog (option Response * option string) :=
  match getBoard srv Name with
  | inr e => Ret (None, Some e)
  | inl b =>
      r <- trigger (BoardStatusOf (device b)) ;;
      match r with
      | (_, Some e) => Ret (None, Some e)
      | (status, None) => Ret (Some (StatusResponse status), None)
      end
  end.

Definition SetGPIO (srv : subtypeServer) (Name Pin : string) (High : bool)
  : prog (option Response * option string) :=
  match getBoard srv Name with
  | inr e => Ret (None, Some e)
  | inl b =>
      r <- trigger (BoardSetGPIO (device b) Pin High) ;;
      Ret (Some SetGPIOResponse, r)
  end.

Definition GetGPIO (srv : subtypeServer) (Name Pin : string)
  : prog (option Response * option string) :=
  match getBoard srv Name with
  | inr e => Ret (None, Some e)
  | inl b =>
      r <- trigger (BoardGetGPIO (device b) Pin) ;;
      match r with
      | (_, Some e) => Ret (None, Some e)
      | (high, None) => Ret (Some (GetGPIOResponse high), None)
      end
  end.

Definition SetPWM (srv : subtypeServer) (Name Pin : string) (DutyCyclePct : Q)
  : prog (option Response * option string) :=
  match getBoard srv Name with
  | inr e => Ret (None, Some e)
  | inl b =>
      r <- trigger (BoardSetPWM (device b) Pin DutyCyclePct) ;;
      Ret (Some SetPWMResponse, r)
  end.

Definition SetPWMFrequency (srv : subtypeServer) (Name Pin : string)
  (FrequencyHz : Z) : prog (option Response * option string) :=
  match getBoard srv Name with
  | inr e => Ret (None, Some e)
  | inl b =>
      r <- trigger (BoardSetPWMFreq (device b) Pin FrequencyHz) ;;
      Ret (Some SetPWMFrequencyResponse, r)
  end.

Definition ReadAnalogReader (srv : subtypeServer)
  (BoardName AnalogReaderName : string)
  : prog (option Response * option string) :=
  match getBoard srv BoardName with
  | inr e => Ret (None, Some e)
  | inl b =>
      match analogReaders b !! AnalogReaderName with
      | None => Ret (None, Some ("unknown analog reader: " +:+ AnalogReaderName))
      | Some theReader =>
          r <- trigger (AnalogRead theReader) ;;
          match r with
          | (_, Some e) => Ret (None, Some e)
          | (val, None) => Ret (Some (ReadAnalogReaderResponse (wrap32 val)), None)
          end
      end
  end.

Definition GetDigitalInterruptValue (srv : subtypeServer)
  (BoardName DigitalInterruptName : string)
  : prog (option Response * option string) :=
  match getBoard srv BoardName with
  | inr e => Ret (None, Some e)
  | inl b =>
      match digitalInterrupts b !! DigitalInterruptName with
      | None =>
          Ret (None, Some ("unknown digital interrupt: " +:+ DigitalInterruptName))
      | Some interrupt =>
          r <- trigger (InterruptValue interrupt) ;;
          match r with
          | (_, Some e) => Ret (None, Some e)
          | (val, None) => Ret (Some (GetDigitalInterruptValueResponse val), None)
          end
      end
  end.

(** The server's dispatch of a request to its handler. *)
Definition serve (srv : subtypeServer) (req : Request)
  : prog (option Response * option string) :=
  match req with
  | StatusRequest n => Status srv n
  | SetGPIORequest n pin high => SetGPIO srv n pin high
  | GetGPIORequest n pin => GetGPIO srv n pin
  | SetPWMRequest n pin duty => SetPWM srv n pin duty
  | SetPWMFrequencyRequest n pin hz => SetPWMFrequency srv n pin hz
  | ReadAnalogReaderRequest n reader => ReadAnalogReader srv n reader
  | GetDigitalInterruptValueRequest n i => GetDigitalInterruptValue srv n i
  end.

(** The board a request names. *)
Definition boardName (req : Request) : string :=
  match req with
  | StatusRequest n | SetGPIORequest n _ _ | GetGPIORequest n _
  | SetPWMRequest n _ _ | SetPWMFrequencyRequest n _ _
  | ReadAnalogReaderRequest n _ | GetDigitalInterruptValueRequest n _ => n
  end.

(** A registry holding the board [pi], with one analog reader, and a
    camera. *)
Definition exampleServer : subtypeServer :=
  NewServer (<["pi" := ResourceBoard (mkBoard 0 {["current" := 7%nat]} ∅)]>
             (<["cam" := ResourceOther "camera"]> ∅)).

(** Hardware on which every board operation succeeds; the analog
    reader reads 2^31 + 5. *)
Definition working (w : unit) (o : Op) : reply o * unit :=
  (match o return reply o with
   | BoardStatusOf _ => (mkStatus ∅ ∅, None)
   | BoardSetGPIO _ _ _ | BoardSetPWM _ _ _ | BoardSetPWMFreq _ _ _ => None
   | BoardGetGPIO _ _ => (true, None)
   | AnalogRead _ => (2 ^ 31 + 5, None)
   | InterruptValue _ => (0, None)
   end, w).

End Board.

(* ===================================================================== *)
(** * Poses, frames and the frame system *)
(* ===================================================================== *)

Module Frames.

Local Open Scope Q_scope.

(** Modelled from the spec: the pose primitives (spatialmath), which are
    not among the sources.  A position is three coordinates in
    millimetres, an orientation a rotation matrix; coordinates are exact
    rationals. *)
Record Vector : Type := mkVector { X : Q; Y : Q; Zc : Q }.

(** Modelled from the spec: an orientation as the three rows of a
    rotation matrix ("any internally consistent representation"). *)
Record Rotation : Type := mkRotation { row1 : Vector; row2 : Vector; row3 : Vector }.

(** Modelled from the spec: Pose = position + orientation. *)
Record Pose : Type := mkPose { Point : Vector; Orientation : Rotation }.

(** Modelled from the spec: vector arithmetic of the pose primitives. *)
Definition vadd (u v : Vector) : Vector :=
  mkVector (X u + X v) (Y u + Y v) (Zc u + Zc v).

(** Modelled from the spec: the opposite vector. *)
Definition vneg (u : Vector) : Vector := mkVector (- X u) (- Y u) (- Zc u).

(** Modelled from the spec: the scalar product. *)
Definition dot (u v : Vector) : Q := X u * X v + Y u * Y v + Zc u * Zc v.

(** Modelled from the spec: [Transform(p, point)] for the orientation
    part, matrix times vector. *)
Definition rotate (r : Rotation) (v : Vector) : Vector :=
  mkVector (dot (row1 r) v) (dot (row2 r) v) (dot (row3 r) v).

(** Modelled from the spec: the transpose of a rotation matrix. *)
Definition transpose (r : Rotation) : Rotation :=
  mkRotation (mkVector (X (row1 r)) (X (row2 r)) (X (row3 r)))
             (mkVector (Y (row1 r)) (Y (row2 r)) (Y (row3 r)))
             (mkVector (Zc (row1 r)) (Zc (row2 r)) (Zc (row3 r))).

(** Modelled from the spec: composition of orientations, the matrix
    product. *)
Definition rmul (a b : Rotation) : Rotation :=
  let bt := transpose b in
  mkRotation
    (mkVector (dot (row1 a) (row1 bt)) (dot (row1 a) (row2 bt)) (dot (row1 a) (row3 bt)))
    (mkVector (dot (row2 a) (row1 bt)) (dot (row2 a) (row2 bt)) (dot (row2 a) (row3 bt)))
    (mkVector (dot (row3 a) (row1 bt)) (dot (row3 a) (row2 bt)) (dot (row3 a) (row3 bt))).

(** Modelled from the spec: the identity orientation. *)
Definition identityRotation : Rotation :=
  mkRotation (mkVector 1 0 0) (mkVector 0 1 0) (mkVector 0 0 1).

(** Modelled from the spec: [NewZeroPose], the identity pose. *)
Definition NewZeroPose : Pose := mkPose (mkVector 0 0 0) identityRotation.

(** Modelled from the spec: [NewPoseFromPoint], a pure translation. *)
Definition NewPoseFromPoint (v : Vector) : Pose := mkPose v identityRotation.

(** Modelled from the spec: [Compose(a, b)] applies [b] in [a]'s frame. *)
Definition Compose (a b : Pose) : Pose :=
  mkPose (vadd (Point a) (rotate (Orientation a) (Point b)))
         (rmul (Orientation a) (Orientation b)).

(** Modelled from the spec: [Invert(p)]; the inverse of a normalized
    orientation is its transpose. *)
Definition Invert (p : Pose) : Pose :=
  let rt := transpose (Orientation p) in
  mkPose (vneg (rotate rt (Point p))) rt.

(** Poses are compared coordinate by coordinate, as rationals. *)
Definition Vector_eq (u v : Vector) : Prop :=
  X u == X v /\ Y u == Y v /\ Zc u == Zc v.

(** Rotations with equal entries. *)
Definition Rotation_eq (a b : Rotation) : Prop :=
  Vector_eq (row1 a) (row1 b) /\ Vector_eq (row2 a) (row2 b)
  /\ Vector_eq (row3 a) (row3 b).

(** Poses with equal position and orientation. *)
Definition Pose_eq (p q : Pose) : Prop :=
  Vector_eq (Point p) (Point q) /\ Rotation_eq (Orientation p) (Orientation q).

(** Modelled from the spec: the typed errors of section 7. *)
Inductive Error : Type :=
| UnknownParent (frame parent : string)
| FrameNotFound (frame : string)
| MissingInputs (frame : string)
| InputOutOfBounds (frame : string)
| MissingParentError (frame missingParent : string)
| ComponentNotFound (component : string)
| NotMovable (component : string)
| NoSolutionFound
| Infeasible
| HardwareError (msg : string).

(** Modelled from the spec: every operation returns a value or a typed
    error. *)
Inductive result (A : Type) : Type :=
| Ok (a : A)
| Err (e : Error).

Arguments Ok {A} a.
Arguments Err {A} e.

(** Modelled from the spec: a Frame is a unique name, the name of its
    parent, per-DoF bounds and a transform function from input values to
    a pose relative to the parent; no bounds means a static frame. *)
Record Frame : Type := mkFrame {
  name : string;
  parent : string;
  dofBounds : list (Q * Q);
  transform : list Q -> Pose
}.

(** Modelled from the spec: the well-known root of every frame system. *)
Definition World : string := "world".

(** Modelled from the spec: a Frame System is a tree of frames rooted at
    [World], kept here with the most recently inserted frame first, so
    that a frame's parent is found further down the list. *)
Definition FrameSystem : Type := list Frame.

(** Modelled from the spec: a name resolves when it is [World] or the
    name of a frame of the system. *)
Definition hasFrame (fs : FrameSystem) (n : string) : bool :=
  String.eqb n World || existsb (fun f => String.eqb (name f) n) fs.

(** Modelled from the spec: [AddFrame] fails with [UnknownParent] when
    the parent is not yet present. *)
Definition AddFrame (fs : FrameSystem) (f : Frame) : result FrameSystem :=
  if hasFrame fs (parent f) then Ok (f :: fs)
  else Err (UnknownParent (name f) (parent f)).

(** Modelled from the spec: [FrameNames], in insertion order. *)
Definition FrameNames (fs : FrameSystem) : list string := rev (map name fs).

(** Modelled from the spec: the invariant of a Frame System, every
    frame's parent was present when the frame was inserted. *)
Fixpoint wellFormed (fs : FrameSystem) : bool :=
  match fs with
  | [] => true
  | f :: rest => hasFrame rest (parent f) && wellFormed rest
  end.

(** Modelled from the spec: the parent-chain walk from frame [n] up to
    [World]: the frames met, nearest first; [None] when the walk ends
    at a name that is not in the system. *)
Fixpoint chain (fs : FrameSystem) (n : string) : option (list Frame) :=
  if String.eqb n World then Some []
  else
    match fs with
    | [] => None
    | f :: rest =>
        if String.eqb (name f) n
        then match chain rest (parent f) with
             | Some c => Some (f :: c)
             | None => None
             end
        else chain rest n
    end.

(** Modelled from the spec: the nearest common ancestor; two chains
    written root first lose their common ancestors. *)
Fixpoint dropShared (a b : list Frame) : list Frame * list Frame :=
  match a, b with
  | f :: a', g :: b' =>
      if String.eqb (name f) (name g) then dropShared a' b' else (a, b)
  | _, _ => (a, b)
  end.

(** Modelled from the spec: the two legs of the path between a source
    and a destination chain, up to their nearest common ancestor, each
    nearest-to-its-end first. *)
Definition legs (up down : list Frame) : list Frame * list Frame :=
  let '(u, d) := dropShared (rev up) (rev down) in (rev u, rev d).

(** Modelled from the spec: every input lies within its DoF bounds. *)
Definition inBounds (bounds : list (Q * Q)) (inputs : list Q) : bool :=
  forallb (fun '((lo, hi), v) => Qle_bool lo v && Qle_bool v hi)
          (combine bounds inputs).

(** Modelled from the spec: the pose of a frame relative to its parent
    under the given inputs; [MissingInputs] when an articulated frame
    has no entry (or one of the wrong length), [InputOutOfBounds] when
    an input violates the frame's bounds. *)
Definition poseOf (inputsByFrame : gmap string (list Q)) (f : Frame)
  : result Pose :=
  match dofBounds f with
  | [] => Ok (transform f [])
  | bounds =>
      match inputsByFrame !! name f with
      | None => Err (MissingInputs (name f))
      | Some inputs =>
          if negb (length inputs =? length bounds)%nat
          then Err (MissingInputs (name f))
          else if inBounds bounds inputs then Ok (transform f inputs)
          else Err (InputOutOfBounds (name f))
      end
  end.

(** Modelled from the spec: composition along a leg; the pose, in the
    frame above the last frame of the leg, of a pose given in the first
    frame of the leg. *)
Fixpoint climb (inputsByFrame : gmap string (list Q)) (leg : list Frame)
  (p : Pose) : result Pose :=
  match leg with
  | [] => Ok p
  | f :: rest =>
      match poseOf inputsByFrame f with
      | Err e => Err e
      | Ok t => climb inputsByFrame rest (Compose t p)
      end
  end.

(** Modelled from the spec: [TransformFrame] walks from the source up
    to the nearest common ancestor and back down to the destination,
    composing poses and inverting for the downward leg; the upward leg
    is composed first. *)
Definition TransformFrame (fs : FrameSystem)
  (inputsByFrame : gmap string (list Q)) (p : Pose)
  (sourceFrameName destFrameName : string) : result Pose :=
  if negb (hasFrame fs sourceFrameName) then Err (FrameNotFound sourceFrameName)
  else if negb (hasFrame fs destFrameName) then Err (FrameNotFound destFrameName)
  else
    match chain fs sourceFrameName, chain fs destFrameName with
    | Some up, Some down =>
        let '(upLeg, downLeg) := legs up down in
        match climb inputsByFrame upLeg p with
        | Err e => Err e
        | Ok inAncestor =>
            match climb inputsByFrame downLeg NewZeroPose with
            | Err e => Err e
            | Ok destInAncestor => Ok (Compose (Invert destInAncestor) inAncestor)
            end
        end
    | None, _ => Err (FrameNotFound sourceFrameName)
    | _, None => Err (FrameNotFound destFrameName)
    end.

(** ** World state *)

(** Modelled from the spec: a supplemental transform declares its own
    name, the name of its parent frame and a pose
    ([NewNamedPoseInFrame parent pose name]). *)
Record Transform : Type := NewNamedPoseInFrame {
  tParent : string;
  tPose : Pose;
  tName : string
}.

(** Modelled from the spec: an obstacle geometry anchored to a frame. *)
Record Geometry : Type := mkGeometry {
  gFrame : string;
  gCenter : Pose;
  gDims : Vector
}.

(** Modelled from the spec: a World State is an ordered set of obstacle
    geometries and an ordered set of supplemental transforms. *)
Record WorldState : Type := mkWorldState {
  Obstacles : list Geometry;
  Transforms : list Transform
}.

(** Modelled from the spec: a supplemental transform becomes a zero-DoF
    frame. *)
Definition frameOf (t : Transform) : Frame :=
  mkFrame (tName t) (tParent t) [] (fun _ => tPose t).

(** Modelled from the spec: [MergeInto] inserts the supplemental
    transforms, in their order, into a working copy of the frame
    system; a transform whose parent is neither in the static system
    nor inserted before it rejects the whole world state with
    [MissingParentError]. *)
Fixpoint MergeInto (fs : FrameSystem) (transforms : list Transform)
  : result FrameSystem :=
  match transforms with
  | [] => Ok fs
  | t :: rest =>
      if hasFrame fs (tParent t) then MergeInto (frameOf t :: fs) rest
      else Err (MissingParentError (tName t) (tParent t))
  end.

(** The transform at position [i] of a world state has a parent that
    resolves neither to a frame of the static system nor to a transform
    before it. *)
Definition orphan (static : FrameSystem) (transforms : list Transform)
  (i : nat) (t : Transform) : Prop :=
  transforms !! i = Some t
  /\ hasFrame static (tParent t) = false
  /\ forall j t', (j < i)%nat -> transforms !! j = Some t' ->
                  tName t' <> tParent t.

End Frames.

(* ===================================================================== *)
(** * The motion service *)
(* ===================================================================== *)

Module Motion.

Import Frames.

(** Modelled from the spec: the capabilities a resource declares
    (section 9: kinematic-chain, positionable, stoppable). *)
Inductive Capability : Type := KinematicChain | Positionable | Stoppable.

(** Modelled from the spec: a resource of the registry with its
    declared capability set. *)
Record Component : Type := mkComponent { capabilities : list Capability }.

(** Modelled from the spec: the component exposes a kinematic
    capability (an arm). *)
Definition articulated (c : Component) : bool :=
  existsb (fun k => match k with KinematicChain => true | _ => false end)
          (capabilities c).

(** Modelled from the spec: what the resolver works on during one call:
    the resource registry, the static frame system and the current
    input values of the articulated frames. *)
Record Robot : Type := mkRobot {
  registry : gmap string Component;
  frameSystem : FrameSystem;
  currentInputs : gmap string (list Q)
}.

(** Modelled from the spec: a pose together with the name of the frame
    it is expressed in ([NewPoseInFrame frame pose]). *)
Record PoseInFrame : Type := NewPoseInFrame {
  FrameName : string;
  pose : Pose
}.

(** Modelled from the spec: the command of the Component capability
    interface the resolver issues in its Execute step. *)
Inductive Op : Type :=
| MoveToJointPositions (component : string) (positions : list Q).

(** Modelled from the spec: a command is accepted (nil) or answered
    with a component-specific error. *)
Definition reply (o : Op) : Type := option string.

Abbreviation prog := (Prog.prog Op reply).

(** Modelled from the spec: the solving frame of a component is its own
    base frame, the frame its frame hangs from. *)
Definition solvingFrame (fs : FrameSystem) (componentName : string)
  : result string :=
  match chain fs componentName with
  | Some (f :: _) => Ok (parent f)
  | _ => Err (FrameNotFound componentName)
  end.

(** Modelled from the spec: the nearest frame at or above the component
    that belongs to a resource with a kinematic capability. *)
Definition nearestMover (rg : gmap string Component) (fs : FrameSystem)
  (componentName : string) : option string :=
  match chain fs componentName with
  | Some c =>
      name <$> List.find (fun f =>
                 match rg !! name f with
                 | Some comp => articulated comp
                 | None => false
                 end) c
  | None => None
  end.

Section Service.
(** Modelled from the spec: [Inverse] of the Kinematic Model as a pure
    function of the frame system, the component solved for, the target
    pose in the solving frame, the seed inputs and the obstacles; the
    spec leaves the numerical method open. *)
Variable Inverse :
  FrameSystem -> string -> Pose -> list Q -> list Geometry -> result (list Q).

(** Modelled from the spec: steps 4 and 5 of section 4.5 for the
    component [mover]: solve, then command; a solver error is surfaced
    and nothing is commanded. *)
Definition solveAndCommand (r : Robot) (fs : FrameSystem) (mover : string)
  (target : Pose) (ws : WorldState) : prog (bool * option Error) :=
  let seed := default [] (currentInputs r !! mover) in
  match Inverse fs mover target seed (Obstacles ws) with
  | Err e => Ret (false, Some e)
  | Ok positions =>
      e <- trigger (MoveToJointPositions mover positions) ;;
      match e with
      | Some msg => Ret (false, Some (HardwareError msg))
      | None => Ret (true, None)
      end
  end.

(** Modelled from the spec: steps 1 to 3 of section 4.5: validate the
    component, merge the world state, resolve the target into the
    solving frame. *)
Definition resolve (r : Robot) (componentName : string)
  (destination : PoseInFrame) (transforms : list Transform)
  : result (Component * FrameSystem * Pose) :=
  match registry r !! componentName with
  | None => Err (ComponentNotFound componentName)
  | Some c =>
      match MergeInto (frameSystem r) transforms with
      | Err e => Err e
      | Ok fs =>
          match solvingFrame fs componentName with
          | Err e => Err e
          | Ok base =>
              match TransformFrame fs (currentInputs r) (pose destination)
                      (FrameName destination) base with
              | Err e => Err e
              | Ok target => Ok (c, fs, target)
              end
          end
      end
  end.

(** Modelled from the spec: [Move], the per-call state machine of
    section 4.5. *)
Definition Move (r : Robot) (componentName : string)
  (destination : PoseInFrame) (ws : WorldState)
  : prog (bool * option Error) :=
  match resolve r componentName destination (Transforms ws) with
  | Err e => Ret (false, Some e)
  | Ok (c, fs, target) =>
      if articulated c then solveAndCommand r fs componentName target ws
      else
        match nearestMover (registry r) fs componentName with
        | Some mover => solveAndCommand r fs mover target ws
        | None => Ret (false, Some (NotMovable componentName))
        end
  end.

(** Modelled from the spec: [MoveSingleComponent] is like [Move] but
    refuses to move anything other than the literally named
    articulated component. *)
Definition MoveSingleComponent (r : Robot) (componentName : string)
  (destination : PoseInFrame) (ws : WorldState)
  : prog (bool * option Error) :=
  match resolve r componentName destination (Transforms ws) with
  | Err e => Ret (false, Some e)
  | Ok (c, fs, target) =>
      if articulated c then solveAndCommand r fs componentName target ws
      else Ret (false, Some (NotMovable componentName))
  end.
End Service.

(** Modelled from the spec: [GetPose] is the read-only variant of steps
    1 to 3: the pose of the component's frame in the destination frame;
    an empty destination name means [World]. *)
Definition GetPose (r : Robot) (componentName destinationFrame : string)
  (supplementalTransforms : list Transform) : result PoseInFrame :=
  let dest := if String.eqb destinationFrame "" then World else destinationFrame in
  match registry r !! componentName with
  | None => Err (ComponentNotFound componentName)
  | Some _ =>
      match MergeInto (frameSystem r) supplementalTransforms with
      | Err e => Err e
      | Ok fs =>
          match TransformFrame fs (currentInputs r) NewZeroPose
                  componentName dest with
          | Err e => Err e
          | Ok p => Ok (NewPoseInFrame dest p)
          end
      end
  end.

(** ** Fixtures of the service tests

    The configuration files the tests load (data/arm_gantry.json,
    data/moving_arm.json) are not among the sources. *)

(** A static frame at a fixed offset from its parent. *)
Definition staticFrame (n p : string) (offset : Vector) : Frame :=
  mkFrame n p [] (fun _ => NewPoseFromPoint offset).

(** A resource with a kinematic chain, such as an arm or a gantry. *)
Definition movable : Component := mkComponent [KinematicChain; Positionable; Stoppable].


(** Modelled from the spec: the two-link fixture of section 8,
    [gantry1] offset (1.2, 0, 0) from [World] and [arm1] offset
    (500, 0, 300) in [gantry1]'s frame. *)
Definition armGantry : Robot :=
  mkRobot
    (<["gantry1" := movable]> (<["arm1" := movable]> ∅))
    [ staticFrame "arm1" "gantry1" (mkVector 500 0 300);
      staticFrame "gantry1" World (mkVector 1.2 0 0) ]
    ∅.


(** A quarter turn about the Y axis ([R4AA] with theta = pi/2 and axis
    (0, 1, 0)), as a rotation matrix. *)
Definition quarterTurnY : Rotation :=
  mkRotation (mkVector 0 0 1) (mkVector 0 1 0) (mkVector (-1) 0 0).

(** A solver that answers with its seed; it stands in for the
    unspecified numerical method where an instance is needed. *)
Definition seedSolver (fs : FrameSystem) (component : string) (target : Pose)
  (seed : list Q) (obstacles : list Geometry) : result (list Q) := Ok seed.


End Motion.

(* ===================================================================== *)
(** * Theorems *)
(* ===================================================================== *)

Module ProgFacts.

Section Runs.
Context {Op : Type} {reply : Op -> Type}.
Context {W : Type} (respond : W -> forall o : Op, reply o * W).

(** Running [bind p f] is running [p], then [f] on what it returned. *)
Lemma run_bind {A B : Type} (p : prog Op reply A) (f : A -> prog Op reply B) :
  forall w,
    run respond (bind p f) w =
    let '(tr1, out1, w1) := run respond p w in
    match out1 with
    | Returned a =>
        let '(tr2, out2, w2) := run respond (f a) w1 in ((tr1 ++ tr2)%list, out2, w2)
    | Panicked m => (tr1, Panicked m, w1)
    | Running => (tr1, Running, w1)
    end.
Proof.
  induction p as [a | o k IH | m | ]; intros w; simpl.
  - destruct (run respond (f a) w) as [[tr2 out2] w2]. reflexivity.
  - destruct (respond w o) as [r w1]. rewrite IH.
    destruct (run respond (k r) w1) as [[tr1 out1] w1'].
    destruct out1 as [a | m | ]; try reflexivity.
    destruct (run respond (f a) w1') as [[tr2 out2] w2]. reflexivity.
  - reflexivity.
  - reflexivity.
Qed.

(** A run of [bind p f] that returns is a run of [p] that returns
    followed by a run of [f] that returns. *)
Lemma run_bind_returned {A B : Type} (p : prog Op reply A)
  (f : A -> prog Op reply B) (w w' : W) (tr : list Op) (b : B) :
  run respond (bind p f) w = (tr, Returned b, w') ->
  exists tr1 a w1 tr2,
    run respond p w = (tr1, Returned a, w1)
    /\ run respond (f a) w1 = (tr2, Returned b, w')
    /\ tr = (tr1 ++ tr2)%list.
Proof.
  rewrite run_bind. destruct (run respond p w) as [[tr1 out1] w1].
  destruct out1 as [a | m | ]; try (intros H; discriminate H).
  destruct (run respond (f a) w1) as [[tr2 out2] w2] eqn:Hf.
  intros H. injection H as <- -> <-. exists tr1, a, w1, tr2.
  split; [reflexivity | split; [exact Hf | reflexivity]].
Qed.

Lemma total_bind {A B : Type} (p : prog Op reply A) (f : A -> prog Op reply B) :
  total p -> (forall a, total (f a)) -> total (bind p f).
Proof.
  induction p as [a | o k IH | m | ]; simpl; intros Hp Hf; auto.
Qed.

Lemma emits_bind {A B : Type} (keep : Op -> bool) (p : prog Op reply A)
  (f : A -> prog Op reply B) :
  forall out1 out2,
    total p -> emits keep p out1 -> (forall a, emits keep (f a) out2) ->
    emits keep (bind p f) (out1 ++ out2)%list.
Proof.
  induction p as [a | o k IH | m | ]; simpl; intros out1 out2 Ht Hp Hf;
    try contradiction.
  - subst out1. apply Hf.
  - destruct (keep o).
    + destruct out1 as [ | x out1]; [contradiction | ].
      destruct Hp as [-> Hk]. cbn. split; [reflexivity | ].
      intros r. apply IH; auto.
    + intros r. apply IH; auto.
Qed.

(** A program that never issues a kept operation emits nothing. *)
Lemma never_emits {A : Type} (keep : Op -> bool) (p : prog Op reply A) :
  never keep p -> emits keep p [].
Proof.
  induction p as [a | o k IH | m | ]; simpl; intros Hp; auto.
  destruct Hp as [-> Hk]. intros r. apply IH, Hk.
Qed.

Lemma emits_run {A : Type} (keep : Op -> bool) (p : prog Op reply A) :
  forall out, emits keep p out ->
  forall w, List.filter keep (fst (fst (run respond p w))) = out.
Proof.
  induction p as [a | o k IH | m | ]; simpl; intros out Hp w; auto.
  destruct (respond w o) as [r w1].
  destruct (run respond (k r) w1) as [[tr o'] w2] eqn:Hrun. cbn.
  destruct (keep o).
  - destruct out as [ | x out]; [contradiction | ]. destruct Hp as [-> Hk].
    f_equal. specialize (IH r out (Hk r) w1). rewrite Hrun in IH. exact IH.
  - specialize (IH r out (Hp r) w1). rewrite Hrun in IH. exact IH.
Qed.

(** [defer d p] runs [p], then [d], unless [p] is still running. *)
Lemma history_trace {A : Type} (p : prog Op reply A) :
  forall w, map eventOp (history respond p w) = fst (fst (run respond p w)).
Proof.
  induction p as [a | o k IH | m | ]; intros w; cbn [history run]; try reflexivity.
  destruct (respond w o) as [r w1]. cbn [map eventOp]. rewrite IH.
  destruct (run respond (k r) w1) as [[tr out] w2]. reflexivity.
Qed.

Lemma history_bind {A B : Type} (p : prog Op reply A) (f : A -> prog Op reply B) :
  forall w,
    history respond (bind p f) w =
    match run respond p w with
    | (_, Returned a, w1) => (history respond p w ++ history respond (f a) w1)%list
    | _ => history respond p w
    end.
Proof.
  induction p as [a | o k IH | m | ]; intros w; cbn [bind history run];
    try reflexivity.
  destruct (respond w o) as [r w1]. rewrite IH.
  destruct (run respond (k r) w1) as [[tr out] w2].
  destruct out; reflexivity.
Qed.

Lemma history_defer {A : Type} (d : Op) (p : prog Op reply A) :
  forall w,
    history respond (defer d p) w =
    match run respond p w with
    | (_, Running, _) => history respond p w
    | (_, _, w1) => (history respond p w ++ [Event d (fst (respond w1 d))])%list
    end.
Proof.
  induction p as [a | o k IH | m | ]; intros w; cbn [defer history run].
  - destruct (respond w d) as [r w1]. reflexivity.
  - destruct (respond w o) as [r w1]. rewrite IH.
    destruct (run respond (k r) w1) as [[tr out] w2].
    destruct out; reflexivity.
  - destruct (respond w d) as [r w1]. reflexivity.
  - reflexivity.
Qed.

Lemma run_defer {A : Type} (d : Op) (p : prog Op reply A) :
  forall w,
    run respond (defer d p) w =
    let '(tr, out, w1) := run respond p w in
    match out with
    | Running => (tr, Running, w1)
    | _ => ((tr ++ [d])%list, out, snd (respond w1 d))
    end.
Proof.
  induction p as [a | o k IH | m | ]; intros w; simpl.
  - destruct (respond w d) as [r w1]. reflexivity.
  - destruct (respond w o) as [r w1]. rewrite IH.
    destruct (run respond (k r) w1) as [[tr out] w2].
    destruct out; reflexivity.
  - destruct (respond w d) as [r w1]. reflexivity.
  - reflexivity.
Qed.

Lemma never_bind {A B : Type} (bad : Op -> bool) (p : prog Op reply A)
  (f : A -> prog Op reply B) :
  never bad p -> (forall a, never bad (f a)) -> never bad (bind p f).
Proof.
  induction p as [a | o k IH | m | ]; simpl; intros Hp Hf; auto.
  destruct Hp as [Ho Hk]. split; [exact Ho | intros r; apply IH; auto].
Qed.

Lemma never_defer {A : Type} (bad : Op -> bool) (d : Op) (p : prog Op reply A) :
  bad d = false -> never bad p -> never bad (defer d p).
Proof.
  intros Hd. induction p as [a | o k IH | m | ]; simpl; intros Hp; auto.
  destruct Hp as [Ho Hk]. split; [exact Ho | intros r; apply IH; auto].
Qed.

(** What a program never issues does not show in its trace. *)
Lemma never_run {A : Type} (bad : Op -> bool) (p : prog Op reply A) :
  never bad p -> forall w, List.filter bad (fst (fst (run respond p w))) = [].
Proof.
  induction p as [a | o k IH | m | ]; simpl; intros Hp w; auto.
  destruct Hp as [Ho Hk]. destruct (respond w o) as [r w1].
  specialize (IH r (Hk r) w1).
  destruct (run respond (k r) w1) as [[tr out] w2]. simpl in *.
  rewrite Ho. exact IH.
Qed.
End Runs.

End ProgFacts.

Module Wx250sFacts.

Import Wx250s ProgFacts.

Local Open Scope Z_scope.

(** ** The lock discipline of the methods *)

Lemma holds_mono {A : Type} (p : prog A) :
  forall h (Q Q' : A -> bool -> Prop) (E E' : bool -> Prop),
    (forall a h', Q a h' -> Q' a h') -> (forall h', E h' -> E' h') ->
    holds h p Q E -> holds h p Q' E'.
Proof.
  induction p as [a | o k IH | m | ]; simpl; intros h Q Q' E E' HQ HE Hp; auto.
  destruct o; simpl in *; destruct Hp as [H0 Hk]; split; eauto.
Qed.

Lemma holds_bind {A B : Type} (p : prog A) (f : A -> prog B) :
  forall h (Q : B -> bool -> Prop) (E : bool -> Prop),
    holds h p (fun a h' => holds h' (f a) Q E) E -> holds h (bind p f) Q E.
Proof.
  induction p as [a | o k IH | m | ]; simpl; intros h Q E Hp; auto.
  destruct o; simpl in *; destruct Hp as [H0 Hk]; split; eauto.
Qed.

Lemma holds_defer {A : Type} (p : prog A) :
  forall h,
    holds h p (fun _ h' => h' = true) (fun h' => h' = true) ->
    holds h (defer MuUnlock p) (fun _ h' => h' = false) (fun _ => True).
Proof.
  induction p as [a | o k IH | m | ]; simpl; intros h Hp; auto.
  destruct o; simpl in *; destruct Hp as [H0 Hk]; split; eauto.
Qed.

(** A method of the shape [Lock(); defer Unlock(); body]. *)
Lemma guarded_locked_body {A : Type} (body : prog A) :
  holds true body (fun _ h => h = true) (fun h => h = true) ->
  guarded false (trigger MuLock ;;; defer MuUnlock body).
Proof.
  intros Hb. unfold guarded. simpl. split; [reflexivity | intros _].
  apply holds_defer, Hb.
Qed.

Lemma holds_JointTo (a : Arm) (jointName : string) (pos : Z) (block : bool)
  (Q : unit -> bool -> Prop) (E : bool -> Prop) :
  Q tt true -> holds true (JointTo a jointName pos block) Q E.
Proof.
  intros HQ. unfold JointTo. simpl. split; [reflexivity | intros r].
  destruct r as [e | ]; simpl; auto.
Qed.

Lemma holds_moveJoints (a : Arm) (degrees : list Q) :
  forall i (Q : unit -> bool -> Prop),
    Q tt true -> holds true (moveJoints a i degrees) Q (fun _ => True).
Proof.
  induction degrees as [ | pos rest IH]; intros i Q HQ; cbn [moveJoints].
  - exact HQ.
  - destruct (JointOrder !! i) as [jointName | ]; [ | exact I].
    apply holds_bind, holds_JointTo, IH, HQ.
Qed.

Lemma holds_homeJoints (a : Arm) (joints : list string) :
  forall (Q : unit -> bool -> Prop) (E : bool -> Prop),
    Q tt true -> holds true (homeJoints a joints) Q E.
Proof.
  induction joints as [ | j rest IH]; intros Q E HQ; cbn [homeJoints].
  - exact HQ.
  - apply holds_bind, holds_JointTo, IH, HQ.
Qed.

Lemma holds_pollMoving (servos : list Servo) :
  forall allAtPos (Q : bool + string -> bool -> Prop) (E : bool -> Prop),
    (forall r, Q r true) -> holds true (pollMoving servos allAtPos) Q E.
Proof.
  induction servos as [ | s rest IH]; intros allAtPos Q E HQ; simpl; auto.
  split; [reflexivity | intros [isMoving [e | ]]]; simpl; auto.
Qed.

Lemma holds_waitLoop (a : Arm) (fuel : nat) :
  holds true (waitLoop a fuel) (fun _ h => h = true) (fun h => h = true).
Proof.
  induction fuel as [ | fuel IH]; cbn [waitLoop]; [exact I | ].
  change (holds true (Vis (Sleep 200) (fun _ =>
            r <- pollMoving (GetAllServos a) true ;;
            match r with
            | inr e => Ret (Some e)
            | inl true => Ret None
            | inl false => waitLoop a fuel
            end)) (fun _ h => h = true) (fun h => h = true)).
  cbn [holds]. split; [discriminate | intros _].
  apply holds_bind, holds_pollMoving. intros [[ | ] | e]; simpl; auto.
Qed.

Lemma guarded_WaitForMovement (a : Arm) (fuel : nat) :
  guarded false (WaitForMovement a fuel).
Proof. apply guarded_locked_body, holds_waitLoop. Qed.

Lemma holds_sumPositions (servos : list Servo) :
  forall angleSum (Q : Z + string -> bool -> Prop) (E : bool -> Prop),
    (forall r, Q r true) -> holds true (sumPositions servos angleSum) Q E.
Proof.
  induction servos as [ | s rest IH]; intros angleSum Q E HQ; simpl; auto.
  split; [reflexivity | intros [pos [e | ]]]; simpl; auto.
Qed.

Lemma holds_rangeAngles (joints : list (string * list Servo)) :
  forall angles,
    holds true (rangeAngles joints angles)
          (fun _ h => h = true) (fun h => h = true).
Proof.
  induction joints as [ | [jointName servos] rest IH]; intros angles;
    cbn [rangeAngles]; [reflexivity | ].
  apply holds_bind, holds_sumPositions. intros [angleSum | e]; [ | reflexivity].
  destruct servos; [reflexivity | apply IH].
Qed.

Lemma holds_setTorques (on : bool) (servos : list Servo) :
  holds true (setTorques on servos) (fun _ h => h = true) (fun h => h = true).
Proof.
  induction servos as [ | s rest IH]; simpl; auto.
  split; [reflexivity | intros [e | ]]; simpl; auto.
Qed.

Lemma holds_setAccelerations (accel : Z) (servos : list Servo) :
  holds true (setAccelerations accel servos)
        (fun _ h => h = true) (fun h => h = true).
Proof.
  induction servos as [ | s rest IH]; simpl; auto.
  split; [reflexivity | intros [e | ]]; simpl; auto.
Qed.

Lemma holds_setVelocities (veloc : Z) (servos : list Servo) :
  holds true (setVelocities veloc servos)
        (fun _ h => h = true) (fun h => h = true).
Proof.
  induction servos as [ | s rest IH]; simpl; auto.
  split; [reflexivity | intros [e | ]]; simpl; auto.
Qed.

(** A method of the shape [Lock(); commands; Unlock(); return WaitForMovement()]. *)
Lemma guarded_commands_then_wait (a : Arm) (body : prog unit) (fuel : nat) :
  (forall Q : unit -> bool -> Prop, Q tt true ->
     holds true body Q (fun _ => True)) ->
  guarded false (trigger MuLock ;;; body ;;; trigger MuUnlock ;;;
                 WaitForMovement a fuel).
Proof.
  intros Hbody. unfold guarded.
  change (trigger MuLock ;;; body ;;; trigger MuUnlock ;;; WaitForMovement a fuel)
    with (Vis MuLock (fun _ => body ;;; trigger MuUnlock ;;; WaitForMovement a fuel)).
  simpl. split; [reflexivity | intros _].
  apply holds_bind, Hbody. simpl. split; [reflexivity | intros _].
  apply (guarded_WaitForMovement a fuel).
Qed.

Lemma guarded_MoveToJointPositions (a : Arm) (degrees : list Q) (fuel : nat) :
  guarded false (MoveToJointPositions a degrees fuel).
Proof.
  unfold MoveToJointPositions.
  destruct (length JointOrder <? length degrees)%nat; [reflexivity | ].
  apply guarded_commands_then_wait. intros Q HQ. apply holds_moveJoints, HQ.
Qed.

Lemma guarded_HomePosition (a : Arm) (joints : list string) (fuel : nat) :
  guarded false (HomePosition a joints fuel).
Proof.
  apply guarded_commands_then_wait. intros Q HQ. apply holds_homeJoints, HQ.
Qed.

Lemma guarded_SleepPosition (a : Arm) (fuel : nat) :
  guarded false (SleepPosition a fuel).
Proof.
  unfold SleepPosition, guarded.
  cbn [bind trigger holds]. split; [reflexivity | intros _].
  do 6 apply holds_bind, holds_JointTo.
  cbn [bind trigger holds]. split; [reflexivity | intros _].
  apply (guarded_WaitForMovement a fuel).
Qed.

Lemma guarded_GetAllAngles (a : Arm) (joints : list (string * list Servo)) :
  guarded false (GetAllAngles a joints).
Proof. apply guarded_locked_body, holds_rangeAngles. Qed.

Lemma guarded_TorqueOn (a : Arm) : guarded false (TorqueOn a).
Proof. apply guarded_locked_body, holds_setTorques. Qed.

Lemma guarded_TorqueOff (a : Arm) : guarded false (TorqueOff a).
Proof. apply guarded_locked_body, holds_setTorques. Qed.

Lemma guarded_SetAcceleration (a : Arm) (accel : Z) :
  guarded false (SetAcceleration a accel).
Proof. apply guarded_locked_body, holds_setAccelerations. Qed.

Lemma guarded_SetVelocity (a : Arm) (veloc : Z) :
  guarded false (SetVelocity a veloc).
Proof. apply guarded_locked_body, holds_setVelocities. Qed.

Lemma guarded_then_ret {A : Type} (p : prog A) :
  guarded false p -> guarded false (p ;;; Ret tt).
Proof.
  intros Hp. apply holds_bind.
  revert Hp. apply holds_mono; [intros a h Hh; exact Hh | auto].
Qed.

Lemma guarded_exec (a : Arm) (c : call) : guarded false (exec a c).
Proof.
  destruct c; cbn [exec]; apply guarded_then_ret.
  - apply guarded_MoveToJointPositions.
  - apply guarded_GetAllAngles.
  - apply guarded_SleepPosition.
  - apply guarded_HomePosition.
  - apply guarded_TorqueOn.
  - apply guarded_TorqueOff.
  - apply guarded_WaitForMovement.
  - apply guarded_SetAcceleration.
  - apply guarded_SetVelocity.
Qed.

Lemma guarded_script (a : Arm) (cs : list call) : guarded false (script a cs).
Proof.
  induction cs as [ | c rest IH]; cbn [script]; [reflexivity | ].
  apply holds_bind. generalize (guarded_exec a c).
  apply holds_mono; [ | auto]. intros _ h ->. exact IH.
Qed.

(** ** Goroutines *)

Lemma disciplined_init (a : Arm) (scripts : list (list call)) :
  disciplined (mkPool (map (script a) scripts) None).
Proof.
  intros i p Hp. cbn [threads holder] in *.
  rewrite list_lookup_fmap in Hp.
  destruct (scripts !! i) as [cs | ]; [ | discriminate].
  injection Hp as <-. apply guarded_script.
Qed.

Lemma lookup_insert_cases {A : Type} (l : list A) (i j : nat) (x y : A) :
  <[i := x]> l !! j = Some y ->
  (i = j /\ x = y) \/ (i <> j /\ l !! j = Some y).
Proof.
  intros H. destruct (decide (i = j)) as [-> | Hne].
  - left. split; [reflexivity | ].
    destruct (decide (j < length l)%nat) as [Hlt | Hge].
    + rewrite list_lookup_insert_eq in H by exact Hlt. congruence.
    + rewrite list_insert_ge in H by lia.
      apply lookup_lt_Some in H. lia.
  - right. split; [exact Hne | ].
    rewrite list_lookup_insert_ne in H by exact Hne. exact H.
Qed.

Lemma disciplined_step (P P' : pool) :
  step P P' -> disciplined P -> disciplined P'.
Proof.
  intros Hstep Hinv.
  destruct Hstep as [ths i k Hi | ths i j k Hi | ths i k Hi | ths h i o k r Hi Hl Hu];
    intros m p Hm; cbn [threads holder] in *;
    pose proof (Hinv i _ Hi) as Hthis; unfold guarded in Hthis;
    cbn [holds threads holder] in Hthis.
  - destruct Hthis as [_ Hk].
    destruct (lookup_insert_cases _ _ _ _ _ Hm) as [[-> <-] | [Hne Hm']].
    + rewrite bool_decide_eq_true_2 by reflexivity. apply Hk.
    + rewrite bool_decide_eq_false_2 by congruence.
      pose proof (Hinv m _ Hm') as Hother. cbn [holder] in Hother.
      rewrite bool_decide_eq_false_2 in Hother by discriminate. exact Hother.
  - destruct Hthis as [Hheld Hk].
    apply bool_decide_eq_true_1 in Hheld. injection Hheld as ->.
    rewrite bool_decide_eq_false_2 by discriminate.
    destruct (lookup_insert_cases _ _ _ _ _ Hm) as [[-> <-] | [Hne Hm']].
    + apply Hk.
    + pose proof (Hinv m _ Hm') as Hother. cbn [holder] in Hother.
      rewrite bool_decide_eq_false_2 in Hother by congruence. exact Hother.
  - destruct Hthis as [Hheld _].
    rewrite bool_decide_eq_false_2 in Hheld by discriminate. discriminate.
  - assert (Hk : forall r', guarded (bool_decide (h = Some i)) (k r')).
    { destruct o; try congruence; apply Hthis. }
    destruct (lookup_insert_cases _ _ _ _ _ Hm) as [[-> <-] | [Hne Hm']].
    + apply Hk.
    + apply (Hinv m _ Hm').
Qed.

Lemma disciplined_reachable (P P' : pool) :
  rtc step P P' -> disciplined P -> disciplined P'.
Proof.
  induction 1 as [ | P1 P2 P3 H12 _ IH]; intros Hinv; [exact Hinv | ].
  apply IH, (disciplined_step _ _ H12 Hinv).
Qed.

Lemma disciplined_poised (P : pool) (i : nat) (o : Op) :
  disciplined P -> poised P i o -> touchesServo o = true -> holder P = Some i.
Proof.
  intros Hinv [k Hk] Ht. pose proof (Hinv i _ Hk) as Hg.
  unfold guarded in Hg. cbn [holds] in Hg.
  destruct o; try discriminate Ht;
    destruct Hg as [Hheld _]; specialize (Hheld eq_refl);
    apply bool_decide_eq_true_1 in Hheld; exact Hheld.
Qed.

(** C7. Every physical command to the arm is serialized behind the
    arm's mutex.  Each of MoveToJointPositions, GetAllAngles,
    SleepPosition, HomePosition, TorqueOn, TorqueOff, WaitForMovement
    (and SetAcceleration, SetVelocity) locks [moveLock] before it
    reaches a servo and reaches servos only while it holds the lock.
    Hence, however goroutines that call these methods are interleaved,
    a goroutine about to issue a servo operation is the one holding the
    mutex, and no two goroutines are about to issue servo operations at
    the same time: commands to the actuator chain never overlap. *)
Theorem wx250s_commands_serialized (a : Arm) (scripts : list (list call))
  (P : pool) :
  rtc step (mkPool (map (script a) scripts) None) P ->
  (forall c, guarded false (exec a c))
  /\ (forall i o, poised P i o -> touchesServo o = true -> holder P = Some i)
  /\ (forall i j o o',
        poised P i o -> touchesServo o = true ->
        poised P j o' -> touchesServo o' = true -> i = j).
Proof.
  intros Hreach.
  pose proof (disciplined_reachable _ _ Hreach (disciplined_init a scripts)) as Hinv.
  split; [apply guarded_exec | ]. split.
  - intros i o. apply disciplined_poised, Hinv.
  - intros i j o o' Hi Hti Hj Htj.
    pose proof (disciplined_poised P i o Hinv Hi Hti) as Ei.
    pose proof (disciplined_poised P j o' Hinv Hj Htj) as Ej.
    congruence.
Qed.

(** Two goroutines, one switching torque on and one switching it off:
    after the first has locked the mutex it is about to reach servo 1,
    and it is the holder. *)
Lemma wx250s_commands_serialized_witness :
  exists P : pool,
    rtc step (mkPool (map (script eightServoArm) [[CallTorqueOn]; [CallTorqueOff]]) None) P
    /\ poised P 0 (SetTorqueEnable true 1%nat)
    /\ holder P = Some 0%nat.
Proof.
  pose (k := fun _ : reply MuLock =>
    ((defer MuUnlock (setTorques true (GetAllServos eightServoArm)) ;;; Ret tt)
       ;;; Ret tt) : prog unit).
  pose (ths := map (script eightServoArm) [[CallTorqueOn]; [CallTorqueOff]]).
  assert (Hreach : rtc step (mkPool ths None)
                            (mkPool (<[0%nat := k tt]> ths) (Some 0%nat))).
  { eapply rtc_l; [ | apply rtc_refl].
    apply (step_lock ths 0%nat k). reflexivity. }
  assert (Hpoised : poised (mkPool (<[0%nat := k tt]> ths) (Some 0%nat))
                           0 (SetTorqueEnable true 1%nat)).
  { eexists. vm_compute. reflexivity. }
  exists (mkPool (<[0%nat := k tt]> ths) (Some 0%nat)).
  split; [exact Hreach | ]. split; [exact Hpoised | ].
  exact (proj1 (proj2 (wx250s_commands_serialized eightServoArm _ _ Hreach))
               0%nat _ Hpoised eq_refl).
Defined.

(** ** What the methods command *)

Lemma clamp_max_min (pos : Z) :
  (if pos >? 4095 then 4095 else if pos <? 0 then 0 else pos)
  = Z.max 0 (Z.min 4095 pos).
Proof.
  destruct (Z.gtb_spec pos 4095); [lia | ].
  destruct (Z.ltb_spec pos 0); lia.
Qed.

(** One run of [JointTo]: the goal it commands, the log line if the
    servo library reported an error, and the environment afterwards. *)
Lemma run_JointTo {W : Type} (respond : W -> forall o : Op, reply o * W)
  (a : Arm) (jointName : string) (pos : Z) (block : bool) (w : W) :
  let goal := GoalAndTrack (Z.max 0 (Z.min 4095 pos)) block (GetServos a jointName) in
  run respond (JointTo a jointName pos block) w =
  match respond w goal with
  | (Some e, w1) =>
      let msg := Errorf (jointName +:+ " jointTo error: " +:+ e) in
      ([goal; msg], Returned tt, snd (respond w1 msg))
  | (None, w1) => ([goal], Returned tt, w1)
  end.
Proof.
  unfold JointTo. rewrite clamp_max_min. cbn [bind trigger run].
  destruct (respond w _) as [[e | ] w1]; cbn [bind trigger run]; [ | reflexivity].
  destruct (respond w1 _) as [r w2]. reflexivity.
Qed.

(** C10. For every integer position, [JointTo] commands a goal within
    [0, 4095]: a position above 4095 becomes 4095, one below 0 becomes
    0, any other is passed on unchanged; nothing reports the clamping.
    An error of the servo command is logged and not propagated: the
    method returns nothing, error or not. *)
Theorem JointTo_goal_clamped {W : Type}
  (respond : W -> forall o : Op, reply o * W)
  (a : Arm) (jointName : string) (pos : Z) (block : bool) (w : W) :
  let goal := Z.max 0 (Z.min 4095 pos) in
  let e := fst (respond w (GoalAndTrack goal block (GetServos a jointName))) in
  0 <= goal <= 4095
  /\ (4095 < pos -> goal = 4095)
  /\ (pos < 0 -> goal = 0)
  /\ (0 <= pos <= 4095 -> goal = pos)
  /\ fst (fst (run respond (JointTo a jointName pos block) w)) =
       GoalAndTrack goal block (GetServos a jointName) ::
       match e with
       | Some msg => [Errorf (jointName +:+ " jointTo error: " +:+ msg)]
       | None => []
       end
  /\ snd (fst (run respond (JointTo a jointName pos block) w)) = Returned tt.
Proof.
  intros goal e. subst goal e. rewrite run_JointTo. cbv zeta.
  destruct (respond w _) as [[msg | ] w1]; cbn [fst snd];
    repeat split; try lia; reflexivity.
Qed.

(** On the eight-servo arm whose goal commands time out, position 5000
    for the waist is commanded as 4095, the error is logged, and the
    method returns. *)
Lemma JointTo_goal_clamped_witness :
  fst (run timingOut (JointTo eightServoArm "Waist" 5000 false) tt)
  = ([GoalAndTrack 4095 false [1%nat]; Errorf "Waist jointTo error: timeout"],
     Returned tt).
Proof.
  destruct (JointTo_goal_clamped timingOut eightServoArm "Waist" 5000 false tt)
    as (_ & _ & _ & _ & Htrace & Hout).
  destruct (run timingOut (JointTo eightServoArm "Waist" 5000 false) tt)
    as [[tr out] w1].
  cbn [fst snd] in *. rewrite Htrace, Hout. vm_compute. reflexivity.
Defined.

Lemma run_moveJoints {W : Type} (respond : W -> forall o : Op, reply o * W)
  (a : Arm) (degrees : list Q) :
  forall i w,
    (i + length degrees <= length JointOrder)%nat ->
    exists body w1,
      run respond (moveJoints a i degrees) w = (body, Returned tt, w1)
      /\ commands body = zip_with (goalFor a) (drop i JointOrder) degrees.
Proof.
  induction degrees as [ | pos rest IH]; intros i w Hlen; cbn [moveJoints].
  - exists [], w. split; [reflexivity | ].
    destruct (drop i JointOrder); reflexivity.
  - cbn [length] in Hlen.
    destruct (JointOrder !! i) as [jointName | ] eqn:Hj.
    2:{ apply lookup_ge_None in Hj. lia. }
    rewrite run_bind, run_JointTo. cbv zeta.
    rewrite (drop_S _ _ _ Hj). cbn [zip_with].
    destruct (respond w _) as [[e | ] w1].
    + destruct (IH (S i) (snd (respond w1 (Errorf (jointName +:+ " jointTo error: " +:+ e)))))
        as (body & w2 & Hrun & Hcmd); [lia | ].
      rewrite Hrun. eexists _, w2. split; [reflexivity | ].
      unfold commands in *. cbn [app List.filter isGoal].
      rewrite Hcmd. reflexivity.
    + destruct (IH (S i) w1) as (body & w2 & Hrun & Hcmd); [lia | ].
      rewrite Hrun. eexists _, w2. split; [reflexivity | ].
      unfold commands in *. cbn [app List.filter isGoal].
      rewrite Hcmd. reflexivity.
Qed.

Lemma never_goal_pollMoving (servos : list Servo) :
  forall allAtPos, never isGoal (pollMoving servos allAtPos).
Proof.
  induction servos as [ | s rest IH]; intros allAtPos; cbn; auto.
  split; [reflexivity | intros [isMoving [e | ]]]; cbn; auto.
Qed.

Lemma never_goal_WaitForMovement (a : Arm) (fuel : nat) :
  never isGoal (WaitForMovement a fuel).
Proof.
  unfold WaitForMovement. cbn [bind trigger never].
  split; [reflexivity | intros _].
  apply never_defer; [reflexivity | ].
  induction fuel as [ | fuel IH]; cbn [waitLoop bind trigger never]; [exact I | ].
  split; [reflexivity | intros _].
  apply never_bind; [apply never_goal_pollMoving | ].
  intros [[ | ] | e]; cbn; auto.
Qed.

(** A run of [MoveToJointPositions] on at most six positions: lock,
    the goal commands, unlock, then [WaitForMovement]. *)
Lemma run_MoveToJointPositions {W : Type}
  (respond : W -> forall o : Op, reply o * W)
  (a : Arm) (degrees : list Q) (fuel : nat) (w : W) :
  (length degrees <= 6)%nat ->
  exists body w1,
    run respond (MoveToJointPositions a degrees fuel) w
    = ((MuLock :: body ++ MuUnlock ::
          fst (fst (run respond (WaitForMovement a fuel) w1)))%list,
       snd (fst (run respond (WaitForMovement a fuel) w1)),
       snd (run respond (WaitForMovement a fuel) w1))
    /\ commands body = zip_with (goalFor a) JointOrder degrees.
Proof.
  intros Hlen. unfold MoveToJointPositions.
  destruct (Nat.ltb_spec (length JointOrder) (length degrees)) as [Hlt | _].
  { cbn [length JointOrder] in Hlt. lia. }
  destruct (run_moveJoints respond a degrees 0 (snd (respond w MuLock)))
    as (body & w1 & Hrun & Hcmd); [cbn [length JointOrder]; lia | ].
  exists body, (snd (respond w1 MuUnlock)). split; [ | rewrite Hcmd, drop_0; reflexivity].
  change (trigger MuLock ;;; moveJoints a 0 degrees ;;; trigger MuUnlock ;;;
          WaitForMovement a fuel)
    with (Vis MuLock (fun _ => moveJoints a 0 degrees ;;; trigger MuUnlock ;;;
                               WaitForMovement a fuel)).
  cbn [run]. destruct (respond w MuLock) as [r0 w0]. cbn [snd] in Hrun.
  rewrite run_bind, Hrun.
  change (trigger MuUnlock ;;; WaitForMovement a fuel)
    with (Vis MuUnlock (fun _ => WaitForMovement a fuel)).
  cbn [run]. destruct (respond w1 MuUnlock) as [r1 w2]. cbn [snd].
  destruct (run respond (WaitForMovement a fuel) w2) as [[tr out] w3].
  reflexivity.
Qed.



(** X1. [PrintPositions] never touches [moveLock], whatever the arm and
    whatever the servos answer, and on an arm with at least one servo
    its first operation is a position read: it reads the bus outside the
    lock discipline the other methods keep. *)
Theorem PrintPositions_takes_no_lock (a : Arm) :
  never isLock (PrintPositions a)
  /\ (GetAllServos a <> [] ->
      (exists s k, PrintPositions a = Vis (PresentPosition s) k)
      /\ ~ guarded false (PrintPositions a)).
Proof.
  unfold PrintPositions. split.
  - induction (GetAllServos a) as [ | s rest IH]; cbn; [exact I | ].
    split; [reflexivity | intros [pos [e | ]]]; cbn; auto.
  - destruct (GetAllServos a) as [ | s rest]; [congruence | intros _]. split.
    + eexists s, _. reflexivity.
    + unfold guarded. cbn. intros [H _]. specialize (H eq_refl). discriminate H.
Qed.

Lemma PrintPositions_takes_no_lock_witness :
  ~ guarded false (PrintPositions eightServoArm).
Proof.
  apply (proj2 (PrintPositions_takes_no_lock eightServoArm)).
  vm_compute. discriminate.
Defined.

(** ** Servos at rest *)

Lemma run_pollMoving_at_rest {W : Type}
  (respond : W -> forall o : Op, reply o * W) (servos : list Servo) :
  (forall w s, fst (respond w (Moving s)) = (0, None)) ->
  forall w, exists w1,
    run respond (pollMoving servos true) w
    = (map Moving servos, Returned (inl true), w1).
Proof.
  intros Hrest. induction servos as [ | s rest IH]; intros w.
  - exists w. reflexivity.
  - cbn [pollMoving bind trigger run map].
    pose proof (Hrest w s) as Hs.
    destruct (respond w (Moving s)) as [[isMoving e] w0]. cbn [fst] in Hs.
    injection Hs as -> ->. cbn [bind Z.eqb].
    destruct (IH w0) as [w1 Hrun]. rewrite Hrun. exists w1. reflexivity.
Qed.

Lemma run_WaitForMovement_at_rest {W : Type}
  (respond : W -> forall o : Op, reply o * W) (a : Arm) (fuel : nat) :
  (forall w s, fst (respond w (Moving s)) = (0, None)) ->
  forall w,
    fst (run respond (WaitForMovement a (S fuel)) w)
    = ((MuLock :: Sleep 200 :: map Moving (GetAllServos a) ++ [MuUnlock])%list,
       Returned None).
Proof.
  intros Hrest w. unfold WaitForMovement. cbn [bind trigger run].
  destruct (respond w MuLock) as [r0 w0]. cbn [bind]. rewrite run_defer.
  cbn [waitLoop bind trigger run]. destruct (respond w0 (Sleep 200)) as [r1 w1].
  cbn [bind]. rewrite run_bind.
  destruct (run_pollMoving_at_rest respond (GetAllServos a) Hrest w1) as [w2 Hrun].
  rewrite Hrun. cbn [run app fst]. rewrite app_nil_r. reflexivity.
Qed.

(** X2. When every servo reports that it is not moving, and no error,
    [WaitForMovement] returns nil after one 200 ms sleep and one poll of
    every servo, taken between a lock and an unlock, and
    [MoveToJointPositions] with at most six positions returns nil. *)
Theorem WaitForMovement_returns_at_rest {W : Type}
  (respond : W -> forall o : Op, reply o * W) (a : Arm) (fuel : nat) (w : W) :
  (forall w' s, fst (respond w' (Moving s)) = (0, None)) ->
  fst (run respond (WaitForMovement a (S fuel)) w)
  = ((MuLock :: Sleep 200 :: map Moving (GetAllServos a) ++ [MuUnlock])%list,
     Returned None)
  /\ forall degrees, (length degrees <= 6)%nat ->
       snd (fst (run respond (MoveToJointPositions a degrees (S fuel)) w))
       = Returned None.
Proof.
  intros Hrest. split; [apply run_WaitForMovement_at_rest, Hrest | ].
  intros degrees Hlen.
  destruct (run_MoveToJointPositions respond a degrees (S fuel) w Hlen)
    as (body & w1 & Hall & _).
  rewrite Hall. cbn [fst snd].
  rewrite (run_WaitForMovement_at_rest respond a fuel Hrest w1). reflexivity.
Qed.

Lemma WaitForMovement_returns_at_rest_witness :
  snd (fst (run atRest (MoveToJointPositions eightServoArm [0; 90]%Q 1) tt))
  = Returned None.
Proof.
  apply (proj2 (WaitForMovement_returns_at_rest atRest eightServoArm 0 tt
                  (fun w s => eq_refl))).
  cbn. lia.
Defined.

(** ** Degrees and servo positions *)

Lemma Qnum_nonneg (q : Q) : 0 <= Qnum q <-> (0 <= q)%Q.
Proof. unfold Qle. cbn. lia. Qed.

Lemma Qtrunc_comp (x y : Q) : (x == y)%Q -> Qtrunc x = Qtrunc y.
Proof.
  intros H. unfold Qtrunc.
  destruct (Z.leb_spec 0 (Qnum x)) as [Hx | Hx], (Z.leb_spec 0 (Qnum y)) as [Hy | Hy].
  - apply Qfloor_comp, H.
  - exfalso. apply Qnum_nonneg in Hx. rewrite H in Hx. apply Qnum_nonneg in Hx. lia.
  - exfalso. apply Qnum_nonneg in Hy. rewrite <- H in Hy. apply Qnum_nonneg in Hy. lia.
  - apply Qceiling_comp, H.
Qed.

Lemma Qtrunc_Z (z : Z) : Qtrunc (inject_Z z) = z.
Proof.
  unfold Qtrunc.
  destruct (0 <=? Qnum (inject_Z z)); [apply Qfloor_Z | apply Qceiling_Z].
Qed.

Lemma Qtrunc_le (x y : Q) : (x <= y)%Q -> Qtrunc x <= Qtrunc y.
Proof.
  intros H. unfold Qtrunc.
  destruct (Z.leb_spec 0 (Qnum x)) as [Hx | Hx], (Z.leb_spec 0 (Qnum y)) as [Hy | Hy].
  - apply Qfloor_resp_le, H.
  - exfalso. apply Qnum_nonneg in Hx.
    assert (Hy' : (0 <= y)%Q) by lra. apply Qnum_nonneg in Hy'. lia.
  - assert (Hx' : (x <= 0)%Q) by (unfold Qle; cbn; lia).
    apply Qceiling_resp_le in Hx'. apply Qnum_nonneg in Hy.
    apply Qfloor_resp_le in Hy.
    change (Qceiling 0) with 0 in Hx'. change (Qfloor 0) with 0 in Hy. lia.
  - apply Qceiling_resp_le, H.
Qed.

Lemma degreeToServoPos_le (d1 d2 : Q) :
  (d1 <= d2)%Q -> degreeToServoPos d1 <= degreeToServoPos d2.
Proof.
  intros H. apply Qtrunc_le. unfold Qdiv. change (/ 180)%Q with (1 # 180)%Q. lra.
Qed.

Lemma degreeToServoPos_landmarks :
  degreeToServoPos 0 = 2048
  /\ degreeToServoPos 90 = 3072
  /\ degreeToServoPos (-90) = 1024
  /\ degreeToServoPos 180 = 4096
  /\ degreeToServoPos (-180) = 0
  /\ degreeToServoPos (-180.05) = 0
  /\ goalFor eightServoArm "Waist" 180 = GoalAndTrack 4095 false [1%nat].
Proof. repeat split; vm_compute; reflexivity. Qed.

(** X3. Converting a whole servo position to degrees and back gives the
    position again; [degreeToServoPos] is monotone; and every angle
    between -180 and 180 degrees lands in [0, 4096], 4096 being the
    position of 180 degrees, which [JointTo] clamps to 4095. *)
Theorem degreeToServoPos_roundtrip (p : Z) (d1 d2 : Q) :
  degreeToServoPos (servoPosToDegrees (inject_Z p)) = p
  /\ ((d1 <= d2)%Q -> degreeToServoPos d1 <= degreeToServoPos d2)
  /\ ((-180 <= d1)%Q -> (d1 <= 180)%Q -> 0 <= degreeToServoPos d1 <= 4096)
  /\ degreeToServoPos 180 = 4096.
Proof.
  split; [ | split; [apply degreeToServoPos_le | split; [ | reflexivity]]].
  - unfold degreeToServoPos, servoPosToDegrees.
    rewrite <- (Qtrunc_Z p) at 2. apply Qtrunc_comp. field.
  - intros Hlo Hhi.
    pose proof (degreeToServoPos_le _ _ Hlo) as H1.
    pose proof (degreeToServoPos_le _ _ Hhi) as H2.
    change (degreeToServoPos (-180)) with 0 in H1.
    change (degreeToServoPos 180) with 4096 in H2. lia.
Qed.

(** ** Reading the joint angles *)

Lemma run_sumPositions {W : Type}
  (respond : W -> forall o : Op, reply o * W) (posOf : Servo -> Z)
  (servos : list Servo) :
  (forall w s, fst (respond w (PresentPosition s)) = (posOf s, None)) ->
  forall angleSum w, exists w1,
    run respond (sumPositions servos angleSum) w
    = (map PresentPosition servos,
       Returned (inl (fold_left (fun acc s => wrap64 (acc + posOf s)) servos angleSum)),
       w1).
Proof.
  intros Hpos. induction servos as [ | s rest IH]; intros angleSum w.
  - exists w. reflexivity.
  - cbn [sumPositions bind trigger run map fold_left].
    pose proof (Hpos w s) as Hs.
    destruct (respond w (PresentPosition s)) as [[pos e] w0]. cbn [fst] in Hs.
    injection Hs as -> ->. cbn [bind].
    destruct (IH (wrap64 (angleSum + posOf s)) w0) as [w1 Hrun].
    rewrite Hrun. exists w1. reflexivity.
Qed.

Lemma run_rangeAngles {W : Type}
  (respond : W -> forall o : Op, reply o * W) (posOf : Servo -> Z)
  (joints : list (string * list Servo)) :
  (forall w s, fst (respond w (PresentPosition s)) = (posOf s, None)) ->
  Forall (fun js => snd js <> []) joints ->
  forall angles w, exists w1,
    run respond (rangeAngles joints angles) w
    = (readsOf joints, Returned (anglesOf posOf joints angles, None), w1).
Proof.
  intros Hpos Hne. induction Hne as [ | [jointName servos] rest Hs _ IH];
    intros angles w.
  - exists w. reflexivity.
  - cbn [rangeAngles]. rewrite run_bind.
    destruct (run_sumPositions respond posOf servos Hpos 0 w) as [w0 Hrun].
    rewrite Hrun. cbn [snd] in Hs.
    destruct servos as [ | s servos]; [contradiction | ].
    destruct (IH (<[jointName := angleMeanOf posOf (s :: servos)]> angles) w0)
      as [w1 Hrest].
    unfold angleMeanOf in Hrest. rewrite Hrest. exists w1. reflexivity.
Qed.

(** X4. When every position read succeeds, [GetAllAngles] locks, reads
    every servo of every joint once, in the order Go visits the joints,
    unlocks, and returns with a nil error the map that gives each joint
    the mean of its servos' positions, truncated toward zero. *)
Theorem GetAllAngles_means {W : Type}
  (respond : W -> forall o : Op, reply o * W) (posOf : Servo -> Z)
  (a : Arm) (joints : list (string * list Servo)) (w : W) :
  (forall w' s, fst (respond w' (PresentPosition s)) = (posOf s, None)) ->
  Forall (fun js => snd js <> []) joints ->
  fst (run respond (GetAllAngles a joints) w)
  = ((MuLock :: readsOf joints ++ [MuUnlock])%list,
     Returned (anglesOf posOf joints ∅, None)).
Proof.
  intros Hpos Hne. unfold GetAllAngles. cbn [bind trigger run].
  destruct (respond w MuLock) as [r0 w0]. cbn [bind]. rewrite run_defer.
  destruct (run_rangeAngles respond posOf joints Hpos Hne ∅ w0) as [w1 Hrun].
  rewrite Hrun. reflexivity.
Qed.

(** On the eight-servo arm with every servo at 2048, every joint reads
    2048. *)
Lemma GetAllAngles_means_witness :
  snd (fst (run atRest (GetAllAngles eightServoArm
                          (map_to_list (Joints eightServoArm))) tt))
  = Returned (anglesOf (fun _ => 2048) (map_to_list (Joints eightServoArm)) ∅, None)
  /\ anglesOf (fun _ => 2048) (map_to_list (Joints eightServoArm)) ∅ !! "Shoulder"
     = Some 2048.
Proof.
  split; [ | vm_compute; reflexivity].
  rewrite (GetAllAngles_means atRest (fun _ => 2048) eightServoArm
             (map_to_list (Joints eightServoArm)) tt (fun w s => eq_refl)).
  - reflexivity.
  - vm_compute. repeat constructor; discriminate.
Defined.

(** ** Building the arm *)

(** X8. [NewArm] needs eight servos: with fewer its slice indexing
    panics; with eight or more it builds the joint table over the first
    eight, in bus order, so that [GetAllServos] lists exactly those
    eight and any further servo is left out of every joint. *)
Theorem NewArm_joint_table (servos : list Servo) :
  ((length servos < 8)%nat -> NewArm servos = None)
  /\ ((8 <= length servos)%nat ->
      exists a, NewArm servos = Some a
                /\ GetAllServos a = take 8 servos
                /\ forall jointName, GetServos a jointName <> [] ->
                                     jointName ∈ JointOrder).
Proof.
  split.
  - intros Hlen.
    do 8 (destruct servos as [ | ? servos]; [reflexivity | ]).
    cbn [length] in Hlen. lia.
  - intros Hlen.
    do 8 (destruct servos as [ | ? servos]; [cbn [length] in Hlen; lia | ]).
    eexists. split; [reflexivity | ]. split; [vm_compute; reflexivity | ].
    intros jointName Hj. unfold GetServos in Hj. cbn [Joints] in Hj.
    unfold JointOrder.
    repeat (rewrite lookup_insert in Hj;
            destruct (decide (_ = jointName)) as [<- | _]; [set_solver | ]).
    rewrite lookup_empty in Hj. contradiction.
Qed.

Lemma NewArm_joint_table_witness :
  NewArm [1; 2; 3; 4; 5; 6; 7]%nat = None
  /\ exists a, NewArm [1; 2; 3; 4; 5; 6; 7; 8; 9]%nat = Some a
               /\ GetAllServos a = [1; 2; 3; 4; 5; 6; 7; 8]%nat.
Proof.
  split.
  - apply (proj1 (NewArm_joint_table _)). cbn. lia.
  - destruct (proj2 (NewArm_joint_table [1; 2; 3; 4; 5; 6; 7; 8; 9]%nat))
      as (a & Ha & Hs & _); [cbn; lia | ].
    exists a. split; [exact Ha | exact Hs].
Defined.

(** ** Loops over the servos *)

Lemma run_setTorques {W : Type} (respond : W -> forall o : Op, reply o * W)
  (on : bool) (servos : list Servo) :
  forall w, exists n e w1,
    run respond (setTorques on servos) w
    = (map (SetTorqueEnable on) (take n servos), Returned e, w1)
    /\ (n <= length servos)%nat
    /\ (e = None -> n = length servos)
    /\ (e <> None -> (1 <= n)%nat).
Proof.
  induction servos as [ | s rest IH]; intros w.
  - exists 0%nat, None, w. repeat split; auto; congruence.
  - cbn [setTorques bind trigger run].
    destruct (respond w (SetTorqueEnable on s)) as [[msg | ] w0]; cbn [bind run].
    + exists 1%nat, (Some msg), w0. cbn. repeat split; auto; try lia; congruence.
    + destruct (IH w0) as (n & e & w1 & Hrun & Hn & Hnone & Hsome).
      rewrite Hrun. exists (S n), e, w1. cbn.
      repeat split; auto; lia.
Qed.

Lemma run_torque_method {W : Type}
  (respond : W -> forall o : Op, reply o * W) (a : Arm) (on : bool) (w : W) :
  exists n e,
    fst (run respond (trigger MuLock ;;;
           defer MuUnlock (setTorques on (GetAllServos a))) w)
    = ((MuLock :: map (SetTorqueEnable on) (take n (GetAllServos a))
          ++ [MuUnlock])%list, Returned e)
    /\ (n <= length (GetAllServos a))%nat
    /\ (e = None -> n = length (GetAllServos a))
    /\ (e <> None -> (1 <= n)%nat).
Proof.
  cbn [bind trigger run].
  destruct (respond w MuLock) as [r0 w0]. cbn [bind]. rewrite run_defer.
  destruct (run_setTorques respond on (GetAllServos a) w0)
    as (n & e & w1 & Hrun & Hrest).
  rewrite Hrun. exists n, e. split; [reflexivity | exact Hrest].
Qed.

Lemma history_setTorques {W : Type} (respond : W -> forall o : Op, reply o * W)
  (on : bool) (servos : list Servo) :
  forall w,
    (snd (fst (run respond (setTorques on servos) w)) = Returned None
     /\ history respond (setTorques on servos) w
        = map (fun s => Event (SetTorqueEnable on s) None) servos)
    \/ (exists pre s post msg,
          servos = (pre ++ s :: post)%list
          /\ snd (fst (run respond (setTorques on servos) w)) = Returned (Some msg)
          /\ history respond (setTorques on servos) w
             = (map (fun s => Event (SetTorqueEnable on s) None) pre
                  ++ [Event (SetTorqueEnable on s) (Some msg)])%list).
Proof.
  induction servos as [ | s rest IH]; intros w.
  - left. split; reflexivity.
  - cbn [setTorques bind trigger run history].
    destruct (respond w (SetTorqueEnable on s)) as [[msg | ] w0]; cbn [bind run history].
    + right. exists [], s, rest, msg. repeat split.
    + destruct (IH w0) as [[Hout Hh] | (pre & s' & post & msg & -> & Hout & Hh)].
      * left. destruct (run respond (setTorques on rest) w0) as [[tr out] w1].
        cbn [fst snd] in *. split; [exact Hout | ]. rewrite Hh. reflexivity.
      * right. exists (s :: pre), s', post, msg.
        destruct (run respond (setTorques on (pre ++ s' :: post)) w0) as [[tr out] w1].
        cbn [fst snd] in *. split; [reflexivity | ]. split; [exact Hout | ].
        rewrite Hh. reflexivity.
Qed.

(** A method that locks, defers the unlocking and runs a loop [body]
    over the servos that ends in one of the two ways of
    [history_setTorques]. *)
Lemma history_locked_loop {W : Type} (respond : W -> forall o : Op, reply o * W)
  (body : prog (option string)) (servos : list Servo)
  (cmd : Servo -> option string -> event Op reply) (w : W) :
  (forall w0,
     (snd (fst (run respond body w0)) = Returned None
      /\ history respond body w0 = map (fun s => cmd s None) servos)
     \/ (exists pre s post msg,
           servos = (pre ++ s :: post)%list
           /\ snd (fst (run respond body w0)) = Returned (Some msg)
           /\ history respond body w0
              = (map (fun s => cmd s None) pre ++ [cmd s (Some msg)])%list)) ->
  (snd (fst (run respond (trigger MuLock ;;; defer MuUnlock body) w))
   = Returned None
   /\ history respond (trigger MuLock ;;; defer MuUnlock body) w
      = (Event MuLock tt :: map (fun s => cmd s None) servos
           ++ [Event MuUnlock tt])%list)
  \/ (exists pre s post msg,
        servos = (pre ++ s :: post)%list
        /\ snd (fst (run respond (trigger MuLock ;;; defer MuUnlock body) w))
           = Returned (Some msg)
        /\ history respond (trigger MuLock ;;; defer MuUnlock body) w
           = (Event MuLock tt :: map (fun s => cmd s None) pre
                ++ [cmd s (Some msg); Event MuUnlock tt])%list).
Proof.
  intros Hbody. cbn [bind trigger run history].
  destruct (respond w MuLock) as [[] w0]. cbn [bind].
  rewrite run_defer, history_defer.
  destruct (Hbody w0) as [[Hout Hh] | (pre & s & post & msg & Hs & Hout & Hh)];
    destruct (run respond body w0) as [[tr out] w1]; cbn [fst snd] in *; subst out;
    destruct (fst (respond w1 MuUnlock)).
  - left. split; [reflexivity | ]. rewrite Hh. reflexivity.
  - right. exists pre, s, post, msg. split; [exact Hs | ].
    split; [reflexivity | ]. rewrite Hh, <- app_assoc. reflexivity.
Qed.

(** X9. [TorqueOn] and [TorqueOff] lock, command the servos in joint
    order and unlock in every case.  Either every servo answers nil,
    and then all of them are commanded and nil is returned; or the
    commands stop at the first servo that answers with an error: the
    servos before it answered nil, no servo after it is commanded, and
    its error is what is returned. *)
Theorem Torque_stops_at_first_failure {W : Type}
  (respond : W -> forall o : Op, reply o * W) (a : Arm) (on : bool) (w : W) :
  let method := if on then TorqueOn a else TorqueOff a in
  (snd (fst (run respond method w)) = Returned None
   /\ history respond method w
      = (Event MuLock tt
           :: map (fun s => Event (SetTorqueEnable on s) None) (GetAllServos a)
           ++ [Event MuUnlock tt])%list)
  \/ (exists pre s post msg,
        GetAllServos a = (pre ++ s :: post)%list
        /\ snd (fst (run respond method w)) = Returned (Some msg)
        /\ history respond method w
           = (Event MuLock tt
                :: map (fun s => Event (SetTorqueEnable on s) None) pre
                ++ [Event (SetTorqueEnable on s) (Some msg);
                    Event MuUnlock tt])%list).
Proof.
  destruct on; cbv zeta.
  - apply (history_locked_loop respond (setTorques true (GetAllServos a))
             (GetAllServos a) (fun s r => Event (SetTorqueEnable true s) r) w).
    intros w0. apply history_setTorques.
  - apply (history_locked_loop respond (setTorques false (GetAllServos a))
             (GetAllServos a) (fun s r => Event (SetTorqueEnable false s) r) w).
    intros w0. apply history_setTorques.
Qed.

(** ** Waiting for the servos *)

Lemma run_pollMoving_movingFor (servos : list Servo) :
  forall allAtPos n,
    run movingFor (pollMoving servos allAtPos) n
    = (map Moving servos,
       Returned (inl (match servos with
                      | [] => allAtPos
                      | _ => if (n =? 0)%nat then allAtPos else false
                      end)), n).
Proof.
  induction servos as [ | s rest IH]; intros allAtPos n; [reflexivity | ].
  cbn [pollMoving bind trigger run movingFor map]. rewrite IH.
  destruct n as [ | n]; destruct rest; reflexivity.
Qed.

Lemma run_waitLoop_movingFor (a : Arm) :
  GetAllServos a <> [] ->
  forall fuel k,
    run movingFor (waitLoop a fuel) k
    = if (Nat.max k 1 <=? fuel)%nat
      then (pollRounds a (Nat.max k 1), Returned None, 0%nat)
      else (pollRounds a fuel, Running, (k - fuel)%nat).
Proof.
  intros Hne. unfold pollRounds.
  induction fuel as [ | fuel IH]; intros k.
  - cbn [waitLoop run]. destruct (Nat.leb_spec (Nat.max k 1) 0); [lia | ].
    rewrite Nat.sub_0_r. reflexivity.
  - cbn [waitLoop bind trigger run movingFor].
    rewrite run_bind, run_pollMoving_movingFor.
    destruct (GetAllServos a) as [ | s rest] eqn:Hs; [congruence | ].
    destruct (Nat.eqb_spec (pred k) 0) as [Hk | Hk].
    + cbn [run]. destruct (Nat.leb_spec (Nat.max k 1) (S fuel)); [ | lia].
      replace (Nat.max k 1) with 1%nat by lia. rewrite Hk.
      cbn [replicate concat]. rewrite !app_nil_r. reflexivity.
    + rewrite IH.
      replace (Nat.max (pred k) 1) with (pred k) by lia.
      replace (Nat.max k 1) with (S (pred k)) by lia.
      destruct (Nat.leb_spec (pred k) fuel), (Nat.leb_spec (S (pred k)) (S fuel));
        try lia.
      * reflexivity.
      * replace (k - S fuel)%nat with (pred k - fuel)%nat by lia. reflexivity.
Qed.

(** One pass of [pollMoving]: either every servo answers without an
    error, and the pass says whether all are at rest, or it stops at
    the first servo that answers with an error. *)
Lemma history_pollMoving {W : Type} (respond : W -> forall o : Op, reply o * W)
  (servos : list Servo) :
  forall allAtPos w,
    (exists answers,
       length answers = length servos
       /\ history respond (pollMoving servos allAtPos) w = polled servos answers
       /\ snd (fst (run respond (pollMoving servos allAtPos) w))
          = Returned (inl (allAtPos && forallb (fun m => m =? 0)%Z answers)))
    \/ (exists answers s m e,
          servos !! length answers = Some s
          /\ history respond (pollMoving servos allAtPos) w
             = (polled servos answers ++ [Event (Moving s) (m, Some e)])%list
          /\ snd (fst (run respond (pollMoving servos allAtPos) w))
             = Returned (inr e)).
Proof.
  induction servos as [ | s rest IH]; intros allAtPos w.
  - left. exists []. repeat split. cbn. rewrite andb_true_r. reflexivity.
  - cbn [pollMoving bind trigger run history].
    destruct (respond w (Moving s)) as [[m [e | ]] w0]; cbn [bind run history].
    + right. exists [], s, m, e. repeat split.
    + destruct (IH (if (m =? 0)%Z then allAtPos else false) w0)
        as [(answers & Hlen & Hh & Hout) | (answers & s' & m' & e & Hs & Hh & Hout)];
        destruct (run respond (pollMoving rest _) w0) as [[tr out] w1];
        cbn [fst snd] in *.
      * left. exists (m :: answers). split; [cbn [length]; lia | ].
        split; [rewrite Hh; reflexivity | ].
        rewrite Hout. cbn [forallb]. f_equal. f_equal.
        destruct (m =? 0)%Z, allAtPos; reflexivity.
      * right. exists (m :: answers), s', m', e.
        split; [exact Hs | ]. split; [rewrite Hh; reflexivity | exact Hout].
Qed.

Lemma forallb_zero (answers : list Z) :
  (forallb (fun m => m =? 0)%Z answers = true -> Forall (fun m => m = 0%Z) answers)
  /\ (forallb (fun m => m =? 0)%Z answers = false ->
      Exists (fun m => m <> 0%Z) answers).
Proof.
  induction answers as [ | m rest [IHt IHf]]; cbn [forallb].
  - split; [constructor | discriminate].
  - destruct (Z.eqb_spec m 0) as [-> | Hm]; cbn [andb]; split.
    + intros H. constructor; [reflexivity | apply IHt, H].
    + intros H. apply Exists_cons_tl, IHf, H.
    + discriminate.
    + intros _. apply Exists_cons_hd, Hm.
Qed.

(** The loop of [WaitForMovement] round by round. *)
Lemma history_waitLoop {W : Type} (respond : W -> forall o : Op, reply o * W)
  (a : Arm) :
  forall fuel w,
    let servos := GetAllServos a in
    let out := snd (fst (run respond (waitLoop a fuel) w)) in
    let h := history respond (waitLoop a fuel) w in
    (out = Returned None
     /\ exists earlier last,
          h = (concat (map (pollRound servos) earlier) ++ pollRound servos last)%list
          /\ Forall (busy servos) earlier
          /\ length last = length servos
          /\ Forall (fun m => m = 0%Z) last)
    \/ (exists e, out = Returned (Some e)
          /\ exists earlier answers s m,
               servos !! length answers = Some s
               /\ h = (concat (map (pollRound servos) earlier)
                         ++ pollRound servos answers
                         ++ [Event (Moving s) (m, Some e)])%list
               /\ Forall (busy servos) earlier)
    \/ (out = Running
        /\ exists rounds,
             length rounds = fuel
             /\ h = concat (map (pollRound servos) rounds)
             /\ Forall (busy servos) rounds).
Proof.
  induction fuel as [ | fuel IH]; intros w; cbv zeta.
  - right. right. split; [reflexivity | ]. exists []. repeat split. constructor.
  - cbn [waitLoop bind trigger run history].
    destruct (respond w (Sleep 200)) as [[] w0]. cbn [bind].
    rewrite run_bind, history_bind.
    destruct (history_pollMoving respond (GetAllServos a) true w0)
      as [(answers & Hlen & Hh & Hout) | (answers & s & m & e & Hs & Hh & Hout)];
      destruct (run respond (pollMoving (GetAllServos a) true) w0)
        as [[tr out] w1]; cbn [fst snd] in *; subst out.
    + cbn [andb]. destruct (forallb (fun m => (m =? 0)%Z) answers) eqn:Hall.
      * left. cbn [run history fst snd]. split; [reflexivity | ].
        exists [], answers. cbn [map concat app]. rewrite app_nil_r, Hh.
        split; [reflexivity | ]. split; [constructor | ].
        split; [exact Hlen | apply forallb_zero, Hall].
      * assert (Hbusy : busy (GetAllServos a) answers).
        { split; [exact Hlen | apply forallb_zero, Hall]. }
        specialize (IH w1). cbv zeta in IH.
        destruct (run respond (waitLoop a fuel) w1) as [[tr2 out2] w2].
        cbn [fst snd] in *.
        destruct IH as [(-> & earlier & last & Hh2 & Hb & Hl & Hz)
                       | [(e & -> & earlier & ans & s & m & Hs & Hh2 & Hb)
                         | (-> & rounds & Hr & Hh2 & Hb)]].
        -- left. split; [reflexivity | ]. exists (answers :: earlier), last.
           rewrite Hh, Hh2. cbn [map concat pollRound].
           split; [rewrite <- !app_assoc; reflexivity | ].
           split; [constructor; assumption | ]. split; assumption.
        -- right. left. exists e. split; [reflexivity | ].
           exists (answers :: earlier), ans, s, m. split; [exact Hs | ].
           rewrite Hh, Hh2. cbn [map concat pollRound].
           split; [rewrite <- !app_assoc; reflexivity | constructor; assumption].
        -- right. right. split; [reflexivity | ]. exists (answers :: rounds).
           split; [cbn [length]; lia | ].
           rewrite Hh, Hh2. cbn [map concat pollRound].
           split; [reflexivity | constructor; assumption].
    + right. left. cbn [run history fst snd]. exists e. split; [reflexivity | ].
      exists [], answers, s, m. split; [exact Hs | ].
      rewrite Hh. cbn [map concat app pollRound]. rewrite app_nil_r.
      split; [reflexivity | constructor].
Qed.

(** X10. [WaitForMovement] holds the lock and goes round: a 200 ms
    sleep, then one poll of the servos in joint order.  Whatever the
    servos answer, it returns nil only at the end of a round in which
    every servo was polled and every one answered that it is not
    moving, after rounds in each of which every servo was polled and at
    least one answered that it is moving; it returns an error only when
    a servo answers a poll with that error, and then at once, without
    polling the servos after it; in both cases it unlocks.  A budget of
    rounds that all find a servo moving leaves it in the loop, still
    holding the lock.  On an arm with servos that stop after [k] sleeps
    it returns nil after exactly max(k, 1) rounds. *)
Theorem WaitForMovement_polls_until_rest {W : Type}
  (respond : W -> forall o : Op, reply o * W) (w : W)
  (a : Arm) (k fuel : nat) :
  GetAllServos a <> [] ->
  (let servos := GetAllServos a in
   let out := snd (fst (run respond (WaitForMovement a fuel) w)) in
   let h := history respond (WaitForMovement a fuel) w in
   (out = Returned None
    /\ exists earlier last,
         h = (Event MuLock tt :: concat (map (pollRound servos) earlier)
                ++ pollRound servos last ++ [Event MuUnlock tt])%list
         /\ Forall (busy servos) earlier
         /\ length last = length servos
         /\ Forall (fun m => m = 0%Z) last)
   \/ (exists e, out = Returned (Some e)
         /\ exists earlier answers s m,
              servos !! length answers = Some s
              /\ h = (Event MuLock tt :: concat (map (pollRound servos) earlier)
                        ++ pollRound servos answers
                        ++ [Event (Moving s) (m, Some e); Event MuUnlock tt])%list
              /\ Forall (busy servos) earlier)
   \/ (out = Running
       /\ exists rounds,
            length rounds = fuel
            /\ h = Event MuLock tt :: concat (map (pollRound servos) rounds)
            /\ Forall (busy servos) rounds))
  /\ ((Nat.max k 1 <= fuel)%nat ->
      run movingFor (WaitForMovement a fuel) k
      = ((MuLock :: pollRounds a (Nat.max k 1) ++ [MuUnlock])%list,
         Returned None, 0%nat))
  /\ ((fuel < Nat.max k 1)%nat ->
      fst (run movingFor (WaitForMovement a fuel) k)
      = (MuLock :: pollRounds a fuel, Running)).
Proof.
  intros Hne. split.
  - cbv zeta. unfold WaitForMovement. cbn [bind trigger run history].
    destruct (respond w MuLock) as [[] w0]. cbn [bind].
    rewrite run_defer, history_defer.
    pose proof (history_waitLoop respond a fuel w0) as Hloop. cbv zeta in Hloop.
    destruct (run respond (waitLoop a fuel) w0) as [[tr out] w1].
    cbn [fst snd] in *.
    destruct Hloop as [(-> & earlier & last & Hh & Hb & Hl & Hz)
                      | [(e & -> & earlier & ans & s & m & Hs & Hh & Hb)
                        | (-> & rounds & Hr & Hh & Hb)]].
    + left. split; [reflexivity | ]. exists earlier, last.
      destruct (fst (respond w1 MuUnlock)).
      rewrite Hh, <- !app_assoc. repeat split; assumption.
    + right. left. exists e. split; [reflexivity | ].
      exists earlier, ans, s, m. split; [exact Hs | ].
      destruct (fst (respond w1 MuUnlock)).
      rewrite Hh, <- !app_assoc. split; [reflexivity | exact Hb].
    + right. right. split; [reflexivity | ]. exists rounds.
      rewrite Hh. repeat split; assumption.
  - unfold WaitForMovement. cbn [bind trigger run movingFor].
    rewrite run_defer, (run_waitLoop_movingFor a Hne). split; intros Hk.
    + destruct (Nat.leb_spec (Nat.max k 1) fuel); [reflexivity | lia].
    + destruct (Nat.leb_spec (Nat.max k 1) fuel); [lia | reflexivity].
Qed.

Lemma WaitForMovement_polls_until_rest_witness :
  List.filter isSleep
    (fst (fst (run movingFor (WaitForMovement eightServoArm 5) 3%nat)))
  = [Sleep 200; Sleep 200; Sleep 200]
  /\ snd (fst (run movingFor (WaitForMovement eightServoArm 5) 3%nat))
     = Returned None.
Proof.
  rewrite (proj1 (proj2 (WaitForMovement_polls_until_rest movingFor 3%nat
                           eightServoArm 3 5 ltac:(vm_compute; discriminate)))
             ltac:(cbn; lia)).
  split; vm_compute; reflexivity.
Defined.

(** ** Closing the arm *)

Lemma guarded_bind {A B : Type} (p : prog A) (f : A -> prog B) :
  guarded false p -> (forall a, guarded false (f a)) -> guarded false (bind p f).
Proof.
  intros Hp Hf. apply holds_bind. revert Hp.
  apply holds_mono; [ | auto]. intros a h ->. apply Hf.
Qed.

Lemma guarded_logError (what : string) (e : option string) :
  guarded false (logError what e).
Proof. destruct e; cbn; auto. Qed.

(** X11. [Close] keeps the lock discipline of the methods it calls:
    whatever the servos answer and whichever way it takes, it reaches a
    servo only while holding [moveLock] and never ends holding it. *)
Theorem Close_guarded (a : Arm) (joints : list (string * list Servo))
  (home : list string) (fuelHome fuelSleep : nat) :
  guarded false (Close a joints home fuelHome fuelSleep).
Proof.
  unfold Close.
  apply guarded_bind; [apply guarded_GetAllAngles | intros r].
  apply guarded_bind; [apply guarded_logError | intros _].
  apply guarded_bind.
  { destruct (alreadyAtSleep (fst r)); [reflexivity | ].
    apply guarded_bind; [apply guarded_HomePosition | intros e].
    apply guarded_logError. }
  intros _. apply guarded_bind.
  { apply guarded_bind; [apply guarded_SleepPosition | intros e].
    apply guarded_logError. }
  intros _. apply guarded_bind; [apply guarded_TorqueOff | intros e].
  apply guarded_logError.
Qed.

Section Filters.
Variable bad : Op -> bool.
Hypothesis bad_lock : bad MuLock = false.
Hypothesis bad_unlock : bad MuUnlock = false.
Hypothesis bad_sleep : forall ms, bad (Sleep ms) = false.
Hypothesis bad_log : forall msg, bad (Errorf msg) = false.
Hypothesis bad_moving : forall s, bad (Moving s) = false.
Hypothesis bad_position : forall s, bad (PresentPosition s) = false.

Lemma never_logError (what : string) (e : option string) :
  never bad (logError what e).
Proof. destruct e; cbn; auto. Qed.

Lemma never_pollMoving (servos : list Servo) :
  forall allAtPos, never bad (pollMoving servos allAtPos).
Proof.
  induction servos as [ | s rest IH]; intros allAtPos; cbn; auto.
  split; [apply bad_moving | intros [isMoving [e | ]]]; cbn; auto.
Qed.

Lemma never_WaitForMovement (a : Arm) (fuel : nat) :
  never bad (WaitForMovement a fuel).
Proof.
  unfold WaitForMovement. cbn [bind trigger never].
  split; [exact bad_lock | intros _].
  apply never_defer; [exact bad_unlock | ].
  induction fuel as [ | fuel IH]; cbn [waitLoop bind trigger never]; [exact I | ].
  split; [apply bad_sleep | intros _].
  apply never_bind; [apply never_pollMoving | ].
  intros [[ | ] | e]; cbn; auto.
Qed.

Lemma never_sumPositions (servos : list Servo) :
  forall angleSum, never bad (sumPositions servos angleSum).
Proof.
  induction servos as [ | s rest IH]; intros angleSum; cbn; auto.
  split; [apply bad_position | intros [pos [e | ]]]; cbn; auto.
Qed.

Lemma never_GetAllAngles (a : Arm) (joints : list (string * list Servo)) :
  never bad (GetAllAngles a joints).
Proof.
  unfold GetAllAngles. cbn [bind trigger never].
  split; [exact bad_lock | intros _].
  apply never_defer; [exact bad_unlock | ].
  generalize (∅ : gmap string Z).
  induction joints as [ | [jointName servos] rest IH]; intros angles;
    cbn [rangeAngles]; [exact I | ].
  apply never_bind; [apply never_sumPositions | ].
  intros [angleSum | e]; [ | exact I].
  destruct servos; [exact I | apply IH].
Qed.

Lemma never_setTorques (on : bool) (servos : list Servo) :
  (forall on' s, bad (SetTorqueEnable on' s) = false) ->
  never bad (setTorques on servos).
Proof.
  intros Ht. induction servos as [ | s rest IH]; cbn; auto.
  split; [apply Ht | intros [e | ]]; cbn; auto.
Qed.

Lemma never_TorqueOff (a : Arm) :
  (forall on s, bad (SetTorqueEnable on s) = false) ->
  never bad (TorqueOff a).
Proof.
  intros Ht. unfold TorqueOff. cbn [bind trigger never].
  split; [exact bad_lock | intros _].
  apply never_defer; [exact bad_unlock | apply never_setTorques, Ht].
Qed.

Lemma never_JointTo (a : Arm) (jointName : string) (pos : Z) (block : bool) :
  (forall p b servos, bad (GoalAndTrack p b servos) = false) ->
  never bad (JointTo a jointName pos block).
Proof.
  intros Hg. unfold JointTo. cbn [bind trigger never].
  split; [apply Hg | intros [e | ]]; cbn; auto.
Qed.

Lemma never_homeJoints (a : Arm) (joints : list string) :
  (forall p b servos, bad (GoalAndTrack p b servos) = false) ->
  never bad (homeJoints a joints).
Proof.
  intros Hg. induction joints as [ | j rest IH]; cbn [homeJoints]; [exact I | ].
  apply never_bind; [apply never_JointTo, Hg | intros _; exact IH].
Qed.

Lemma never_HomePosition (a : Arm) (joints : list string) (fuel : nat) :
  (forall p b servos, bad (GoalAndTrack p b servos) = false) ->
  never bad (HomePosition a joints fuel).
Proof.
  intros Hg. unfold HomePosition. cbn [bind trigger never].
  split; [exact bad_lock | intros _].
  apply never_bind; [apply never_homeJoints, Hg | intros _].
  cbn [bind trigger never]. split; [exact bad_unlock | intros _].
  apply never_WaitForMovement.
Qed.

Lemma never_SleepPosition (a : Arm) (fuel : nat) :
  (forall p b servos, bad (GoalAndTrack p b servos) = false) ->
  never bad (SleepPosition a fuel).
Proof.
  intros Hg. unfold SleepPosition. cbn [bind trigger never].
  split; [exact bad_lock | intros _].
  do 6 (apply never_bind; [apply never_JointTo, Hg | intros _]).
  cbn [bind trigger never]. split; [exact bad_unlock | intros _].
  apply never_WaitForMovement.
Qed.
End Filters.

Lemma total_JointTo (a : Arm) (jointName : string) (pos : Z) (block : bool) :
  total (JointTo a jointName pos block).
Proof. unfold JointTo. cbn. intros [e | ]; cbn; auto. Qed.

Lemma emits_JointTo (a : Arm) (jointName : string) (pos : Z) (block : bool) :
  emits isGoal (JointTo a jointName pos block)
        [GoalAndTrack (Z.max 0 (Z.min 4095 pos)) block (GetServos a jointName)].
Proof.
  unfold JointTo. rewrite clamp_max_min. cbn.
  split; [reflexivity | intros [e | ]]; cbn; auto.
Qed.

Lemma emits_homeJoints (a : Arm) (joints : list string) :
  total (homeJoints a joints)
  /\ emits isGoal (homeJoints a joints) (homeGoals a joints).
Proof.
  induction joints as [ | j rest [IHt IHe]]; cbn [homeJoints homeGoals map].
  - split; [exact I | reflexivity].
  - split.
    + apply total_bind; [apply total_JointTo | intros _; exact IHt].
    + apply (emits_bind isGoal (JointTo a j 2048 false) _
               [GoalAndTrack 2048 false (GetServos a j)] (homeGoals a rest)).
      * apply total_JointTo.
      * apply (emits_JointTo a j 2048 false).
      * intros _. exact IHe.
Qed.

Lemma emits_unlock_wait (a : Arm) (fuel : nat) :
  emits isGoal (trigger MuUnlock ;;; WaitForMovement a fuel) [].
Proof.
  apply never_emits. cbn [bind trigger never]. split; [reflexivity | intros _].
  apply never_goal_WaitForMovement.
Qed.

Lemma emits_HomePosition (a : Arm) (joints : list string) (fuel : nat) :
  emits isGoal (HomePosition a joints fuel) (homeGoals a joints).
Proof.
  unfold HomePosition. cbn [bind trigger emits isGoal]. intros _.
  rewrite <- (app_nil_r (homeGoals a joints)).
  apply emits_bind; [apply emits_homeJoints | apply emits_homeJoints | intros _].
  apply emits_unlock_wait.
Qed.

Lemma emits_SleepPosition (a : Arm) (fuel : nat) :
  emits isGoal (SleepPosition a fuel) (sleepGoals a).
Proof.
  unfold SleepPosition, sleepGoals. cbn [bind trigger emits isGoal]. intros _.
  repeat (match goal with
          | |- emits isGoal (JointTo ?a ?j ?pos ?b ;;; _) (?g :: ?rest) =>
              apply (emits_bind isGoal (JointTo a j pos b) _ [g] rest);
              [apply total_JointTo | apply (emits_JointTo a j pos b) | intros _]
          end).
  apply emits_unlock_wait.
Qed.

Lemma filter_torque_map (on : bool) (servos : list Servo) :
  List.filter isTorque (map (SetTorqueEnable on) servos)
  = map (SetTorqueEnable on) servos.
Proof. induction servos as [ | s rest IH]; cbn; [ | rewrite IH]; reflexivity. Qed.

Lemma filter_goal_map_torque (on : bool) (servos : list Servo) :
  List.filter isGoal (map (SetTorqueEnable on) servos) = [].
Proof. induction servos as [ | s rest IH]; cbn; auto. Qed.

(** A run of [p] followed by the logging of its error, when it
    returns: what a filter keeps of its trace is what it keeps of the
    trace of [p]. *)
Lemma run_then_log {W : Type} (respond : W -> forall o : Op, reply o * W)
  (bad : Op -> bool) (p : prog (option string)) (what : string)
  (w w' : W) (tr : list Op) :
  (forall msg, bad (Errorf msg) = false) ->
  run respond (e <- p ;; logError what e) w = (tr, Returned tt, w') ->
  exists trp e w1,
    run respond p w = (trp, Returned e, w1)
    /\ List.filter bad tr = List.filter bad trp.
Proof.
  intros Hlog Hrun.
  apply run_bind_returned in Hrun as (trp & e & w1 & trl & Hp & Hl & ->).
  exists trp, e, w1. split; [exact Hp | ].
  rewrite List.filter_app.
  assert (Hnil : List.filter bad trl = []).
  { pose proof (never_run respond bad (logError what e)) as Hn.
    specialize (Hn ltac:(destruct e; cbn; auto) w1).
    rewrite Hl in Hn. exact Hn. }
  rewrite Hnil, app_nil_r. reflexivity.
Qed.

Lemma alreadyAtSleep_empty : alreadyAtSleep ∅ = false.
Proof. reflexivity. Qed.

(** X12. A run of [Close] that comes to its end never reports an error
    and always goes through the sleep position and torque off: its
    goal commands are those of [SleepPosition], preceded by those of
    [HomePosition] exactly when some joint was read more than 15 away
    from both its sleep and its off angle (as every joint is when the
    angles could not be read at all), and its torque commands switch
    torque off, servo after servo in joint order, starting with the
    first. *)
Theorem Close_commands {W : Type} (respond : W -> forall o : Op, reply o * W)
  (a : Arm) (joints : list (string * list Servo)) (home : list string)
  (fuelHome fuelSleep : nat) (w w' : W) (tr : list Op) :
  run respond (Close a joints home fuelHome fuelSleep) w = (tr, Returned tt, w') ->
  exists tr0 angles err w0 n,
    run respond (GetAllAngles a joints) w = (tr0, Returned (angles, err), w0)
    /\ commands tr
       = ((if alreadyAtSleep angles then [] else homeGoals a home)
            ++ sleepGoals a)%list
    /\ List.filter isTorque tr
       = map (SetTorqueEnable false) (take n (GetAllServos a))
    /\ (GetAllServos a <> [] -> (1 <= n)%nat)
    /\ alreadyAtSleep ∅ = false.
Proof.
  intros Hrun. unfold Close in Hrun.
  apply run_bind_returned in Hrun as (tr0 & [angles err] & w0 & trA & Hget & HA & ->).
  cbn [fst snd] in HA.
  apply run_bind_returned in HA as (trL & [] & w1 & trB & Hlog & HB & ->).
  apply run_bind_returned in HB as (trH & [] & w2 & trC & Hhome & HC & ->).
  apply run_bind_returned in HC as (trS & [] & w3 & trT & Hsleep & Htorque & ->).
  (* the torque method *)
  destruct (run_then_log respond isTorque _ _ _ _ _ (fun _ => eq_refl) Htorque)
    as (trTO & eT & w4 & HrunT & HfT).
  destruct (run_then_log respond isGoal _ _ _ _ _ (fun _ => eq_refl) Htorque)
    as (trTO' & eT' & w4' & HrunT' & HgT).
  rewrite HrunT in HrunT'. injection HrunT' as <- <- <-.
  destruct (run_torque_method respond a false w3) as (n & e & Hshape & Hn & Hnone & Hsome).
  change (trigger MuLock ;;; defer MuUnlock (setTorques false (GetAllServos a)))
    with (TorqueOff a) in Hshape.
  rewrite HrunT in Hshape. cbn [fst] in Hshape. injection Hshape as -> ->.
  (* the sleep position *)
  destruct (run_then_log respond isTorque _ _ _ _ _ (fun _ => eq_refl) Hsleep)
    as (trSP & eS & w5 & HrunS & HfS).
  destruct (run_then_log respond isGoal _ _ _ _ _ (fun _ => eq_refl) Hsleep)
    as (trSP' & eS' & w5' & HrunS' & HgS).
  rewrite HrunS in HrunS'. injection HrunS' as <- <- <-.
  pose proof (emits_run respond isGoal _ _ (emits_SleepPosition a fuelSleep) w2) as HgS2.
  pose proof (never_run respond isTorque _
                (never_SleepPosition isTorque eq_refl eq_refl (fun _ => eq_refl)
                   (fun _ => eq_refl) (fun _ => eq_refl) a fuelSleep
                   (fun _ _ _ => eq_refl)) w2) as HfS2.
  rewrite HrunS in HgS2, HfS2. cbn [fst] in HgS2, HfS2.
  (* reading the angles and logging *)
  pose proof (never_run respond isGoal _
                (never_GetAllAngles isGoal eq_refl eq_refl (fun _ => eq_refl) a joints) w)
    as Hg0.
  pose proof (never_run respond isTorque _
                (never_GetAllAngles isTorque eq_refl eq_refl (fun _ => eq_refl) a joints) w)
    as Hf0.
  rewrite Hget in Hg0, Hf0. cbn [fst] in Hg0, Hf0.
  pose proof (never_run respond isGoal _
                (never_logError isGoal (fun _ => eq_refl) "failed to get angles: " err) w0)
    as HgL.
  pose proof (never_run respond isTorque _
                (never_logError isTorque (fun _ => eq_refl) "failed to get angles: " err) w0)
    as HfL.
  rewrite Hlog in HgL, HfL. cbn [fst] in HgL, HfL.
  (* homing, if any *)
  assert (HH : List.filter isGoal trH
               = (if alreadyAtSleep angles then [] else homeGoals a home)
               /\ List.filter isTorque trH = []).
  { destruct (alreadyAtSleep angles).
    - cbn [run] in Hhome. injection Hhome as <- _. split; reflexivity.
    - destruct (run_then_log respond isTorque _ _ _ _ _ (fun _ => eq_refl) Hhome)
        as (trHP & eH & w6 & HrunH & HfH).
      destruct (run_then_log respond isGoal _ _ _ _ _ (fun _ => eq_refl) Hhome)
        as (trHP' & eH' & w6' & HrunH' & HgH).
      rewrite HrunH in HrunH'. injection HrunH' as <- <- <-.
      pose proof (emits_run respond isGoal _ _ (emits_HomePosition a home fuelHome) w1)
        as HgH2.
      pose proof (never_run respond isTorque _
                    (never_HomePosition isTorque eq_refl eq_refl (fun _ => eq_refl)
                       (fun _ => eq_refl) (fun _ => eq_refl) a home fuelHome
                       (fun _ _ _ => eq_refl)) w1) as HfH2.
      rewrite HrunH in HgH2, HfH2. cbn [fst] in HgH2, HfH2.
      split; congruence. }
  destruct HH as [HgHome HfHome].
  exists tr0, angles, err, w0, n.
  split; [exact Hget | ]. split; [ | split; [ | split; [ | reflexivity]]].
  - unfold commands in *. rewrite !List.filter_app.
    rewrite Hg0, HgL, HgHome, HgS, HgS2, HgT. cbn [List.filter isGoal app].
    rewrite List.filter_app, filter_goal_map_torque. cbn [List.filter isGoal app].
    rewrite ?app_nil_r. reflexivity.
  - rewrite !List.filter_app.
    rewrite Hf0, HfL, HfHome, HfS, HfS2, HfT. cbn [List.filter isTorque app].
    rewrite List.filter_app, filter_torque_map. cbn [List.filter isTorque app].
    rewrite ?app_nil_r. reflexivity.
  - intros Hne. destruct e as [msg | ].
    + apply Hsome. discriminate.
    + rewrite (Hnone eq_refl). destruct (GetAllServos a); [congruence | cbn; lia].
Qed.

(** On the eight-servo arm with every servo at the centre position the
    shoulder is far from its sleep angle, so [Close] goes through the
    home position first. *)
Lemma Close_commands_witness :
  commands (fst (fst (run atRest
              (Close eightServoArm (map_to_list (Joints eightServoArm))
                 JointOrder 1 1) tt)))
  = (homeGoals eightServoArm JointOrder ++ sleepGoals eightServoArm)%list.
Proof.
  destruct (run atRest (Close eightServoArm (map_to_list (Joints eightServoArm))
                          JointOrder 1 1) tt) as [[tr out] w'] eqn:Hrun.
  assert (Hout : out = Returned tt).
  { apply (f_equal (fun x => snd (fst x))) in Hrun. vm_compute in Hrun.
    symmetry. exact Hrun. }
  subst out.
  destruct (Close_commands atRest _ _ _ _ _ _ _ _ Hrun)
    as (tr0 & angles & err & w0 & n & Hget & Hcmd & _).
  cbn [fst]. rewrite Hcmd.
  apply (f_equal (fun x => snd (fst x))) in Hget. vm_compute in Hget.
  injection Hget as <- _. reflexivity.
Defined.

(** ** The fixed positions and the profile settings *)




Lemma history_setAccelerations {W : Type}
  (respond : W -> forall o : Op, reply o * W) (accel : Z) (servos : list Servo) :
  forall w,
    (snd (fst (run respond (setAccelerations accel servos) w)) = Returned None
     /\ history respond (setAccelerations accel servos) w
        = map (fun s => Event (SetProfileAcceleration accel s) None) servos)
    \/ (exists pre s post msg,
          servos = (pre ++ s :: post)%list
          /\ snd (fst (run respond (setAccelerations accel servos) w))
             = Returned (Some msg)
          /\ history respond (setAccelerations accel servos) w
             = (map (fun s => Event (SetProfileAcceleration accel s) None) pre
                  ++ [Event (SetProfileAcceleration accel s) (Some msg)])%list).
Proof.
  induction servos as [ | s rest IH]; intros w.
  - left. split; reflexivity.
  - cbn [setAccelerations bind trigger run history].
    destruct (respond w (SetProfileAcceleration accel s)) as [[msg | ] w0];
      cbn [bind run history].
    + right. exists [], s, rest, msg. repeat split.
    + destruct (IH w0) as [[Hout Hh] | (pre & s' & post & msg & -> & Hout & Hh)].
      * left. destruct (run respond (setAccelerations accel rest) w0) as [[tr out] w1].
        cbn [fst snd] in *. split; [exact Hout | ]. rewrite Hh. reflexivity.
      * right. exists (s :: pre), s', post, msg.
        destruct (run respond (setAccelerations accel (pre ++ s' :: post)) w0)
          as [[tr out] w1].
        cbn [fst snd] in *. split; [reflexivity | ]. split; [exact Hout | ].
        rewrite Hh. reflexivity.
Qed.

Lemma history_setVelocities {W : Type}
  (respond : W -> forall o : Op, reply o * W) (veloc : Z) (servos : list Servo) :
  forall w,
    (snd (fst (run respond (setVelocities veloc servos) w)) = Returned None
     /\ history respond (setVelocities veloc servos) w
        = map (fun s => Event (SetProfileVelocity veloc s) None) servos)
    \/ (exists pre s post msg,
          servos = (pre ++ s :: post)%list
          /\ snd (fst (run respond (setVelocities veloc servos) w))
             = Returned (Some msg)
          /\ history respond (setVelocities veloc servos) w
             = (map (fun s => Event (SetProfileVelocity veloc s) None) pre
                  ++ [Event (SetProfileVelocity veloc s) (Some msg)])%list).
Proof.
  induction servos as [ | s rest IH]; intros w.
  - left. split; reflexivity.
  - cbn [setVelocities bind trigger run history].
    destruct (respond w (SetProfileVelocity veloc s)) as [[msg | ] w0];
      cbn [bind run history].
    + right. exists [], s, rest, msg. repeat split.
    + destruct (IH w0) as [[Hout Hh] | (pre & s' & post & msg & -> & Hout & Hh)].
      * left. destruct (run respond (setVelocities veloc rest) w0) as [[tr out] w1].
        cbn [fst snd] in *. split; [exact Hout | ]. rewrite Hh. reflexivity.
      * right. exists (s :: pre), s', post, msg.
        destruct (run respond (setVelocities veloc (pre ++ s' :: post)) w0)
          as [[tr out] w1].
        cbn [fst snd] in *. split; [reflexivity | ]. split; [exact Hout | ].
        rewrite Hh. reflexivity.
Qed.

(** X30. [SetAcceleration] and [SetVelocity] lock, give the servos the
    value in joint order and unlock in every case.  Either every servo
    answers nil, and then all of them are given the value and nil is
    returned; or the method stops at the first servo that answers with
    an error: the servos before it answered nil, no servo after it is
    given the value, and its error is what is returned. *)
Theorem SetAcceleration_SetVelocity_stop_at_first_failure {W : Type}
  (respond : W -> forall o : Op, reply o * W) (a : Arm) (value : Z) (w : W) :
  ((snd (fst (run respond (SetAcceleration a value) w)) = Returned None
    /\ history respond (SetAcceleration a value) w
       = (Event MuLock tt
            :: map (fun s => Event (SetProfileAcceleration value s) None)
                   (GetAllServos a)
            ++ [Event MuUnlock tt])%list)
   \/ (exists pre s post msg,
         GetAllServos a = (pre ++ s :: post)%list
         /\ snd (fst (run respond (SetAcceleration a value) w))
            = Returned (Some msg)
         /\ history respond (SetAcceleration a value) w
            = (Event MuLock tt
                 :: map (fun s => Event (SetProfileAcceleration value s) None) pre
                 ++ [Event (SetProfileAcceleration value s) (Some msg);
                     Event MuUnlock tt])%list))
  /\ ((snd (fst (run respond (SetVelocity a value) w)) = Returned None
       /\ history respond (SetVelocity a value) w
          = (Event MuLock tt
               :: map (fun s => Event (SetProfileVelocity value s) None)
                      (GetAllServos a)
               ++ [Event MuUnlock tt])%list)
      \/ (exists pre s post msg,
            GetAllServos a = (pre ++ s :: post)%list
            /\ snd (fst (run respond (SetVelocity a value) w))
               = Returned (Some msg)
            /\ history respond (SetVelocity a value) w
               = (Event MuLock tt
                    :: map (fun s => Event (SetProfileVelocity value s) None) pre
                    ++ [Event (SetProfileVelocity value s) (Some msg);
                        Event MuUnlock tt])%list)).
Proof.
  split.
  - apply (history_locked_loop respond (setAccelerations value (GetAllServos a))
             (GetAllServos a) (fun s r => Event (SetProfileAcceleration value s) r) w).
    intros w0. apply history_setAccelerations.
  - apply (history_locked_loop respond (setVelocities value (GetAllServos a))
             (GetAllServos a) (fun s r => Event (SetProfileVelocity value s) r) w).
    intros w0. apply history_setVelocities.
Qed.

End Wx250sFacts.

(* --------------------------------------------------------------------- *)

Module Wx250sSetupFacts.

Import Wx250sSetup ProgFacts.

Local Open Scope Z_scope.

Lemma wrap64_small (z : Z) :
  - 2 ^ 63 <= z < 2 ^ 63 -> Wx250s.wrap64 z = z.
Proof.
  intros Hz. unfold Wx250s.wrap64. rewrite Z.mod_small; lia.
Qed.

Lemma run_setServoDefaults {W : Type}
  (respond : W -> forall o : Op, reply o * W) (s : Servo) (w : W) :
  exists tr out w',
    run respond (setServoDefaults s) w = (tr, Returned out, w')
    /\ (out = None -> tr = defaults s)
    /\ (forall e, out = Some e -> exists what msg, e = Setting what s msg).
Proof.
  unfold setServoDefaults. cbn [bind trigger run].
  destruct (respond w (SetPGain 2800 s)) as [[e | ] w1]; cbn [bind run];
    [eexists _, _, _; split; [reflexivity | split; [discriminate | ]];
     intros ? [= <-]; eauto | ].
  destruct (respond w1 (SetIGain 50 s)) as [[e | ] w2]; cbn [bind run];
    [eexists _, _, _; split; [reflexivity | split; [discriminate | ]];
     intros ? [= <-]; eauto | ].
  destruct (respond w2 (SetTorqueEnable true s)) as [[e | ] w3]; cbn [bind run];
    [eexists _, _, _; split; [reflexivity | split; [discriminate | ]];
     intros ? [= <-]; eauto | ].
  destruct (respond w3 (SetProfileVelocity 50 s)) as [[e | ] w4]; cbn [bind run];
    [eexists _, _, _; split; [reflexivity | split; [discriminate | ]];
     intros ? [= <-]; eauto | ].
  destruct (respond w4 (SetProfileAcceleration 10 s)) as [[e | ] w5]; cbn [bind run];
    [eexists _, _, _; split; [reflexivity | split; [discriminate | ]];
     intros ? [= <-]; eauto | ].
  eexists _, _, _. split; [reflexivity | split; [reflexivity | discriminate]].
Qed.

Lemma configured_cons (i : Z) (s : Servo) (servos : list Servo) :
  configured i (s :: servos)
  = (NewServo i :: defaults s ++ configured (i + 1) servos)%list.
Proof.
  unfold configured. cbn [length].
  rewrite seqZ_cons by lia.
  replace (Z.pred (Z.of_nat (S (length servos)))) with (Z.of_nat (length servos))
    by lia.
  replace (Z.succ i) with (i + 1) by lia.
  reflexivity.
Qed.

Lemma run_servoLoop {W : Type} (respond : W -> forall o : Op, reply o * W)
  (n : Z) (Hn : n < 2 ^ 63 - 1) :
  forall fuel i servos w,
    1 <= i -> (Z.to_nat (n + 1 - i) <= fuel)%nat ->
    exists tr out w',
      run respond (servoLoop fuel i n servos) w = (tr, Returned out, w')
      /\ (forall all, out = inl all ->
            exists news, all = (servos ++ news)%list
                         /\ Z.of_nat (length news) = Z.max 0 (n + 1 - i)
                         /\ tr = configured i news)
      /\ (forall e, out <> inr (OpeningSerialPort e)).
Proof.
  induction fuel as [ | fuel IH]; intros i servos w Hi Hfuel.
  - cbn [servoLoop]. destruct (i <=? n) eqn:Hle; [lia | ].
    exists [], (inl servos), w. split; [reflexivity | ]. split; [ | discriminate].
    intros all [= <-]. exists []. rewrite app_nil_r. cbn. repeat split. lia.
  - cbn [servoLoop]. destruct (i <=? n) eqn:Hle.
    + cbn [bind trigger run].
      destruct (respond w (NewServo i)) as [[s | e] w1]; cbn [bind run].
      * rewrite run_bind.
        destruct (run_setServoDefaults respond s w1)
          as (tr1 & out1 & w2 & Hrun1 & Hdef & Herr).
        rewrite Hrun1. destruct out1 as [e | ].
        -- cbn [run]. eexists _, _, _. split; [reflexivity | ].
           split; [discriminate | ].
           intros e' [= ->]. destruct (Herr _ eq_refl) as (? & ? & [=]).
        -- rewrite wrap64_small by lia.
           destruct (IH (i + 1) (servos ++ [s])%list w2)
             as (tr2 & out2 & w3 & Hrun2 & Hall & Hopen); [lia | lia | ].
           rewrite Hrun2. eexists _, _, _. split; [reflexivity | ].
           split; [ | exact Hopen].
           intros all ->. destruct (Hall all eq_refl) as (news & -> & Hlen & ->).
           exists (s :: news). rewrite <- app_assoc. split; [reflexivity | ].
           split; [cbn [length]; lia | ].
           rewrite configured_cons, (Hdef eq_refl). reflexivity.
      * eexists _, _, _. split; [reflexivity | ]. split; discriminate.
    + exists [], (inl servos), w. split; [reflexivity | ]. split; [ | discriminate].
      intros all [= <-]. exists []. rewrite app_nil_r. cbn. repeat split. lia.
Qed.

Lemma run_findServos {W : Type} (respond : W -> forall o : Op, reply o * W)
  (usbPort baudRateStr armServoCountStr : string) (baudRate armServoCount : Z)
  (fuel : nat) (w : W) :
  Atoi baudRateStr = Some baudRate ->
  Atoi armServoCountStr = Some armServoCount ->
  armServoCount < 2 ^ 63 - 1 ->
  (Z.to_nat armServoCount <= fuel)%nat ->
  exists tr out w',
    run respond (findServos usbPort baudRateStr armServoCountStr fuel) w
    = (SerialOpen (options usbPort baudRate) :: tr, Returned out, w')
    /\ (forall servos, out = inl servos ->
          Z.of_nat (length servos) = Z.max 0 armServoCount
          /\ tr = configured 1 servos)
    /\ (forall e, out = inr (OpeningSerialPort e) -> tr = []).
Proof.
  intros Hb Hc Hn Hfuel. unfold findServos. rewrite Hb, Hc.
  cbn [bind trigger run].
  destruct (respond w (SerialOpen (options usbPort baudRate))) as [[e | ] w1];
    cbn [bind run].
  - eexists _, _, _. split; [reflexivity | ]. split; [discriminate | reflexivity].
  - destruct (run_servoLoop respond armServoCount Hn fuel 1 [] w1) as
      (tr & out & w' & Hrun & Hall & Hopen); [lia | lia | ].
    rewrite Hrun. exists tr, out, w'. split; [reflexivity | ]. split.
    + intros servos ->. destruct (Hall servos eq_refl) as (news & -> & Hlen & ->).
      cbn [app]. split; [lia | reflexivity].
    + intros e ->. destruct (Hopen e eq_refl).
Qed.

Lemma history_setServoDefaults {W : Type}
  (respond : W -> forall o : Op, reply o * W) (s : Servo) (w : W) :
  (snd (fst (run respond (setServoDefaults s) w)) = Returned None
   /\ history respond (setServoDefaults s) w = settled s)
  \/ (exists pre o r err,
        snd (fst (run respond (setServoDefaults s) w)) = Returned (Some err)
        /\ history respond (setServoDefaults s) w = (pre ++ [Event o r])%list
        /\ failure o r = Some err
        /\ Forall (fun ev => failed ev = None) pre).
Proof.
  unfold setServoDefaults, settled. cbn [bind trigger run history].
  destruct (respond w (SetPGain 2800 s)) as [[e | ] w1]; cbn [bind run history fst snd].
  { right. exists [], (SetPGain 2800 s), (Some e), (Setting "SetPGain" s e).
    repeat split. constructor. }
  destruct (respond w1 (SetIGain 50 s)) as [[e | ] w2]; cbn [bind run history fst snd].
  { right. exists [Event (SetPGain 2800 s) None], (SetIGain 50 s), (Some e),
      (Setting "SetIGain" s e).
    repeat split. repeat constructor. }
  destruct (respond w2 (SetTorqueEnable true s)) as [[e | ] w3];
    cbn [bind run history fst snd].
  { right. exists [Event (SetPGain 2800 s) None; Event (SetIGain 50 s) None],
      (SetTorqueEnable true s), (Some e), (Setting "SetTorqueEnable" s e).
    repeat split. repeat constructor. }
  destruct (respond w3 (SetProfileVelocity 50 s)) as [[e | ] w4];
    cbn [bind run history fst snd].
  { right. exists [Event (SetPGain 2800 s) None; Event (SetIGain 50 s) None;
                   Event (SetTorqueEnable true s) None],
      (SetProfileVelocity 50 s), (Some e), (Setting "SetProfileVelocity" s e).
    repeat split. repeat constructor. }
  destruct (respond w4 (SetProfileAcceleration 10 s)) as [[e | ] w5];
    cbn [bind run history fst snd].
  { right. exists [Event (SetPGain 2800 s) None; Event (SetIGain 50 s) None;
                   Event (SetTorqueEnable true s) None;
                   Event (SetProfileVelocity 50 s) None],
      (SetProfileAcceleration 10 s), (Some e),
      (Setting "SetProfileAcceleration" s e).
    repeat split. repeat constructor. }
  left. split; reflexivity.
Qed.

Lemma configuredAs_cons (i : Z) (s : Servo) (servos : list Servo) :
  configuredAs i (s :: servos)
  = (Event (NewServo i) (inl s) :: settled s ++ configuredAs (i + 1) servos)%list.
Proof.
  unfold configuredAs. cbn [length].
  rewrite seqZ_cons by lia.
  replace (Z.pred (Z.of_nat (S (length servos)))) with (Z.of_nat (length servos))
    by lia.
  replace (Z.succ i) with (i + 1) by lia.
  reflexivity.
Qed.

Lemma settled_succeeded (s : Servo) :
  Forall (fun ev => failed ev = None) (settled s).
Proof. repeat constructor. Qed.

Lemma history_servoLoop {W : Type} (respond : W -> forall o : Op, reply o * W)
  (n : Z) (Hn : n < 2 ^ 63 - 1) :
  forall fuel i servos w,
    1 <= i -> (Z.to_nat (n + 1 - i) <= fuel)%nat ->
    exists out,
      snd (fst (run respond (servoLoop fuel i n servos) w)) = Returned out
      /\ (forall all, out = inl all ->
            exists news, all = (servos ++ news)%list
                         /\ Z.of_nat (length news) = Z.max 0 (n + 1 - i)
                         /\ history respond (servoLoop fuel i n servos) w
                            = configuredAs i news)
      /\ (forall err, out = inr err ->
            exists pre o r,
              history respond (servoLoop fuel i n servos) w
              = (pre ++ [Event o r])%list
              /\ failure o r = Some err
              /\ Forall (fun ev => failed ev = None) pre).
Proof.
  induction fuel as [ | fuel IH]; intros i servos w Hi Hfuel.
  - cbn [servoLoop]. destruct (i <=? n) eqn:Hle; [lia | ].
    exists (inl servos). split; [reflexivity | ]. split; [ | discriminate].
    intros all [= <-]. exists []. rewrite app_nil_r. cbn. repeat split. lia.
  - cbn [servoLoop]. destruct (i <=? n) eqn:Hle.
    + cbn [bind trigger run history].
      destruct (respond w (NewServo i)) as [[s | e] w1]; cbn [bind run history].
      * rewrite run_bind, history_bind.
        destruct (history_setServoDefaults respond s w1)
          as [[Hout Hh] | (pre & o & r & err & Hout & Hh & Hfail & Hpre)];
          destruct (run respond (setServoDefaults s) w1) as [[tr1 out1] w2];
          cbn [fst snd] in *; subst out1.
        -- rewrite wrap64_small by lia.
           destruct (IH (i + 1) (servos ++ [s])%list w2)
             as (out2 & Hrun2 & Hall & Herr); [lia | lia | ].
           destruct (run respond (servoLoop fuel (i + 1) n (servos ++ [s])) w2)
             as [[tr2 o2] w3]. cbn [fst snd] in *. subst o2.
           exists out2. split; [reflexivity | ]. split.
           ++ intros all ->. destruct (Hall all eq_refl) as (news & -> & Hlen & Hh2).
              exists (s :: news). rewrite <- app_assoc. split; [reflexivity | ].
              split; [cbn [length]; lia | ].
              rewrite configuredAs_cons, Hh, Hh2. reflexivity.
           ++ intros err ->. destruct (Herr err eq_refl) as (pre & o & r & Hh2 & Hf & Hp).
              exists (Event (NewServo i) (inl s) :: settled s ++ pre)%list, o, r.
              rewrite Hh, Hh2.
              split; [rewrite <- app_comm_cons, <- app_assoc; reflexivity | ].
              split; [exact Hf | ].
              constructor; [reflexivity | ].
              apply Forall_app. split; [apply settled_succeeded | exact Hp].
        -- cbn [run history]. exists (inr err). split; [reflexivity | ].
           split; [discriminate | ].
           intros err' [= <-].
           exists (Event (NewServo i) (inl s) :: pre), o, r.
           rewrite Hh, app_nil_r. split; [reflexivity | ]. split; [exact Hfail | ].
           constructor; [reflexivity | exact Hpre].
      * exists (inr (InitializingServo i e)). split; [reflexivity | ].
        split; [discriminate | ].
        intros err [= <-]. exists [], (NewServo i), (inr e). repeat split.
        constructor.
    + exists (inl servos). split; [reflexivity | ]. split; [ | discriminate].
      intros all [= <-]. exists []. rewrite app_nil_r. cbn. repeat split. lia.
Qed.

(** X13. [findServos] parses both numbers before it touches the bus: a
    baud rate or a servo count that is not a decimal integer is an
    error with no operation issued.  Otherwise its first operation
    opens the port with the given name and baud rate, and when the
    port answers with an error that is all it does.  It goes on only
    as long as every operation succeeds: the first operation answered
    with a failure is the last one, and the error returned is made of
    that answer.  It returns servos only when the port was opened and
    each of the servos 1, 2, ..., count was created, in this order, and
    answered nil to its five settings (P gain 2800, I gain 50, torque
    on, profile velocity 50, profile acceleration 10, in this order)
    before the next one was created; the servos returned are the ones
    the bus answered with, in that order. *)
Theorem findServos_configures_in_order {W : Type}
  (respond : W -> forall o : Op, reply o * W)
  (usbPort baudRateStr armServoCountStr : string) (fuel : nat) (w : W) :
  (Atoi baudRateStr = None ->
   findServos usbPort baudRateStr armServoCountStr fuel = Ret (inr MangledBaudrate))
  /\ (forall baudRate, Atoi baudRateStr = Some baudRate ->
       Atoi armServoCountStr = None ->
       findServos usbPort baudRateStr armServoCountStr fuel
       = Ret (inr MangledServoCount))
  /\ (forall baudRate armServoCount,
       Atoi baudRateStr = Some baudRate ->
       Atoi armServoCountStr = Some armServoCount ->
       armServoCount < 2 ^ 63 - 1 ->
       (Z.to_nat armServoCount <= fuel)%nat ->
       let search := findServos usbPort baudRateStr armServoCountStr fuel in
       let open := SerialOpen (options usbPort baudRate) in
       (forall e, fst (respond w open) = Some e ->
          run respond search w
          = ([open], Returned (inr (OpeningSerialPort e)), snd (respond w open)))
       /\ exists out,
            snd (fst (run respond search w)) = Returned out
            /\ (forall servos, out = inl servos ->
                  Z.of_nat (length servos) = Z.max 0 armServoCount
                  /\ history respond search w
                     = Event open None :: configuredAs 1 servos
                  /\ fst (fst (run respond search w))
                     = open :: configured 1 servos)
            /\ (forall err, out = inr err ->
                  exists pre o r,
                    history respond search w = (pre ++ [Event o r])%list
                    /\ failure o r = Some err
                    /\ Forall (fun ev => failed ev = None) pre)).
Proof.
  split; [ | split].
  - intros Hb. unfold findServos. rewrite Hb. reflexivity.
  - intros baudRate Hb Hc. unfold findServos. rewrite Hb, Hc. reflexivity.
  - intros baudRate armServoCount Hb Hc Hn Hfuel. cbv zeta. split.
    + intros e He. unfold findServos. rewrite Hb, Hc. cbn [bind trigger run].
      destruct (respond w (SerialOpen (options usbPort baudRate))) as [r w1].
      cbn [fst snd] in *. subst r. reflexivity.
    + destruct (run_findServos respond usbPort baudRateStr armServoCountStr
                  baudRate armServoCount fuel w Hb Hc Hn Hfuel)
        as (tr & out0 & w' & Hrun & Htr & _).
      unfold findServos in *. rewrite Hb, Hc in *.
      cbn [bind trigger run history] in *.
      destruct (respond w (SerialOpen (options usbPort baudRate))) as [[e | ] w1];
        cbn [bind run history fst snd] in *.
      * exists (inr (OpeningSerialPort e)). split; [reflexivity | ].
        split; [discriminate | ].
        intros err [= <-].
        exists [], (SerialOpen (options usbPort baudRate)), (Some e).
        repeat split. constructor.
      * destruct (history_servoLoop respond armServoCount Hn fuel 1 [] w1)
          as (out & Hout & Hall & Herr); [lia | lia | ].
        destruct (run respond (servoLoop fuel 1 armServoCount []) w1)
          as [[tr1 o1] w2]. cbn [fst snd] in *. subst o1.
        injection Hrun as <- <- <-.
        exists out. split; [reflexivity | ]. split.
        -- intros servos ->.
           destruct (Hall servos eq_refl) as (news & Hs & Hlen & Hh).
           cbn [app] in Hs. subst news.
           destruct (Htr servos eq_refl) as [_ ->].
           split; [lia | ]. split; [rewrite Hh; reflexivity | reflexivity].
        -- intros err ->. destruct (Herr err eq_refl) as (pre & o & r & Hh & Hf & Hp).
           exists (Event (SerialOpen (options usbPort baudRate)) None :: pre), o, r.
           rewrite Hh. split; [reflexivity | ]. split; [exact Hf | ].
           constructor; [reflexivity | exact Hp].
Qed.

(** On a healthy bus with the count "2": the port is opened at 57600
    baud, then servo 1 and servo 2 are created and configured. *)
Lemma findServos_configures_in_order_witness :
  findServos "/dev/ttyUSB0" "fast" "2" 2 = Ret (inr MangledBaudrate)
  /\ findServos "/dev/ttyUSB0" "57600" "" 2 = Ret (inr MangledServoCount)
  /\ history healthy (findServos "/dev/ttyUSB0" "57600" "2" 2) tt
     = Event (SerialOpen (options "/dev/ttyUSB0" 57600)) None
         :: configuredAs 1 [1%nat; 2%nat].
Proof.
  pose proof (findServos_configures_in_order healthy
                "/dev/ttyUSB0" "fast" "2" 2 tt) as (H1 & _ & _).
  pose proof (findServos_configures_in_order healthy
                "/dev/ttyUSB0" "57600" "" 2 tt) as (_ & H2 & _).
  pose proof (findServos_configures_in_order healthy
                "/dev/ttyUSB0" "57600" "2" 2 tt) as (_ & _ & H3).
  split; [exact (H1 eq_refl) | ].
  split; [exact (H2 57600 eq_refl eq_refl) | ].
  destruct (H3 57600 2 eq_refl eq_refl ltac:(lia) ltac:(lia))
    as (_ & out & Hout & Hall & _).
  assert (Hservos : out = inl [1%nat; 2%nat]).
  { vm_compute in Hout. injection Hout as <-. reflexivity. }
  destruct (Hall _ Hservos) as (_ & Hh & _). exact Hh.
Defined.

Lemma joint_table_short (servos : list Servo) :
  (length servos < 8)%nat -> Wx250s.NewArm servos = None.
Proof.
  intros Hlen.
  do 8 (destruct servos as [ | ? servos]; [reflexivity | ]).
  cbn [length] in Hlen. lia.
Qed.

Lemma joint_table_long (servos : list Servo) :
  (8 <= length servos)%nat ->
  exists a, Wx250s.NewArm servos = Some a
            /\ Wx250s.GetAllServos a = take 8 servos.
Proof.
  intros Hlen.
  do 8 (destruct servos as [ | ? servos]; [cbn [length] in Hlen; lia | ]).
  eexists. split; [reflexivity | vm_compute; reflexivity].
Qed.

(** X14. [NewArm] indexes the servos found up to the eighth without
    checking how many there are: with a servo count below eight it
    cannot return an arm, for when the search succeeds it panics,
    after the port has been opened and the servos configured.  With
    eight or more, a successful search yields the arm over the first
    eight servos created; an error of the search is passed on as it
    is. *)
Theorem NewArm_needs_eight_servos {W : Type}
  (respond : W -> forall o : Op, reply o * W)
  (usbPort baudRateStr armServoCountStr : string) (baudRate armServoCount : Z)
  (fuel : nat) (w : W) :
  Atoi baudRateStr = Some baudRate ->
  Atoi armServoCountStr = Some armServoCount ->
  armServoCount < 2 ^ 63 - 1 ->
  (Z.to_nat armServoCount <= fuel)%nat ->
  exists tr found w',
    run respond (findServos usbPort baudRateStr armServoCountStr fuel) w
    = (tr, Returned found, w')
    /\ match found with
       | inr err =>
           run respond (NewArm usbPort baudRateStr armServoCountStr fuel) w
           = (tr, Returned (inr err), w')
       | inl servos =>
           if armServoCount <? 8
           then run respond (NewArm usbPort baudRateStr armServoCountStr fuel) w
                = (tr, Panicked "index out of range", w')
           else exists a,
                  run respond (NewArm usbPort baudRateStr armServoCountStr fuel) w
                  = (tr, Returned (inl a), w')
                  /\ Wx250s.GetAllServos a = take 8 servos
       end.
Proof.
  intros Hb Hc Hn Hfuel.
  destruct (run_findServos respond usbPort baudRateStr armServoCountStr
              baudRate armServoCount fuel w Hb Hc Hn Hfuel)
    as (tr & found & w' & Hrun & Hall & _).
  eexists _, found, w'. split; [exact Hrun | ].
  unfold NewArm. rewrite run_bind, Hrun.
  destruct found as [servos | err]; [ | cbn [run]; rewrite app_nil_r; reflexivity].
  destruct (Hall servos eq_refl) as [Hlen _].
  destruct (armServoCount <? 8) eqn:Hlt.
  - rewrite (joint_table_short servos) by lia.
    cbn [run]. rewrite app_nil_r. reflexivity.
  - destruct (joint_table_long servos) as (a & Ha & Hs); [lia | ].
    rewrite Ha. exists a. cbn [run]. rewrite app_nil_r. split; [reflexivity | exact Hs].
Qed.

(** On a healthy bus the count "7" makes [NewArm] panic and the count
    "9" gives the arm over the servos 1 to 8. *)
Lemma NewArm_needs_eight_servos_witness :
  snd (fst (run healthy (NewArm "/dev/ttyUSB0" "57600" "7" 7) tt))
  = Panicked "index out of range"
  /\ exists a,
       snd (fst (run healthy (NewArm "/dev/ttyUSB0" "57600" "9" 9) tt))
       = Returned (inl a)
       /\ Wx250s.GetAllServos a = [1; 2; 3; 4; 5; 6; 7; 8]%nat.
Proof.
  split.
  - destruct (NewArm_needs_eight_servos healthy "/dev/ttyUSB0" "57600" "7"
                57600 7 7 tt eq_refl eq_refl ltac:(lia) ltac:(lia))
      as (tr & found & w' & Hrun & Hnew).
    apply (f_equal (fun x => snd (fst x))) in Hrun. vm_compute in Hrun.
    injection Hrun as <-. cbn in Hnew. rewrite Hnew. reflexivity.
  - destruct (NewArm_needs_eight_servos healthy "/dev/ttyUSB0" "57600" "9"
                57600 9 9 tt eq_refl eq_refl ltac:(lia) ltac:(lia))
      as (tr & found & w' & Hrun & Hnew).
    apply (f_equal (fun x => snd (fst x))) in Hrun. vm_compute in Hrun.
    injection Hrun as <-. cbn in Hnew. destruct Hnew as (a & Ha & Hs).
    exists a. rewrite Ha. split; [reflexivity | exact Hs].
Defined.

End Wx250sSetupFacts.


Module NMEAFacts.

Import NMEA.

Section Reader.
Variable Parse : string -> Sentence + string.

(** Once a position is known the reader never forgets it. *)
Lemma Start_keeps_location (turns : list turn) :
  forall g, lastLocation g <> None ->
            lastLocation (fst (fst (Start Parse g turns))) <> None.
Proof.
  induction turns as [ | t rest IH]; intros g Hg; cbn [Start]; [exact Hg | ].
  destruct (cancelled t); [exact Hg | ].
  destruct (readErr t); [exact Hg | ].
  destruct (Parse (line t)) as [[gll | ] | e].
  - apply IH. discriminate.
  - apply IH, Hg.
  - specialize (IH g Hg).
    destruct (Start Parse g rest) as [[g' log] st]. exact IH.
Qed.

(** C8, as the driver has it.  In the reader loop a line that
    [nmea.Parse] rejects is logged and skipped, and a GLL sentence
    becomes the last location; a read error on the serial device is
    logged with [Fatalf], which ends the process: no error reaches a
    caller.  Once a GLL sentence has been parsed, [Location] returns
    its latitude and longitude with a nil error and [Readings] the
    pair of them, and neither panics, whatever the reader meets
    afterwards. *)
Theorem serial_gps_reader_and_location (g : serialNMEAGPS) (t : turn)
  (rest : list turn) :
  (cancelled t = false -> forall e, readErr t = Some e ->
     Start Parse g (t :: rest) = (g, [], Exited ("can't read gps serial " +:+ e)))
  /\ (cancelled t = false -> readErr t = None -> forall e,
      Parse (line t) = inr e ->
      Start Parse g (t :: rest) =
      (fst (fst (Start Parse g rest)),
       ("can't parse nmea " +:+ line t +:+ " : " +:+ e) :: snd (fst (Start Parse g rest)),
       snd (Start Parse g rest)))
  /\ (cancelled t = false -> readErr t = None -> forall gll,
      Parse (line t) = inl (SentenceGLL gll) ->
      Start Parse g (t :: rest) = Start Parse (mkGPS (Some (toPoint gll))) rest
      /\ exists p,
           lastLocation (fst (fst (Start Parse g (t :: rest)))) = Some p
           /\ Location (fst (fst (Start Parse g (t :: rest))))
              = Return (Lat p, Lng p, None)
           /\ Readings (fst (fst (Start Parse g (t :: rest))))
              = Return (Some [Lat p; Lng p], None))
  /\ (forall p, lastLocation g = Some p ->
      Location g = Return (Lat p, Lng p, None)
      /\ Readings g = Return (Some [Lat p; Lng p], None)).
Proof.
  assert (Hloc : forall g0 p, lastLocation g0 = Some p ->
            Location g0 = Return (Lat p, Lng p, None)
            /\ Readings g0 = Return (Some [Lat p; Lng p], None)).
  { intros g0 p Hp. unfold Readings, Location. rewrite Hp. split; reflexivity. }
  split; [ | split; [ | split]].
  - intros Hc e He. cbn [Start]. rewrite Hc, He. reflexivity.
  - intros Hc Hr e He. cbn [Start]. rewrite Hc, Hr, He.
    destruct (Start Parse g rest) as [[g' log] st]. reflexivity.
  - intros Hc Hr gll Hg. cbn [Start]. rewrite Hc, Hr, Hg.
    split; [reflexivity | ].
    pose proof (Start_keeps_location rest (mkGPS (Some (toPoint gll)))) as Hk.
    destruct (lastLocation (fst (fst (Start Parse (mkGPS (Some (toPoint gll))) rest))))
      as [p | ] eqn:Hp.
    + exists p. split; [reflexivity | ]. apply Hloc, Hp.
    + exfalso. apply Hk; [discriminate | reflexivity].
  - intros p Hp. apply Hloc, Hp.
Qed.
End Reader.

Section LastFix.
Variable Parse : string -> Sentence + string.

(** X15. The reader goes through the lines in order up to the first
    cancellation or read error and looks at nothing beyond it.  What
    it leaves as the last location is the position of the last GLL
    sentence among the lines it went through, or the location it
    started with when there is none, and [Location] then reports
    exactly that position; its debug log holds one line for every
    rejected line, in order. *)
Theorem Start_last_fix (turns : list turn) (g : serialNMEAGPS) :
  Start Parse g turns = Start Parse g (take (S (length (processed turns))) turns)
  /\ lastLocation (fst (fst (Start Parse g turns)))
     = match last (omap (fixOf Parse) (processed turns)) with
       | Some p => Some p
       | None => lastLocation g
       end
  /\ snd (fst (Start Parse g turns)) = omap (rejectionOf Parse) (processed turns)
  /\ (snd (Start Parse g turns) = Listening <-> processed turns = turns)
  /\ forall p, last (omap (fixOf Parse) (processed turns)) = Some p ->
               Location (fst (fst (Start Parse g turns)))
               = Return (Lat p, Lng p, None).
Proof.
  assert (Hmain :
    Start Parse g turns = Start Parse g (take (S (length (processed turns))) turns)
    /\ lastLocation (fst (fst (Start Parse g turns)))
       = match last (omap (fixOf Parse) (processed turns)) with
         | Some p => Some p
         | None => lastLocation g
         end
    /\ snd (fst (Start Parse g turns)) = omap (rejectionOf Parse) (processed turns)
    /\ (snd (Start Parse g turns) = Listening <-> processed turns = turns)).
  { revert g. induction turns as [ | t rest IH]; intros g.
    - cbn. repeat split; reflexivity.
    - cbn [processed Start]. destruct (cancelled t) eqn:Hc.
      { cbn [length take Start]. rewrite Hc. cbn.
        repeat split; try reflexivity; intros; discriminate. }
      destruct (readErr t) as [e | ] eqn:Hr.
      { cbn [length take Start]. rewrite Hc, Hr. cbn.
        repeat split; try reflexivity; intros; discriminate. }
      cbn [length take Start]. rewrite Hc, Hr.
      change (omap (fixOf Parse) (t :: processed rest))
        with (match fixOf Parse t with
              | Some p => p :: omap (fixOf Parse) (processed rest)
              | None => omap (fixOf Parse) (processed rest)
              end).
      change (omap (rejectionOf Parse) (t :: processed rest))
        with (match rejectionOf Parse t with
              | Some l => l :: omap (rejectionOf Parse) (processed rest)
              | None => omap (rejectionOf Parse) (processed rest)
              end).
      unfold fixOf at 1, rejectionOf at 1.
      destruct (Parse (line t)) as [[gll | ] | e] eqn:Hp.
      + destruct (IH (mkGPS (Some (toPoint gll)))) as (H1 & H2 & H3 & H4).
        split; [exact H1 | ]. split.
        * rewrite H2, last_cons.
          destruct (last (omap (fixOf Parse) (processed rest))); reflexivity.
        * split; [exact H3 | ].
          rewrite H4. split; [intros -> ; reflexivity | intros [= ->]; reflexivity ].
      + destruct (IH g) as (H1 & H2 & H3 & H4).
        split; [exact H1 | ]. split; [exact H2 | ]. split; [exact H3 | ].
        rewrite H4. split; [intros -> ; reflexivity | intros [= ->]; reflexivity ].
      + destruct (IH g) as (H1 & H2 & H3 & H4).
        rewrite <- H1.
        destruct (Start Parse g rest) as [[g' log] st] eqn:Hs.
        cbn [fst snd] in *.
        split; [reflexivity | ]. split; [exact H2 | ].
        split; [rewrite H3; reflexivity | ].
        rewrite H4. split; [intros -> ; reflexivity | intros [= ->]; reflexivity ]. }
  destruct Hmain as (H1 & H2 & H3 & H4).
  split; [exact H1 | ]. split; [exact H2 | ]. split; [exact H3 | ].
  split; [exact H4 | ].
  intros p Hp. unfold Location. rewrite H2, Hp. reflexivity.
Qed.
End LastFix.

(** C8 as stated fails: a read error on the serial device ends the
    process instead of yielding an error return. *)
Lemma serial_gps_read_error_exits :
  Start exampleParse newSerialNMEAGPS [mkTurn false "" (Some "EOF")]
  = (newSerialNMEAGPS, [], Exited "can't read gps serial EOF").
Proof. reflexivity. Qed.

(** Before any GLL sentence the receiver of [Lat] is nil. *)
Lemma Location_before_first_fix :
  Location newSerialNMEAGPS
  = Panics "invalid memory address or nil pointer dereference"
  /\ Readings newSerialNMEAGPS
     = Panics "invalid memory address or nil pointer dereference".
Proof. split; reflexivity. Qed.

Lemma Location_after_fix :
  let g := fst (fst (Start exampleParse newSerialNMEAGPS
                       [mkTurn false "garbage" None;
                        mkTurn false "$GPGLL,4042.0,N,07400.0,W" None;
                        mkTurn false "$GPGGA" None])) in
  Location g = Return (40.7, -74, None)%Q
  /\ Readings g = Return (Some [40.7; -74]%Q, None).
Proof. split; reflexivity. Qed.

(** A rejected line, a GLL sentence and another sentence: the sensor
    answers with the position of the GLL sentence. *)
Lemma serial_gps_reader_and_location_witness :
  Location (fst (fst (Start exampleParse newSerialNMEAGPS
                        [mkTurn false "$GPGLL,4042.0,N,07400.0,W" None;
                         mkTurn false "$GPGGA" None])))
  = Return (40.7, -74, None)%Q.
Proof.
  destruct (proj1 (proj2 (proj2 (serial_gps_reader_and_location exampleParse
              newSerialNMEAGPS (mkTurn false "$GPGLL,4042.0,N,07400.0,W" None)
              [mkTurn false "$GPGGA" None])))
              eq_refl eq_refl (mkGLL 40.7 (-74)) eq_refl)
    as (_ & p & Hp & Hloc & _).
  rewrite Hloc. vm_compute in Hp. injection Hp as <-. reflexivity.
Defined.

End NMEAFacts.

(* --------------------------------------------------------------------- *)

Module FramesFacts.

Import Frames.

Lemma hasFrame_cons (f : Frame) (fs : FrameSystem) (n : string) :
  hasFrame (f :: fs) n = String.eqb (name f) n || hasFrame fs n.
Proof.
  unfold hasFrame. cbn [existsb].
  destruct (String.eqb n World), (String.eqb (name f) n); reflexivity.
Qed.

(** In a well-formed system the walk up from a frame that is present
    reaches [World]. *)
Lemma chain_total (fs : FrameSystem) :
  wellFormed fs = true ->
  forall n, hasFrame fs n = true -> exists c, chain fs n = Some c.
Proof.
  induction fs as [ | f rest IH]; intros Hwf n Hn.
  - unfold hasFrame in Hn. cbn [existsb] in Hn. rewrite orb_false_r in Hn.
    cbn [chain]. rewrite Hn. eauto.
  - cbn [wellFormed] in Hwf. apply andb_true_iff in Hwf as [Hp Hwf].
    cbn [chain]. destruct (String.eqb n World) eqn:Hw; [eauto | ].
    destruct (String.eqb (name f) n) eqn:Hf.
    + destruct (IH Hwf _ Hp) as [c Hc]. rewrite Hc. eauto.
    + apply IH; [exact Hwf | ].
      rewrite hasFrame_cons, Hf in Hn. exact Hn.
Qed.

Lemma MergeInto_wellFormed (transforms : list Transform) :
  forall fs fs', wellFormed fs = true -> MergeInto fs transforms = Ok fs' ->
                 wellFormed fs' = true.
Proof.
  induction transforms as [ | t rest IH]; intros fs fs' Hwf Hm; cbn [MergeInto] in Hm.
  - injection Hm as <-. exact Hwf.
  - destruct (hasFrame fs (tParent t)) eqn:Hp; [ | discriminate].
    apply (IH (frameOf t :: fs) fs'); [ | exact Hm].
    cbn [wellFormed]. change (parent (frameOf t)) with (tParent t).
    rewrite Hp, Hwf. reflexivity.
Qed.

Lemma dropShared_same (c : list Frame) : dropShared c c = ([], []).
Proof.
  induction c as [ | f c IH]; cbn [dropShared]; [reflexivity | ].
  rewrite String.eqb_refl. exact IH.
Qed.

Lemma legs_same (c : list Frame) : legs c c = ([], []).
Proof. unfold legs. rewrite dropShared_same. reflexivity. Qed.

(** The transform from a frame to itself leaves a pose as it is, up to
    composition with the identity. *)
Lemma TransformFrame_self (fs : FrameSystem) (inputs : gmap string (list Q))
  (n : string) :
  wellFormed fs = true -> hasFrame fs n = true ->
  TransformFrame fs inputs NewZeroPose n n = Ok NewZeroPose.
Proof.
  intros Hwf Hn. unfold TransformFrame. rewrite Hn. cbn [negb].
  destruct (chain_total fs Hwf n Hn) as [c Hc]. rewrite Hc, legs_same.
  reflexivity.
Qed.

(** Shifting a world state by its first transform. *)
Lemma orphan_cons (fs : FrameSystem) (t1 : Transform) (rest : list Transform)
  (k : nat) (t : Transform) :
  orphan fs (t1 :: rest) (S k) t <-> orphan (frameOf t1 :: fs) rest k t.
Proof.
  unfold orphan. rewrite hasFrame_cons. cbn [frameOf name lookup list_lookup].
  split.
  - intros (Hl & Hs & He). split; [exact Hl | ]. split.
    + rewrite Hs, orb_false_r. apply String.eqb_neq.
      apply (He 0%nat t1); [lia | reflexivity].
    + intros j t' Hj Hl'. apply (He (S j) t'); [lia | exact Hl'].
  - intros (Hl & Hs & He). apply orb_false_iff in Hs as [Hn Hs].
    split; [exact Hl | ]. split; [exact Hs | ].
    intros [ | j] t' Hj Hl'.
    + injection Hl' as <-. apply String.eqb_neq. exact Hn.
    + apply (He j t'); [lia | exact Hl'].
Qed.

(** A world state with an orphan is rejected, and the error names the
    first orphan and its parent. *)
Lemma MergeInto_orphan (transforms : list Transform) :
  forall fs i t,
    orphan fs transforms i t ->
    exists j t0,
      orphan fs transforms j t0
      /\ (forall k t', orphan fs transforms k t' -> (j <= k)%nat)
      /\ MergeInto fs transforms = Err (MissingParentError (tName t0) (tParent t0)).
Proof.
  induction transforms as [ | t1 rest IH]; intros fs i t Ho.
  - destruct Ho as (Hl & _). discriminate Hl.
  - cbn [MergeInto]. destruct (hasFrame fs (tParent t1)) eqn:Hp.
    + destruct i as [ | i].
      { destruct Ho as (Hl & Hs & _). injection Hl as <-. congruence. }
      apply orphan_cons in Ho.
      destruct (IH _ _ _ Ho) as (j & t0 & Hj & Hmin & Hm).
      exists (S j), t0. split; [apply orphan_cons, Hj | ]. split; [ | exact Hm].
      intros [ | k] t' Hk.
      * destruct Hk as (Hl & Hs & _). injection Hl as <-. congruence.
      * apply orphan_cons in Hk. specialize (Hmin _ _ Hk). lia.
    + exists 0%nat, t1. split; [ | split; [intros; lia | reflexivity]].
      split; [reflexivity | ]. split; [exact Hp | intros; lia].
Qed.

End FramesFacts.

(* --------------------------------------------------------------------- *)

Module MotionFacts.

Import Frames Motion FramesFacts ProgFacts.

Local Open Scope Q_scope.

(** C1. A world state containing a supplemental transform whose parent
    resolves neither to a frame of the static frame system nor to an
    earlier supplemental transform is rejected as a whole:
    the merge, [Move] and [GetPose] (on a registered component) all
    fail with [MissingParentError] naming an orphan frame and its
    missing parent, namely the first orphan of the world state.  The
    failure carries no frame system, so nothing of the world state is
    merged, and [Move] issues no command. *)
Theorem missing_parent_rejected
  (Inverse : FrameSystem -> string -> Pose -> list Q -> list Geometry -> result (list Q))
  (r : Robot) (ws : WorldState) (i : nat) (t : Transform) :
  orphan (frameSystem r) (Transforms ws) i t ->
  exists j t0,
    orphan (frameSystem r) (Transforms ws) j t0
    /\ (forall k t', orphan (frameSystem r) (Transforms ws) k t' -> (j <= k)%nat)
    /\ MergeInto (frameSystem r) (Transforms ws)
       = Err (MissingParentError (tName t0) (tParent t0))
    /\ forall componentName destination destinationFrame,
         is_Some (registry r !! componentName) ->
         Move Inverse r componentName destination ws
         = Ret (false, Some (MissingParentError (tName t0) (tParent t0)))
         /\ GetPose r componentName destinationFrame (Transforms ws)
            = Err (MissingParentError (tName t0) (tParent t0)).
Proof.
  intros Ho. destruct (MergeInto_orphan _ _ _ _ Ho) as (j & t0 & Hj & Hmin & Hm).
  exists j, t0. split; [exact Hj | ]. split; [exact Hmin | ]. split; [exact Hm | ].
  intros c dest dframe [comp Hc]. unfold Move, resolve, GetPose.
  rewrite Hc, Hm. split; reflexivity.
Qed.

(** The fixtures of the service tests: [frame2] under the unknown parent
    [noParent] makes [Move] on [arm1] fail with
    [MissingParentError frame2 noParent], and [testFrame] under
    [noParent] makes [GetPose] fail with
    [MissingParentError testFrame noParent]. *)
Lemma missing_parent_rejected_witness :
  Move seedSolver armGantry "arm1" (NewPoseInFrame "frame2" NewZeroPose)
       (mkWorldState []
          [NewNamedPoseInFrame "noParent"
             (mkPose (mkVector 1 2 3) quarterTurnY) "frame2"])
  = Ret (false, Some (MissingParentError "frame2" "noParent"))
  /\ GetPose armGantry "arm1" "testFrame"
       [NewNamedPoseInFrame "noParent"
          (mkPose (mkVector 0 0 0) quarterTurnY) "testFrame"]
     = Err (MissingParentError "testFrame" "noParent").
Proof.
  assert (Hfixture : forall t : Transform,
            tParent t = "noParent" ->
            Move seedSolver armGantry "arm1" (NewPoseInFrame "frame2" NewZeroPose)
                 (mkWorldState [] [t])
            = Ret (false, Some (MissingParentError (tName t) "noParent"))
            /\ GetPose armGantry "arm1" "testFrame" [t]
               = Err (MissingParentError (tName t) "noParent")).
  { intros t Hp.
    assert (Ho : orphan (frameSystem armGantry)
                        (Transforms (mkWorldState [] [t])) 0 t).
    { split; [reflexivity | ]. split; [rewrite Hp; reflexivity | intros j t' Hj; lia]. }
    destruct (missing_parent_rejected seedSolver armGantry (mkWorldState [] [t]) 0 t Ho)
      as (j & t0 & Hj & Hmin & _ & Hcalls).
    assert (j = 0%nat) as -> by (specialize (Hmin _ _ Ho); lia).
    destruct Hj as (Hl & _). injection Hl as <-. rewrite <- Hp.
    apply (Hcalls "arm1" (NewPoseInFrame "frame2" NewZeroPose) "testFrame").
    exists movable. reflexivity. }
  split.
  - apply (Hfixture (NewNamedPoseInFrame "noParent"
                       (mkPose (mkVector 1 2 3) quarterTurnY) "frame2") eq_refl).
  - apply (Hfixture (NewNamedPoseInFrame "noParent"
                       (mkPose (mkVector 0 0 0) quarterTurnY) "testFrame") eq_refl).
Defined.

(** C2. On the two-link fixture, [GetPose] of [gantry1] with no
    destination frame returns the position (1.2, 0, 0) in [World], and
    [GetPose] of [arm1] returns (501.2, 0, 300) in [World]. *)
Theorem GetPose_two_link_in_world :
  (exists p, GetPose armGantry "gantry1" "" [] = Ok (NewPoseInFrame World p)
             /\ Vector_eq (Point p) (mkVector 1.2 0 0))
  /\ (exists p, GetPose armGantry "arm1" "" [] = Ok (NewPoseInFrame World p)
                /\ Vector_eq (Point p) (mkVector 501.2 0 300)).
Proof.
  split; eexists; (split; [vm_compute; reflexivity | ]);
    repeat split; reflexivity.
Qed.

(** The model agrees with the last expectation of the [GetPose] test:
    with [testFrame] a quarter turn about Y under [World] and
    [testFrame2] a quarter turn about Y under [testFrame], [arm1] is at
    (-501.2, 0, -300) in [testFrame2], turned by pi about the Y axis. *)
Lemma GetPose_in_supplemental_frame :
  exists p,
    GetPose armGantry "arm1" "testFrame2"
      [NewNamedPoseInFrame World (mkPose (mkVector 0 0 0) quarterTurnY) "testFrame";
       NewNamedPoseInFrame "testFrame" (mkPose (mkVector 0 0 0) quarterTurnY) "testFrame2"]
    = Ok (NewPoseInFrame "testFrame2" p)
    /\ Pose_eq p (mkPose (mkVector (-501.2) 0 (-300))
                         (mkRotation (mkVector (-1) 0 0) (mkVector 0 1 0)
                                     (mkVector 0 0 (-1)))).
Proof.
  eexists. split; [vm_compute; reflexivity | ].
  repeat split; reflexivity.
Qed.

(** C3 as stated fails: on the two-link fixture the pose of [gantry1]
    relative to [arm1] is the inverse of the arm's offset,
    (-500, 0, -300), not (0, 0, 0). *)
Lemma GetPose_gantry_in_arm_not_zero :
  exists p, GetPose armGantry "gantry1" "arm1" [] = Ok (NewPoseInFrame "arm1" p)
            /\ Vector_eq (Point p) (mkVector (-500) 0 (-300))
            /\ ~ Vector_eq (Point p) (mkVector 0 0 0).
Proof.
  eexists. split; [vm_compute; reflexivity | ]. split.
  - repeat split; reflexivity.
  - intros (Hx & _). vm_compute in Hx. discriminate Hx.
Qed.

(** C3, as the service has it.  On the two-link fixture [GetPose] of
    [gantry1] relative to [gantry1] and of [arm1] relative to [arm1]
    are exactly (0, 0, 0), while [arm1] relative to [gantry1] is
    (500, 0, 300).  In general, for a registered component with a
    frame in the merged, well-formed frame system, [GetPose] relative
    to its own frame is the identity pose. *)
Theorem GetPose_own_frame_identity :
  GetPose armGantry "gantry1" "gantry1" [] = Ok (NewPoseInFrame "gantry1" NewZeroPose)
  /\ GetPose armGantry "arm1" "arm1" [] = Ok (NewPoseInFrame "arm1" NewZeroPose)
  /\ (exists p, GetPose armGantry "arm1" "gantry1" [] = Ok (NewPoseInFrame "gantry1" p)
                /\ Vector_eq (Point p) (mkVector 500 0 300))
  /\ forall (r : Robot) (c : string) (transforms : list Transform) (fs : FrameSystem),
       wellFormed (frameSystem r) = true ->
       is_Some (registry r !! c) ->
       c <> "" ->
       MergeInto (frameSystem r) transforms = Ok fs ->
       hasFrame fs c = true ->
       GetPose r c c transforms = Ok (NewPoseInFrame c NewZeroPose).
Proof.
  split; [vm_compute; reflexivity | ]. split; [vm_compute; reflexivity | ]. split.
  - eexists. split; [vm_compute; reflexivity | repeat split; reflexivity].
  - intros r c transforms fs Hwf [comp Hc] Hne Hm Hf. unfold GetPose.
    apply String.eqb_neq in Hne. rewrite Hne, Hc, Hm.
    rewrite (TransformFrame_self fs _ c (MergeInto_wellFormed _ _ _ Hwf Hm) Hf).
    reflexivity.
Qed.

(** With the two supplemental frames of the test merged in, [arm1] is
    still at the identity relative to itself. *)
Lemma GetPose_own_frame_identity_witness :
  GetPose armGantry "arm1" "arm1"
    [NewNamedPoseInFrame World (mkPose (mkVector 0 0 0) quarterTurnY) "testFrame";
     NewNamedPoseInFrame "testFrame" (mkPose (mkVector 0 0 0) quarterTurnY) "testFrame2"]
  = Ok (NewPoseInFrame "arm1" NewZeroPose).
Proof.
  eapply (proj2 (proj2 (proj2 GetPose_own_frame_identity))).
  - reflexivity.
  - exists movable. reflexivity.
  - discriminate.
  - reflexivity.
  - reflexivity.
Defined.



End MotionFacts.

(* --------------------------------------------------------------------- *)

Module RegistryFacts.

Import ProgFacts.

(** [getBoard] on a name the registry does not hold, or holds for
    something that is not a board. *)
Lemma getBoard_not_a_board (srv : Board.subtypeServer) (name : string) :
  (Board.s srv !! name = None ->
   Board.getBoard srv name = inr ("no board with name (" +:+ name +:+ ")"))
  /\ (forall kind, Board.s srv !! name = Some (Board.ResourceOther kind) ->
      Board.getBoard srv name
      = inr ("resource with name (" +:+ name +:+ ") is not a board")).
Proof.
  unfold Board.getBoard. split.
  - intros ->. reflexivity.
  - intros kind ->. reflexivity.
Qed.

Lemma serve_without_board (srv : Board.subtypeServer) (req : Board.Request)
  (e : string) :
  Board.getBoard srv (Board.boardName req) = inr e ->
  Board.serve srv req = Ret (None, Some e).
Proof.
  intros H. destruct req; cbn [Board.serve Board.boardName] in *;
    unfold Board.Status, Board.SetGPIO, Board.GetGPIO, Board.SetPWM,
      Board.SetPWMFrequency, Board.ReadAnalogReader,
      Board.GetDigitalInterruptValue;
    rewrite H; reflexivity.
Qed.

(** C6. A request that names a component absent from the registry gets
    an error at once and no hardware operation is issued.  Every
    request to the board service (Status, SetGPIO, GetGPIO, SetPWM,
    SetPWMFrequency, ReadAnalogReader, GetDigitalInterruptValue) whose
    board name is not registered returns the error "no board with name
    (name)", and one whose name is registered for something that is
    not a board returns "resource with name (name) is not a board";
    both return without a response and without touching a board.
    [Move], [MoveSingleComponent] and [GetPose] on a component that is
    not registered fail with [ComponentNotFound] and command nothing. *)
Theorem unknown_component_rejected :
  (forall (srv : Board.subtypeServer) (req : Board.Request),
     (Board.s srv !! Board.boardName req = None ->
      Board.serve srv req
      = Ret (None, Some ("no board with name (" +:+ Board.boardName req +:+ ")")))
     /\ (forall kind,
           Board.s srv !! Board.boardName req = Some (Board.ResourceOther kind) ->
           Board.serve srv req
           = Ret (None, Some ("resource with name (" +:+ Board.boardName req
                              +:+ ") is not a board"))))
  /\ (forall (srv : Board.subtypeServer) (req : Board.Request)
        (W : Type) (respond : W -> forall o : Board.Op, Board.reply o * W) (w : W),
        (forall b, Board.s srv !! Board.boardName req <> Some (Board.ResourceBoard b)) ->
        exists e, run respond (Board.serve srv req) w = ([], Returned (None, Some e), w))
  /\ (forall Inverse (r : Motion.Robot) (componentName : string)
        (destination : Motion.PoseInFrame) (ws : Frames.WorldState)
        (destinationFrame : string),
        Motion.registry r !! componentName = None ->
        Motion.Move Inverse r componentName destination ws
        = Ret (false, Some (Frames.ComponentNotFound componentName))
        /\ Motion.MoveSingleComponent Inverse r componentName destination ws
           = Ret (false, Some (Frames.ComponentNotFound componentName))
        /\ Motion.GetPose r componentName destinationFrame (Frames.Transforms ws)
           = Frames.Err (Frames.ComponentNotFound componentName)).
Proof.
  split; [ | split].
  - intros srv req. split.
    + intros H. apply serve_without_board, getBoard_not_a_board, H.
    + intros kind H. apply serve_without_board.
      apply (proj2 (getBoard_not_a_board srv (Board.boardName req)) kind H).
  - intros srv req W respond w Hnb.
    destruct (Board.s srv !! Board.boardName req) as [[b | kind] | ] eqn:Hl.
    + exfalso. apply (Hnb b). reflexivity.
    + eexists. rewrite (serve_without_board srv req _
        (proj2 (getBoard_not_a_board srv (Board.boardName req)) kind Hl)).
      reflexivity.
    + eexists. rewrite (serve_without_board srv req _
        (proj1 (getBoard_not_a_board srv (Board.boardName req)) Hl)).
      reflexivity.
  - intros Inverse r c dest ws dframe Hc.
    unfold Motion.Move, Motion.MoveSingleComponent, Motion.resolve, Motion.GetPose.
    rewrite Hc. repeat split; reflexivity.
Qed.

(** A status request for the unregistered name [gpio] and one for the
    camera [cam] are both turned down. *)
Lemma unknown_component_rejected_witness :
  Board.serve Board.exampleServer (Board.StatusRequest "gpio")
  = Ret (None, Some "no board with name (gpio)")
  /\ Board.serve Board.exampleServer (Board.StatusRequest "cam")
     = Ret (None, Some "resource with name (cam) is not a board").
Proof.
  split.
  - apply (proj1 (proj1 unknown_component_rejected Board.exampleServer
                    (Board.StatusRequest "gpio"))).
    reflexivity.
  - apply (proj2 (proj1 unknown_component_rejected Board.exampleServer
                    (Board.StatusRequest "cam")) "camera").
    reflexivity.
Defined.

(** X5. [getBoard] returns a board exactly when the registry holds a
    board under that name. *)
Theorem getBoard_finds_boards (srv : Board.subtypeServer) (name : string)
  (b : Board.Board) :
  Board.getBoard srv name = inl b
  <-> Board.s srv !! name = Some (Board.ResourceBoard b).
Proof.
  unfold Board.getBoard.
  destruct (Board.s srv !! name) as [[b0 | kind] | ]; split; intros H;
    try discriminate; injection H as ->; reflexivity.
Qed.

(** X6. [SetGPIO] on a registered board issues exactly one [SetGPIO]
    operation on that board, with the pin and level of the request,
    and returns the board's error beside an empty response. *)
Theorem SetGPIO_on_board {W : Type}
  (respond : W -> forall o : Board.Op, Board.reply o * W) (w : W)
  (srv : Board.subtypeServer) (Name Pin : string) (High : bool) (b : Board.Board) :
  Board.s srv !! Name = Some (Board.ResourceBoard b) ->
  run respond (Board.SetGPIO srv Name Pin High) w
  = ([Board.BoardSetGPIO (Board.device b) Pin High],
     Returned (Some Board.SetGPIOResponse,
               fst (respond w (Board.BoardSetGPIO (Board.device b) Pin High))),
     snd (respond w (Board.BoardSetGPIO (Board.device b) Pin High))).
Proof.
  intros Hb. unfold Board.SetGPIO, Board.getBoard. rewrite Hb.
  cbn [bind trigger run].
  destruct (respond w (Board.BoardSetGPIO (Board.device b) Pin High)) as [e w1].
  reflexivity.
Qed.

Lemma SetGPIO_on_board_witness :
  run Board.working (Board.SetGPIO Board.exampleServer "pi" "io4" true) tt
  = ([Board.BoardSetGPIO 0 "io4" true], Returned (Some Board.SetGPIOResponse, None), tt).
Proof.
  apply (SetGPIO_on_board Board.working tt Board.exampleServer "pi" "io4" true
           (Board.mkBoard 0 {["current" := 7%nat]} ∅)).
  reflexivity.
Defined.

(** X7. [ReadAnalogReader] on a registered board: a reader the board
    does not know yields the error "unknown analog reader: name" and no
    read; a known reader is read once and a successful reading is
    returned converted to int32, hence within the int32 range. *)
Theorem ReadAnalogReader_on_board {W : Type}
  (respond : W -> forall o : Board.Op, Board.reply o * W) (w : W)
  (srv : Board.subtypeServer) (BoardName AnalogReaderName : string)
  (b : Board.Board) :
  Board.s srv !! BoardName = Some (Board.ResourceBoard b) ->
  (Board.analogReaders b !! AnalogReaderName = None ->
   Board.ReadAnalogReader srv BoardName AnalogReaderName
   = Ret (None, Some ("unknown analog reader: " +:+ AnalogReaderName)))
  /\ (forall theReader val w1,
        Board.analogReaders b !! AnalogReaderName = Some theReader ->
        respond w (Board.AnalogRead theReader) = ((val, None), w1) ->
        run respond (Board.ReadAnalogReader srv BoardName AnalogReaderName) w
        = ([Board.AnalogRead theReader],
           Returned (Some (Board.ReadAnalogReaderResponse (Board.wrap32 val)), None),
           w1)
        /\ (- 2 ^ 31 <= Board.wrap32 val < 2 ^ 31)%Z).
Proof.
  intros Hb. unfold Board.ReadAnalogReader, Board.getBoard. rewrite Hb. split.
  - intros ->. reflexivity.
  - intros theReader val w1 -> Hr. cbn [bind trigger run]. rewrite Hr. split.
    + reflexivity.
    + unfold Board.wrap32.
      pose proof (Z.mod_pos_bound (val + 2 ^ 31) (2 ^ 32) ltac:(lia)). lia.
Qed.

(** The reading 2^31 + 5 comes back as -2^31 + 5. *)
Lemma ReadAnalogReader_on_board_witness :
  run Board.working (Board.ReadAnalogReader Board.exampleServer "pi" "current") tt
  = ([Board.AnalogRead 7], Returned (Some (Board.ReadAnalogReaderResponse (-2147483643)), None), tt)
  /\ Board.ReadAnalogReader Board.exampleServer "pi" "voltage"
     = Ret (None, Some "unknown analog reader: voltage").
Proof.
  pose proof (ReadAnalogReader_on_board Board.working tt Board.exampleServer "pi")
    as H.
  split.
  - apply (proj2 (H "current" (Board.mkBoard 0 {["current" := 7%nat]} ∅) eq_refl)
                 7%nat (2 ^ 31 + 5)%Z tt); reflexivity.
  - apply (proj1 (H "voltage" (Board.mkBoard 0 {["current" := 7%nat]} ∅) eq_refl)).
    reflexivity.
Defined.

(** X16. Whatever the registry holds and the hardware answers, a
    handler of the board server returns after at most one hardware
    operation and never answers with neither a response nor an error.
    On a board that is found each handler issues exactly one operation
    on that board (none when the analog reader or the digital interrupt
    is unknown) and its result is made of the answer to it: a handler
    that reads (Status, GetGPIO, ReadAnalogReader,
    GetDigitalInterruptValue) returns the board's error without a
    response, or the value read with a nil error; a handler that sets
    (SetGPIO, SetPWM, SetPWMFrequency) returns its empty response
    beside the board's error, nil or not. *)
Theorem serve_response_or_error {W : Type}
  (respond : W -> forall o : Board.Op, Board.reply o * W)
  (srv : Board.subtypeServer) (req : Board.Request) (w : W) :
  (exists tr resp err w',
     run respond (Board.serve srv req) w = (tr, Returned (resp, err), w')
     /\ (length tr <= 1)%nat
     /\ (resp = None -> err <> None)
     /\ match req with
        | Board.SetGPIORequest _ _ _ | Board.SetPWMRequest _ _ _
        | Board.SetPWMFrequencyRequest _ _ _ => True
        | _ => resp <> None -> err = None
        end)
  /\ forall b,
       Board.getBoard srv (Board.boardName req) = inl b ->
       match req with
       | Board.StatusRequest _ =>
           let op := Board.BoardStatusOf (Board.device b) in
           run respond (Board.serve srv req) w
           = ([op],
              Returned (match fst (respond w op) with
                        | (_, Some e) => (None, Some e)
                        | (status, None) =>
                            (Some (Board.StatusResponse status), None)
                        end),
              snd (respond w op))
       | Board.SetGPIORequest _ pin high =>
           let op := Board.BoardSetGPIO (Board.device b) pin high in
           run respond (Board.serve srv req) w
           = ([op], Returned (Some Board.SetGPIOResponse, fst (respond w op)),
              snd (respond w op))
       | Board.GetGPIORequest _ pin =>
           let op := Board.BoardGetGPIO (Board.device b) pin in
           run respond (Board.serve srv req) w
           = ([op],
              Returned (match fst (respond w op) with
                        | (_, Some e) => (None, Some e)
                        | (high, None) => (Some (Board.GetGPIOResponse high), None)
                        end),
              snd (respond w op))
       | Board.SetPWMRequest _ pin duty =>
           let op := Board.BoardSetPWM (Board.device b) pin duty in
           run respond (Board.serve srv req) w
           = ([op], Returned (Some Board.SetPWMResponse, fst (respond w op)),
              snd (respond w op))
       | Board.SetPWMFrequencyRequest _ pin hz =>
           let op := Board.BoardSetPWMFreq (Board.device b) pin hz in
           run respond (Board.serve srv req) w
           = ([op],
              Returned (Some Board.SetPWMFrequencyResponse, fst (respond w op)),
              snd (respond w op))
       | Board.ReadAnalogReaderRequest _ reader =>
           match Board.analogReaders b !! reader with
           | None =>
               Board.serve srv req
               = Ret (None, Some ("unknown analog reader: " +:+ reader))
           | Some theReader =>
               let op := Board.AnalogRead theReader in
               run respond (Board.serve srv req) w
               = ([op],
                  Returned (match fst (respond w op) with
                            | (_, Some e) => (None, Some e)
                            | (val, None) =>
                                (Some (Board.ReadAnalogReaderResponse
                                         (Board.wrap32 val)), None)
                            end),
                  snd (respond w op))
           end
       | Board.GetDigitalInterruptValueRequest _ interruptName =>
           match Board.digitalInterrupts b !! interruptName with
           | None =>
               Board.serve srv req
               = Ret (None, Some ("unknown digital interrupt: " +:+ interruptName))
           | Some interrupt =>
               let op := Board.InterruptValue interrupt in
               run respond (Board.serve srv req) w
               = ([op],
                  Returned (match fst (respond w op) with
                            | (_, Some e) => (None, Some e)
                            | (val, None) =>
                                (Some (Board.GetDigitalInterruptValueResponse val),
                                 None)
                            end),
                  snd (respond w op))
           end
       end.
Proof.
  split.
  - destruct req; cbn [Board.serve Board.boardName];
      unfold Board.Status, Board.SetGPIO, Board.GetGPIO, Board.SetPWM,
        Board.SetPWMFrequency, Board.ReadAnalogReader,
        Board.GetDigitalInterruptValue;
      (destruct (Board.getBoard srv _) as [b | e];
       [ | eexists _, _, _, _; split; [reflexivity | ];
           cbn; repeat split; try lia; try discriminate; congruence ]);
      try (destruct (_ !! _) as [dev | ];
           [ | eexists _, _, _, _; split; [reflexivity | ];
               cbn; repeat split; try lia; try discriminate; congruence ]);
      cbn [bind trigger run];
      match goal with
      | |- context [respond w ?o] => destruct (respond w o) as [r w1]
      end;
      try (destruct r as [v [e | ]]);
      cbn [bind run];
      eexists _, _, _, _; (split; [reflexivity | ]);
      cbn; repeat split; try lia; try discriminate; try congruence;
      try (intros ->; discriminate).
  - intros b Hb.
    destruct req; cbn [Board.serve Board.boardName] in *;
      unfold Board.Status, Board.SetGPIO, Board.GetGPIO, Board.SetPWM,
        Board.SetPWMFrequency, Board.ReadAnalogReader,
        Board.GetDigitalInterruptValue;
      rewrite Hb;
      try (destruct (_ !! _) as [dev | ]; [ | reflexivity]);
      cbv zeta; cbn [bind trigger run];
      match goal with
      | |- context [respond w ?o] => destruct (respond w o) as [r w1]
      end;
      try (destruct r as [v [e | ]]);
      reflexivity.
Qed.

End RegistryFacts.


Module MiniroverFacts.

Import Minirover ProgFacts.

Local Open Scope Z_scope.

Lemma wrap64_id (z : Z) : - 2 ^ 63 <= z < 2 ^ 63 -> Wx250s.wrap64 z = z.
Proof.
  intros Hz. unfold Wx250s.wrap64. rewrite Z.mod_small; lia.
Qed.

Lemma wrap64_mod256 (z : Z) : Wx250s.wrap64 z mod 256 = z mod 256.
Proof.
  unfold Wx250s.wrap64.
  rewrite (Z.mod_eq (z + 2 ^ 63) (2 ^ 64)) by lia.
  replace (z + 2 ^ 63 - 2 ^ 64 * ((z + 2 ^ 63) / 2 ^ 64) - 2 ^ 63)
    with (z + (- (2 ^ 56 * ((z + 2 ^ 63) / 2 ^ 64))) * 256) by lia.
  apply Z.mod_add. lia.
Qed.

Lemma Qlt_bool_iff (x y : Q) : Qlt_bool x y = true <-> (x < y)%Q.
Proof.
  unfold Qlt_bool. rewrite negb_true_iff.
  split.
  - intros H. apply Qnot_le_lt. intros Hle.
    apply Qle_bool_iff in Hle. congruence.
  - intros H. destruct (Qle_bool y x) eqn:E; [ | reflexivity].
    apply Qle_bool_iff in E. exfalso. apply (Qlt_not_le _ _ H E).
Qed.

Lemma run_Stop {W : Type} (respond : W -> forall o : Op, reply o * W)
  (r : Rover) (w : W) :
  run respond (Stop r) w
  = (offs r, Returned (fst (stopped respond w r)), snd (stopped respond w r)).
Proof.
  unfold Stop, stopped, call. cbn [bind trigger run].
  destruct (respond w (Off (fl r))) as [e1 w1]. cbn [bind run].
  destruct (respond w1 (Off (fr r))) as [e2 w2]. cbn [bind run].
  destruct (respond w2 (Off (bl r))) as [e3 w3]. cbn [bind run].
  destruct (respond w3 (Off (br r))) as [e4 w4]. cbn [bind run].
  reflexivity.
Qed.

(** What [goAll] does with the four answers of the motors. *)
Lemma run_goAll {W : Type} (respond : W -> forall o : Op, reply o * W)
  (r : Rover) (dl dr : Direction) (rpm rotations : Q) (block : bool)
  (fuel : nat) (w : W) :
  let go := asked respond w r dl dr rpm rotations in
  (fst go <> [] ->
   run respond (goAll r dl dr rpm rotations block fuel) w
   = ((goes r dl dr rpm rotations ++ offs r)%list,
      Returned (fst go ++ fst (stopped respond (snd go) r))%list,
      snd (stopped respond (snd go) r)))
  /\ (fst go = [] ->
      run respond (goAll r dl dr rpm rotations block fuel) w
      = let '(tr, out, w') :=
          run respond (if block then waitForMotorsToStop r fuel else Ret [])
            (snd go) in
        ((goes r dl dr rpm rotations ++ tr)%list, out, w')).
Proof.
  cbv zeta. unfold goAll, asked, call. cbn [bind trigger run].
  destruct (respond w (GoFor (fl r) dl rpm rotations false)) as [e1 w1]. cbn [bind run].
  destruct (respond w1 (GoFor (fr r) dr rpm rotations false)) as [e2 w2]. cbn [bind run].
  destruct (respond w2 (GoFor (bl r) dl rpm rotations false)) as [e3 w3]. cbn [bind run].
  destruct (respond w3 (GoFor (br r) dr rpm rotations false)) as [e4 w4]. cbn [bind run].
  cbn [reply] in e1, e2, e3, e4. cbn [fst snd].
  match goal with
  | |- context [match ?c with [] => _ | _ :: _ => _ end] =>
      destruct c as [ | e err] eqn:Hc
  end;
    change (Combine [e1; e2; e3; e4] = []) in Hc
    || change (Combine [e1; e2; e3; e4] = e :: err) in Hc.
  - split; [intros H; exfalso; first [exact (H Hc) | apply H; reflexivity] | ].
    intros _.
    destruct (run respond (if block then waitForMotorsToStop r fuel else Ret []) w4)
      as [[tr out] w']. reflexivity.
  - split; [ | intros H; first [discriminate H | congruence]]. intros _.
    rewrite run_bind, run_Stop. cbn [run].
    rewrite app_nil_r, ?Hc. reflexivity.
Qed.

(** X17. [MoveStraight] refuses to block without a distance and
    refuses a distance with a speed that is not positive, both before
    any motor is touched.  Otherwise it commands all four motors, front
    left, front right, back left, back right, with the same direction
    (backward exactly when the distance or the speed is negative), the
    same non-blocking rotations |distance| / circumference and the same
    rpm 60 |speed| / circumference, whatever the earlier motors
    answered.  If any of them failed, all four motors are switched off
    and the errors of both rounds are returned together; if none
    failed it returns nil at once or, when blocking, waits for the
    motors to stop. *)
Theorem MoveStraight_commands {W : Type}
  (respond : W -> forall o : Op, reply o * W) (C : Q) (r : Rover)
  (distanceMillis : Z) (millisPerSec : Q) (block : bool) (fuel : nat) (w : W) :
  (distanceMillis = 0 -> block = true ->
   MoveStraight C r distanceMillis millisPerSec block fuel
   = Ret ["cannot block unless you have a distance"])
  /\ (distanceMillis <> 0 -> (millisPerSec <= 0)%Q ->
      MoveStraight C r distanceMillis millisPerSec block fuel
      = Ret ["if distanceMillis is set, millisPerSec has to be positive"])
  /\ (- 2 ^ 63 < distanceMillis < 2 ^ 63 ->
      (distanceMillis = 0 -> block = false) ->
      (distanceMillis <> 0 -> (0 < millisPerSec)%Q) ->
      exists d rpm rotations,
        (d = DirBackward <-> distanceMillis < 0 \/ (millisPerSec < 0)%Q)
        /\ (rotations == inject_Z (Z.abs distanceMillis) / C)%Q
        /\ (rpm == 60 * (Qabs millisPerSec / C))%Q
        /\ (fst (asked respond w r d d rpm rotations) <> [] ->
            run respond (MoveStraight C r distanceMillis millisPerSec block fuel) w
            = ((goes r d d rpm rotations ++ offs r)%list,
               Returned (fst (asked respond w r d d rpm rotations)
                           ++ fst (stopped respond
                                     (snd (asked respond w r d d rpm rotations)) r))%list,
               snd (stopped respond
                      (snd (asked respond w r d d rpm rotations)) r)))
        /\ (fst (asked respond w r d d rpm rotations) = [] ->
            run respond (MoveStraight C r distanceMillis millisPerSec block fuel) w
            = let '(tr, out, w') :=
                run respond
                  (if block then waitForMotorsToStop r fuel else Ret [])
                  (snd (asked respond w r d d rpm rotations)) in
              ((goes r d d rpm rotations ++ tr)%list, out, w'))).
Proof.
  split; [ | split].
  - intros -> ->. reflexivity.
  - intros Hd Hs. unfold MoveStraight.
    destruct (Z.eqb_spec distanceMillis 0) as [ | _]; [contradiction | ].
    apply Qle_bool_iff in Hs. rewrite Hs. reflexivity.
  - intros Hrange Hblock Hspeed. unfold MoveStraight.
    destruct (Z.eqb_spec distanceMillis 0) as [Hz | Hnz].
    + rewrite (Hblock Hz). cbn [andb negb].
      destruct (Z.ltb_spec distanceMillis 0) as [ | _]; [lia | ].
      cbn [orb].
      destruct (Qlt_bool millisPerSec 0) eqn:Hlt.
      * apply Qlt_bool_iff in Hlt.
        match goal with
        | |- context [goAll r ?d ?d ?rpm ?rot _ fuel] => exists d, rpm, rot
        end. split; [split; [right; exact Hlt | reflexivity] | ].
        split; [rewrite Hz; reflexivity | ].
        split; [reflexivity | ].
        apply run_goAll.
      * assert (Hge : (0 <= millisPerSec)%Q).
        { apply Qnot_lt_le. intros H. apply Qlt_bool_iff in H. congruence. }
        match goal with
        | |- context [goAll r ?d ?d ?rpm ?rot _ fuel] => exists d, rpm, rot
        end. split.
        { split; [discriminate | ]. intros [H | H]; [lia | ].
          exfalso. apply (Qlt_not_le _ _ H Hge). }
        split; [rewrite Hz; reflexivity | ].
        split; [rewrite (Qabs_pos _ Hge); reflexivity | ].
        apply run_goAll.
    + cbn [andb negb].
      pose proof (Hspeed Hnz) as Hpos.
      destruct (Qle_bool millisPerSec 0) eqn:Hle.
      { apply Qle_bool_iff in Hle. exfalso. apply (Qlt_not_le _ _ Hpos Hle). }
      assert (Hnlt : Qlt_bool millisPerSec 0 = false).
      { destruct (Qlt_bool millisPerSec 0) eqn:Hlt; [ | reflexivity].
        apply Qlt_bool_iff in Hlt. exfalso.
        apply (Qlt_not_le _ _ Hpos), Qlt_le_weak, Hlt. }
      rewrite Hnlt, orb_false_r.
      assert (Hge : (0 <= millisPerSec)%Q) by (apply Qlt_le_weak, Hpos).
      destruct (Z.ltb_spec distanceMillis 0) as [Hneg | Hnn].
      * match goal with
        | |- context [goAll r ?d ?d ?rpm ?rot _ fuel] => exists d, rpm, rot
        end. split; [split; [left; exact Hneg | reflexivity] | ].
        unfold AbsInt. rewrite wrap64_id by lia.
        split; [reflexivity | ]. split; [reflexivity | ].
        apply run_goAll.
      * match goal with
        | |- context [goAll r ?d ?d ?rpm ?rot _ fuel] => exists d, rpm, rot
        end. split.
        { split; [discriminate | ]. intros [H | H]; [lia | ].
          exfalso. apply (Qlt_not_le _ _ H Hge). }
        split; [rewrite Z.abs_eq by lia; reflexivity | ].
        split; [rewrite (Qabs_pos _ Hge); reflexivity | ].
        apply run_goAll.
Qed.

(** 300 mm backward at 100 mm/s on motors that obey: four commands and
    a nil error. *)
Lemma MoveStraight_commands_witness :
  exists rpm rotations,
    (rotations == 300 / 471)%Q /\ (rpm == 60 * (100 / 471))%Q
    /\ run obedient (MoveStraight 471 exampleRover (-300) 100 false 0) 0%nat
       = (goes exampleRover DirBackward DirBackward rpm rotations,
          Returned [], 0%nat).
Proof.
  destruct (MoveStraight_commands obedient 471 exampleRover (-300) 100 false 0 0%nat)
    as (_ & _ & H).
  destruct H as (d & rpm & rot & Hd & Hrot & Hrpm & _ & Hok);
    [lia | intros; reflexivity | intros; reflexivity | ].
  assert (Hback : d = DirBackward) by (apply Hd; left; lia).
  subst d. exists rpm, rot.
  split; [exact Hrot | ]. split; [exact Hrpm | ].
  rewrite (Hok eq_refl). cbn [run snd asked obedient]. rewrite app_nil_r. reflexivity.
Defined.

(** X18. [Spin] turns the left motors one way and the right motors the
    other (the left ones backward exactly when the angle is negative),
    all four with |angle| / 5 rotations, never blocking, at the speed
    asked for but at least 120 rpm, and commands all four whatever the
    earlier ones answered.  If any of them failed, all four motors are
    switched off and the errors of both rounds are returned together;
    if none failed it returns nil at once or, when blocking, waits for
    the motors to stop. *)
Theorem Spin_commands {W : Type}
  (respond : W -> forall o : Op, reply o * W) (r : Rover)
  (angleDeg : Q) (speed : Z) (block : bool) (fuel : nat) (w : W) :
  exists a b,
    a <> b
    /\ (a = DirBackward <-> (angleDeg < 0)%Q)
    /\ let rpm := inject_Z (Z.max speed 120) in
       let rotations := Qabs (angleDeg / 5) in
       (fst (asked respond w r a b rpm rotations) <> [] ->
        run respond (Spin r angleDeg speed block fuel) w
        = ((goes r a b rpm rotations ++ offs r)%list,
           Returned (fst (asked respond w r a b rpm rotations)
                       ++ fst (stopped respond
                                 (snd (asked respond w r a b rpm rotations)) r))%list,
           snd (stopped respond (snd (asked respond w r a b rpm rotations)) r)))
       /\ (fst (asked respond w r a b rpm rotations) = [] ->
           run respond (Spin r angleDeg speed block fuel) w
           = let '(tr, out, w') :=
               run respond
                 (if block then waitForMotorsToStop r fuel else Ret [])
                 (snd (asked respond w r a b rpm rotations)) in
             ((goes r a b rpm rotations ++ tr)%list, out, w')).
Proof.
  unfold Spin.
  assert (Hspeed : (if speed <? 120 then 120 else speed) = Z.max speed 120).
  { destruct (Z.ltb_spec speed 120); lia. }
  rewrite Hspeed.
  destruct (Qlt_bool angleDeg 0) eqn:Hlt.
  - exists DirBackward, DirForward. split; [discriminate | ].
    split; [split; [intros _; apply Qlt_bool_iff, Hlt | reflexivity] | ].
    cbv zeta. apply run_goAll.
  - exists DirForward, DirBackward. split; [discriminate | ].
    split.
    { split; [discriminate | ]. intros H. apply Qlt_bool_iff in H. congruence. }
    cbv zeta. apply run_goAll.
Qed.




Lemma run_neckPosition {W : Type} (respond : W -> forall o : Op, reply o * W)
  (r : Rover) (p t : Servo) (a b : Z) (w : W) :
  pan r = Some p -> tilt r = Some t ->
  run respond (neckPosition r a b) w
  = ([Debugf "neckPosition to %v %v" [a; b]; Move p a; Move t b],
     Returned (fst (moved respond w p t a b)), snd (moved respond w p t a b)).
Proof.
  intros Hp Ht. unfold neckPosition, servoMove, moved, call. rewrite Hp, Ht.
  cbn [bind trigger run].
  destruct (respond w (Debugf "neckPosition to %v %v" [a; b])) as [[] w0].
  cbn [bind run].
  destruct (respond w0 (Move p a)) as [e1 w1]. cbn [bind run].
  destruct (respond w1 (Move t b)) as [e2 w2]. cbn [bind run].
  reflexivity.
Qed.

(** X20. [NewRover] panics on a nil board, and returns the error
    "missing a motor for minirover2" without touching the hardware
    when the board lacks one of the motors fl-m, fr-m, bl-m, br-m.
    The servos pan and tilt are not checked: with the four motors
    present a missing pan servo makes it panic right after the debug
    line, a missing tilt servo after the pan servo has been moved to
    94.  With both servos it moves pan to 94 and tilt to 113, the
    second also when the first failed; when both servos answer nil it
    logs "rover ready" and returns the rover, and otherwise it returns
    no rover but the errors the servos answered, combined. *)
Theorem NewRover_checks {W : Type}
  (respond : W -> forall o : Op, reply o * W) (w : W) :
  fst (run respond (NewRover None) w)
  = ([], Panicked "invalid memory address or nil pointer dereference")
  /\ (forall b,
        motors b !! "fl-m" = None \/ motors b !! "fr-m" = None
        \/ motors b !! "bl-m" = None \/ motors b !! "br-m" = None ->
        NewRover (Some b) = Ret (None, ["missing a motor for minirover2"]))
  /\ (forall b fl' fr' bl' br',
        motors b !! "fl-m" = Some fl' -> motors b !! "fr-m" = Some fr' ->
        motors b !! "bl-m" = Some bl' -> motors b !! "br-m" = Some br' ->
        let rover := mkRover fl' fr' bl' br' (servos b !! "pan") (servos b !! "tilt") in
        let line := Debugf "neckPosition to %v %v" [94; 113] in
        match servos b !! "pan", servos b !! "tilt" with
        | None, _ =>
            fst (run respond (NewRover (Some b)) w)
            = ([line], Panicked "invalid memory address or nil pointer dereference")
        | Some p, None =>
            fst (run respond (NewRover (Some b)) w)
            = ([line; Move p 94],
               Panicked "invalid memory address or nil pointer dereference")
        | Some p, Some t =>
            let answer := fst (moved respond w p t 94 113) in
            (answer = [] ->
             fst (run respond (NewRover (Some b)) w)
             = ([line; Move p 94; Move t 113; Debugf "rover ready" []],
                Returned (Some rover, [])))
            /\ (answer <> [] ->
                fst (run respond (NewRover (Some b)) w)
                = ([line; Move p 94; Move t 113], Returned (None, answer)))
        end).
Proof.
  split; [reflexivity | ]. split.
  - intros b Hmiss. unfold NewRover.
    destruct (motors b !! "fl-m"), (motors b !! "fr-m"),
      (motors b !! "bl-m"), (motors b !! "br-m"); try reflexivity.
    destruct Hmiss as [H | [H | [H | H]]]; discriminate H.
  - intros b fl' fr' bl' br' Hfl Hfr Hbl Hbr rover line.
    unfold NewRover. rewrite Hfl, Hfr, Hbl, Hbr.
    fold rover. rewrite run_bind.
    destruct (servos b !! "pan") as [p | ] eqn:Hp.
    + destruct (servos b !! "tilt") as [t | ] eqn:Ht.
      * unfold neckCenter.
        rewrite (run_neckPosition respond rover p t PanCenter TiltCenter w
                   eq_refl eq_refl).
        change PanCenter with 94%Z. change TiltCenter with 113%Z. cbv zeta.
        destruct (moved respond w p t 94 113) as [answer w'].
        cbn [fst snd]. destruct answer as [ | e err].
        -- split; [intros _ | intros H; exfalso; apply H; reflexivity].
           unfold call. cbn [bind trigger run].
           destruct (respond w' (Debugf "rover ready" [])) as [[] w2].
           reflexivity.
        -- split; [discriminate | intros _]. reflexivity.
      * unfold neckCenter, neckPosition, servoMove, call, rover.
        cbn [pan tilt bind trigger run].
        destruct (respond w (Debugf "neckPosition to %v %v" [PanCenter; TiltCenter]))
          as [[] w0].
        cbn [bind run].
        destruct (respond w0 (Move p PanCenter)) as [e1 w1]. reflexivity.
    + unfold neckCenter, neckPosition, servoMove, call, rover.
      cbn [pan tilt bind trigger run].
      destruct (respond w (Debugf "neckPosition to %v %v" [PanCenter; TiltCenter]))
        as [[] w0].
      reflexivity.
Qed.

Lemma NewRover_checks_witness :
  NewRover (Some (mkBoard (delete "bl-m" (motors exampleBoard)) ∅))
  = Ret (None, ["missing a motor for minirover2"])
  /\ fst (run obedient (NewRover (Some exampleBoard)) 0%nat)
     = ([Debugf "neckPosition to %v %v" [94; 113]; Move 5%nat 94;
         Move 6%nat 113; Debugf "rover ready" []],
        Returned (Some exampleRover, [])).
Proof.
  destruct (NewRover_checks obedient 0%nat) as (_ & Hmiss & Hfound). split.
  - apply Hmiss. right. right. left. reflexivity.
  - destruct (Hfound exampleBoard 1%nat 2%nat 3%nat 4%nat
                eq_refl eq_refl eq_refl eq_refl) as (Hok & _).
    rewrite (Hok eq_refl). reflexivity.
Defined.

(** X21. [neckOffset left] logs and then moves the pan servo to
    (94 - 30 left) mod 256 and the tilt servo to 93, the second also
    when the first failed, and returns the errors the two servos
    answered, combined.  The conversion to [uint8] leaves 94 - 30 left
    as it is for left between -5 and 3 and wraps around outside: one
    step further left, at 4, the pan servo is sent to 230. *)
Theorem neckOffset_wraps {W : Type}
  (respond : W -> forall o : Op, reply o * W) (r : Rover) (p t : Servo)
  (left : Z) (w : W) :
  pan r = Some p -> tilt r = Some t ->
  let pan' := (94 - 30 * left) mod 256 in
  run respond (neckOffset r left) w
  = ([Debugf "neckPosition to %v %v" [pan'; 93]; Move p pan'; Move t 93],
     Returned (fst (moved respond w p t pan' 93)),
     snd (moved respond w p t pan' 93))
  /\ 0 <= pan' < 256
  /\ (-5 <= left <= 3 -> pan' = 94 - 30 * left)
  /\ (left = 4 -> pan' = 230).
Proof.
  intros Hp Ht pan'. split; [ | split; [ | split]].
  - unfold neckOffset, toUint8, PanCenter, TiltCenter.
    rewrite wrap64_mod256.
    replace ((94 + Wx250s.wrap64 (left * -30)) mod 256) with pan'.
    + apply run_neckPosition; assumption.
    + unfold pan'. rewrite <- Zplus_mod_idemp_r, wrap64_mod256, Zplus_mod_idemp_r.
      f_equal. lia.
  - unfold pan'. apply Z.mod_pos_bound. lia.
  - intros Hl. unfold pan'. apply Z.mod_small. lia.
  - intros ->. reflexivity.
Qed.

Lemma neckOffset_wraps_witness :
  fst (run obedient (neckOffset exampleRover 4) 0%nat)
  = ([Debugf "neckPosition to %v %v" [230; 93]; Move 5%nat 230; Move 6%nat 93],
     Returned []).
Proof.
  destruct (neckOffset_wraps obedient exampleRover 5%nat 6%nat 4 0%nat
              eq_refl eq_refl) as (Hrun & _).
  rewrite Hrun. reflexivity.
Defined.

End MiniroverFacts.


Module ResetBoxFacts.

Import ResetBox ProgFacts.

Local Open Scope Z_scope.

Section Scripts.
Context {W : Type} (respond : W -> forall o : Op, reply o * W).

(** [ctx.Err()] is not nil once the context is done. *)
Hypothesis ctx_err : forall w, fst (respond w CtxErr) <> None.

Lemma completes_ret : completes respond (Ret None) [].
Proof. intros w tr w' [= <- _]. reflexivity. Qed.

Lemma completes_op (o : Op) (k : reply o -> prog (option string))
  (script : list Op) :
  notPoll o = true ->
  (forall r, completes respond (k r) script) ->
  completes respond (Vis o k) (o :: script).
Proof.
  intros Ho Hk w tr w' Hrun. cbn [run] in Hrun.
  destruct (respond w o) as [r w1].
  destruct (run respond (k r) w1) as [[tr1 out1] w2] eqn:Hk1.
  injection Hrun as <- -> <-.
  cbn [List.filter]. rewrite Ho. f_equal. apply (Hk r w1 tr1 w2 Hk1).
Qed.

Lemma completes_poll (i : Interrupt) (k : Z -> prog (option string))
  (script : list Op) :
  (forall r, completes respond (k r) script) ->
  completes respond (Vis (InterruptValue i) k) script.
Proof.
  intros Hk w tr w' Hrun. cbn [run] in Hrun.
  destruct (respond w (InterruptValue i)) as [r w1].
  destruct (run respond (k r) w1) as [[tr1 out1] w2] eqn:Hk1.
  injection Hrun as <- -> <-.
  cbn [List.filter notPoll]. apply (Hk r w1 tr1 w2 Hk1).
Qed.

Lemma completes_check (err : option string) (rest : prog (option string))
  (script : list Op) :
  completes respond rest script -> completes respond (check err rest) script.
Proof.
  intros Hrest. destruct err as [e | ]; [ | exact Hrest].
  intros w tr w' Hrun. discriminate Hrun.
Qed.

Lemma completes_seq (p rest : prog (option string)) (s1 s2 : list Op) :
  completes respond p s1 -> completes respond rest s2 ->
  completes respond (err <- p ;; check err rest) (s1 ++ s2).
Proof.
  intros Hp Hrest w tr w' Hrun.
  apply run_bind_returned in Hrun as (tr1 & a & w1 & tr2 & Hp1 & Hr1 & ->).
  destruct a as [e | ]; [discriminate Hr1 | ].
  rewrite List.filter_app, (Hp _ _ _ Hp1), (Hrest _ _ _ Hr1). reflexivity.
Qed.

Lemma completes_waitOr (millis : Z) (rest : prog (option string))
  (script : list Op) :
  completes respond rest script ->
  completes respond (waitOr millis rest) (SelectContextOrWait millis :: script).
Proof.
  intros Hrest. unfold waitOr, call. cbn [bind trigger].
  apply completes_op; [reflexivity | ].
  intros [ | ]; [exact Hrest | ].
  intros w tr w' Hrun. unfold trigger in Hrun. cbn [run] in Hrun.
  pose proof (ctx_err w) as Hne.
  destruct (respond w CtxErr) as [r w1]. cbn [fst] in Hne.
  injection Hrun as _ Hr _. contradiction.
Qed.

Lemma completes_untilSwitched (i : Interrupt) (startValue : Z)
  (rest : prog (option string)) (script : list Op) :
  completes respond rest script ->
  forall fuel currentValue,
    completes respond
      (untilSwitched (Some i) currentValue startValue fuel ;;; rest) script.
Proof.
  intros Hrest. induction fuel as [ | fuel IH]; intros currentValue;
    cbn [untilSwitched]; destruct (currentValue =? startValue).
  - intros w tr w' Hrun. discriminate Hrun.
  - exact Hrest.
  - cbn [method call bind trigger]. apply completes_poll. intros r. apply IH.
  - exact Hrest.
Qed.

Lemma completes_moveUntilSwitched (i : Interrupt) (s : Servo)
  (speed currentValue startValue : Z) (fuel : nat) :
  completes respond
    (moveUntilSwitched (Some i) (Some s) speed currentValue startValue fuel)
    [ServoMove s speed; ServoMove s 90].
Proof.
  unfold moveUntilSwitched. cbn [method call bind trigger].
  apply completes_op; [reflexivity | ]. intros err. apply completes_check.
  apply completes_untilSwitched.
  cbn [bind]. apply completes_op; [reflexivity | ]. intros err'.
  apply completes_check, completes_ret.
Qed.

Lemma completes_OpenBox (b : Board) (i : Interrupt) (s : Servo)
  (gentle : bool) (fuel : nat) :
  interrupts b !! "open" = Some i -> servos b !! "shake" = Some s ->
  completes respond (OpenBox b gentle fuel) (opening s gentle).
Proof.
  intros Hi Hs. unfold OpenBox, opening. rewrite Hi, Hs.
  cbn [method call bind trigger].
  apply completes_poll. intros currentValue.
  apply completes_poll. intros startValue.
  destruct gentle.
  - cbn [bind app]. apply completes_op; [reflexivity | ]. intros err.
    apply completes_check, completes_waitOr, completes_moveUntilSwitched.
  - apply completes_moveUntilSwitched.
Qed.

Lemma completes_CloseBox (b : Board) (c : Interrupt) (s : Servo) (fuel : nat) :
  interrupts b !! "closed" = Some c -> servos b !! "shake" = Some s ->
  completes respond (CloseBox b fuel) (closing s).
Proof.
  intros Hc Hs. unfold CloseBox, closing. rewrite Hc, Hs.
  cbn [method call bind trigger].
  apply completes_poll. intros currentValue.
  apply completes_poll. intros startValue.
  apply completes_moveUntilSwitched.
Qed.

Lemma completes_moveThrough (a : Arm) (rest : prog (option string))
  (script : list Op) (positions : list (list Q)) :
  completes respond rest script ->
  completes respond (moveThrough (Some a) positions rest)
    (map (MoveToJointPositions a) positions ++ script).
Proof.
  intros Hrest. induction positions as [ | p positions IH]; [exact Hrest | ].
  cbn [moveThrough method call bind trigger map app].
  apply completes_op; [reflexivity | ]. intros err.
  apply completes_check, IH.
Qed.

Lemma completes_ReplaceObject (theRobot : Robot) (a : Arm) (g : Gripper) :
  arms theRobot !! "pieceArm" = Some a ->
  grippers theRobot !! "pieceGripper" = Some g ->
  completes respond (ReplaceObject theRobot) (replacing a g).
Proof.
  intros Ha Hg. unfold ReplaceObject, replacing. rewrite Ha, Hg.
  cbn [method call bind trigger app].
  apply completes_op; [reflexivity | ]. intros err. apply completes_check.
  apply completes_op; [reflexivity | ]. intros err1. apply completes_check.
  apply completes_moveThrough.
  cbn [app]. apply completes_op; [reflexivity | ]. intros r. apply completes_check.
  apply completes_waitOr.
  apply completes_moveThrough.
  cbn [app]. apply completes_op; [reflexivity | ]. intros err2. apply completes_check.
  apply completes_waitOr.
  apply completes_op; [reflexivity | ]. intros err3. apply completes_check.
  apply completes_op; [reflexivity | ]. intros err4. apply completes_check.
  intros w tr w' Hrun. unfold call, trigger in Hrun. cbn [run] in Hrun.
  destruct (respond w (MoveToJointPositions a [0; 0; 0; 0; 0; 0]%Q)) as [r0 w1].
  injection Hrun as <- _ _. reflexivity.
Qed.

Lemma completes_shake (b : Board) (c i : Interrupt) (s : Servo) (fuel : nat)
  (rest : prog (option string)) (script : list Op) :
  interrupts b !! "open" = Some i -> interrupts b !! "closed" = Some c ->
  servos b !! "shake" = Some s ->
  completes respond rest script ->
  forall n, completes respond (shake b n fuel rest) (shaking s n ++ script).
Proof.
  intros Hi Hc Hs Hrest. induction n as [ | n IH]; [exact Hrest | ].
  cbn [shake]. unfold shaking. cbn [replicate concat]. fold (shaking s n).
  rewrite <- !app_assoc.
  apply completes_seq; [apply (completes_CloseBox b c s fuel Hc Hs) | ].
  cbn [app]. apply completes_waitOr.
  apply (completes_seq _ _ (opening s false));
    [apply (completes_OpenBox b i s false fuel Hi Hs) | ].
  cbn [app]. apply completes_waitOr, IH.
Qed.

Lemma completes_ResetBoxSteps (theRobot : Robot) (b : Board)
  (i c : Interrupt) (s t : Servo) (a : Arm) (g : Gripper)
  (shakes : Z) (fuel : nat) :
  boards theRobot !! "resetDriveBoard" = Some b ->
  interrupts b !! "open" = Some i -> interrupts b !! "closed" = Some c ->
  servos b !! "shake" = Some s -> servos b !! "tilt" = Some t ->
  arms theRobot !! "pieceArm" = Some a ->
  grippers theRobot !! "pieceGripper" = Some g ->
  - 2 ^ 63 < shakes < 2 ^ 63 ->
  completes respond (ResetBoxSteps theRobot shakes fuel)
    (resetting s t a g shakes).
Proof.
  intros Hb Hi Hc Hs Ht Ha Hg Hrange. unfold ResetBoxSteps, resetting.
  rewrite Hb.
  assert (Hw : Wx250s.wrap64 (shakes - 1) = shakes - 1).
  { unfold Wx250s.wrap64. rewrite Z.mod_small; lia. }
  rewrite Hw.
  apply completes_seq; [apply (completes_OpenBox b i s true fuel Hi Hs) | ].
  unfold TiltField, FlatField. rewrite Ht. cbn [method call bind trigger app].
  apply completes_op; [reflexivity | ]. intros err. apply completes_check.
  apply completes_waitOr.
  apply completes_op; [reflexivity | ]. intros err1. apply completes_check.
  apply (completes_shake b c i s fuel _ _ Hi Hc Hs).
  apply completes_seq; [apply (completes_CloseBox b c s fuel Hc Hs) | ].
  cbn [app]. apply completes_waitOr.
  apply completes_seq; [apply (completes_OpenBox b i s true fuel Hi Hs) | ].
  apply completes_ReplaceObject; assumption.
Qed.
End Scripts.

(** X22. An [OpenBox] that returns nil has, reads of the limit switch
    aside, sent the shake servo to 70 and then to 90, which stops it,
    after backing off to 100 and waiting 300 ms when it is gentle: the
    speed is 70 whether it is gentle or not.  A [CloseBox] that
    returns nil has sent the servo to 110 and then to 90.  Neither
    checks what the board hands out: a missing limit switch makes them
    panic at the first read, before the servo is touched. *)
Theorem OpenBox_CloseBox_scripts {W : Type}
  (respond : W -> forall o : Op, reply o * W) (b : Board) (s : Servo)
  (gentle : bool) (fuel : nat) :
  (forall w, fst (respond w CtxErr) <> None) ->
  servos b !! "shake" = Some s ->
  (forall i, interrupts b !! "open" = Some i ->
             completes respond (OpenBox b gentle fuel) (opening s gentle))
  /\ (forall c, interrupts b !! "closed" = Some c ->
                completes respond (CloseBox b fuel) (closing s))
  /\ (interrupts b !! "open" = None ->
      forall w, run respond (OpenBox b gentle fuel) w
                = ([], Panicked nilDereference, w))
  /\ (interrupts b !! "closed" = None ->
      forall w, run respond (CloseBox b fuel) w
                = ([], Panicked nilDereference, w)).
Proof.
  intros Hctx Hs. split; [ | split; [ | split]].
  - intros i Hi. apply (completes_OpenBox respond Hctx b i s gentle fuel Hi Hs).
  - intros c Hc. apply (completes_CloseBox respond b c s fuel Hc Hs).
  - intros Hi w. unfold OpenBox. rewrite Hi. reflexivity.
  - intros Hc w. unfold CloseBox. rewrite Hc. reflexivity.
Qed.

(** On devices that obey, a gentle opening backs off, waits, starts
    and stops the servo. *)
Lemma OpenBox_CloseBox_scripts_witness :
  List.filter notPoll (fst (fst (run smooth (OpenBox exampleBoard true 0) 0)))
  = [ServoMove 3%nat 100; SelectContextOrWait 300;
     ServoMove 3%nat 70; ServoMove 3%nat 90].
Proof.
  destruct (run smooth (OpenBox exampleBoard true 0) 0) as [[tr out] w'] eqn:Hrun.
  assert (Hout : out = Returned None).
  { apply (f_equal (fun x => snd (fst x))) in Hrun. vm_compute in Hrun.
    symmetry. exact Hrun. }
  subst out.
  assert (Hctx : forall w, fst (smooth w CtxErr) <> None) by (intros w; discriminate).
  apply (proj1 (OpenBox_CloseBox_scripts smooth exampleBoard 3%nat true 0
                  Hctx eq_refl) 1%nat eq_refl 0 tr w' Hrun).
Defined.

Lemma closings_count (s : Servo) (n : nat) (rest : list Op) :
  length (List.filter startsClosing (shaking s n ++ rest))
  = (n + length (List.filter startsClosing rest))%nat.
Proof.
  induction n as [ | n IH]; [reflexivity | ].
  unfold shaking. cbn [replicate concat]. fold (shaking s n).
  rewrite <- !app_assoc. cbn [closing opening app List.filter startsClosing length].
  rewrite IH. reflexivity.
Qed.

(** X23. [ResetBoxSteps] fails before touching anything when the robot
    has no resetDriveBoard.  A run that returns nil has gone, reads of
    the limit switches aside, through exactly this: a gentle opening,
    the field tilted (70), 2 s, the field flat (32), then shakes - 1
    times closing, 500 ms, opening, 500 ms, then one more closing,
    500 ms, a gentle opening, and the replacing of the object.  The
    box is thus closed max(shakes, 1) times. *)
Theorem ResetBoxSteps_script {W : Type}
  (respond : W -> forall o : Op, reply o * W) (theRobot : Robot)
  (shakes : Z) (fuel : nat) :
  (boards theRobot !! "resetDriveBoard" = None ->
   ResetBoxSteps theRobot shakes fuel
   = Ret (Some "robot does not have a resetDriveBoard"))
  /\ forall b i c s t a g,
       (forall w, fst (respond w CtxErr) <> None) ->
       boards theRobot !! "resetDriveBoard" = Some b ->
       interrupts b !! "open" = Some i -> interrupts b !! "closed" = Some c ->
       servos b !! "shake" = Some s -> servos b !! "tilt" = Some t ->
       arms theRobot !! "pieceArm" = Some a ->
       grippers theRobot !! "pieceGripper" = Some g ->
       - 2 ^ 63 < shakes < 2 ^ 63 ->
       completes respond (ResetBoxSteps theRobot shakes fuel)
         (resetting s t a g shakes)
       /\ length (List.filter startsClosing (resetting s t a g shakes))
          = Z.to_nat (Z.max shakes 1).
Proof.
  split.
  - intros Hb. unfold ResetBoxSteps. rewrite Hb. reflexivity.
  - intros b i c s t a g Hctx Hb Hi Hc Hs Ht Ha Hg Hrange. split.
    + apply (completes_ResetBoxSteps respond Hctx theRobot b i c s t a g);
        assumption.
    + unfold resetting. cbn [opening app List.filter startsClosing].
      rewrite closings_count.
      cbn [closing opening app List.filter startsClosing length].
      assert (Hrep : List.filter startsClosing (replacing a g) = [])
        by reflexivity.
      rewrite Hrep. cbn [length]. lia.
Qed.

(** Four shakes, as [ResetBox] asks for, on devices that obey. *)
Lemma ResetBoxSteps_script_witness :
  List.filter notPoll (fst (fst (run smooth (ResetBoxSteps exampleRobot 4 0) 0)))
  = resetting 3%nat 4%nat 5%nat 6%nat 4
  /\ length (List.filter startsClosing (resetting 3%nat 4%nat 5%nat 6%nat 4))
     = 4%nat.
Proof.
  assert (Hctx : forall w, fst (smooth w CtxErr) <> None) by (intros w; discriminate).
  destruct (proj2 (ResetBoxSteps_script smooth exampleRobot 4 0)
              exampleBoard 1%nat 2%nat 3%nat 4%nat 5%nat 6%nat Hctx
              eq_refl eq_refl eq_refl eq_refl eq_refl eq_refl eq_refl
              ltac:(lia)) as [Hscript Hcount].
  split; [ | exact Hcount].
  destruct (run smooth (ResetBoxSteps exampleRobot 4 0) 0) as [[tr out] w'] eqn:Hrun.
  assert (Hout : out = Returned None).
  { apply (f_equal (fun x => snd (fst x))) in Hrun. vm_compute in Hrun.
    symmetry. exact Hrun. }
  subst out. apply (Hscript 0 tr w' Hrun).
Defined.

Lemma trajectory_checked :
  forallb (fun p => (length p =? 6)%nat
                    && forallb (fun d => (0 <=? Wx250s.degreeToServoPos d)
                                         && (Wx250s.degreeToServoPos d <=? 4095)) p)
          trajectory = true.
Proof. vm_compute. reflexivity. Qed.

(** X24. A [ReplaceObject] that returns nil has opened the gripper,
    moved the arm to zero and along the 21 recorded positions to the
    duck, grabbed, waited 1 s, moved back along the 19 recorded
    positions, opened the gripper, waited 1 s and moved the arm through
    three final positions, in this order and nothing else.  Each of
    these 44 joint positions has one angle for each of the six joints
    of the wx250s, so [MoveToJointPositions] of that arm does not
    refuse it, and each angle converts to a servo position within
    [0, 4095], so [JointTo] does not clamp it.  The arm and the gripper
    are not checked: a missing gripper makes it panic at once. *)
Theorem ReplaceObject_trajectory {W : Type}
  (respond : W -> forall o : Op, reply o * W) (theRobot : Robot) :
  (forall a g,
     (forall w, fst (respond w CtxErr) <> None) ->
     arms theRobot !! "pieceArm" = Some a ->
     grippers theRobot !! "pieceGripper" = Some g ->
     completes respond (ReplaceObject theRobot) (replacing a g)
     /\ omap degreesOf (replacing a g) = trajectory)
  /\ length trajectory = 44%nat
  /\ Forall (fun p => length p = length Wx250s.JointOrder
                      /\ Forall (fun d => 0 <= Wx250s.degreeToServoPos d <= 4095) p)
            trajectory
  /\ (grippers theRobot !! "pieceGripper" = None ->
      forall w, run respond (ReplaceObject theRobot) w
                = ([], Panicked nilDereference, w)).
Proof.
  split; [ | split; [ | split]].
  - intros a g Hctx Ha Hg. split.
    + apply (completes_ReplaceObject respond Hctx theRobot a g Ha Hg).
    + reflexivity.
  - reflexivity.
  - pose proof trajectory_checked as Hall.
    rewrite forallb_forall in Hall. apply List.Forall_forall.
    intros p Hp. specialize (Hall p Hp).
    apply andb_true_iff in Hall as [Hlen Hpos].
    split; [apply Nat.eqb_eq in Hlen; exact Hlen | ].
    rewrite forallb_forall in Hpos. apply List.Forall_forall.
    intros d Hd. specialize (Hpos d Hd).
    apply andb_true_iff in Hpos as [H0 H1]. lia.
  - intros Hg w. unfold ReplaceObject. rewrite Hg. reflexivity.
Qed.

Lemma ReplaceObject_trajectory_witness :
  List.filter notPoll (fst (fst (run smooth (ReplaceObject exampleRobot) 0)))
  = replacing 5%nat 6%nat.
Proof.
  assert (Hctx : forall w, fst (smooth w CtxErr) <> None) by (intros w; discriminate).
  destruct (proj1 (ReplaceObject_trajectory smooth exampleRobot)
              5%nat 6%nat Hctx eq_refl eq_refl) as [Hscript _].
  destruct (run smooth (ReplaceObject exampleRobot) 0) as [[tr out] w'] eqn:Hrun.
  assert (Hout : out = Returned None).
  { apply (f_equal (fun x => snd (fst x))) in Hrun. vm_compute in Hrun.
    symmetry. exact Hrun. }
  subst out. apply (Hscript 0 tr w' Hrun).
Defined.

End ResetBoxFacts.


Module LidarViewFacts.

Import LidarView.

Local Open Scope Z_scope.

Lemma fromFlags_omap (addressFlags : list string) :
  forall i deviceDescs,
    fromFlags i addressFlags deviceDescs
    = (deviceDescs ++ omap fromFlag addressFlags)%list.
Proof.
  induction addressFlags as [ | address rest IH]; intros i deviceDescs.
  - cbn. rewrite app_nil_r. reflexivity.
  - cbn [fromFlags].
    change (omap fromFlag (address :: rest))
      with (match fromFlag address with
            | Some d => d :: omap fromFlag rest
            | None => omap fromFlag rest
            end).
    unfold fromFlag at 1.
    destruct (Split address) as [ | host [ | portStr [ | ? ?]]] eqn:Hsplit;
      try apply IH.
    destruct (ParseInt portStr 64) as [port | ]; cbn [mbind option_bind];
      [ | apply IH].
    destruct (String.eqb_spec address fakeDev) as [-> | _];
      [discriminate Hsplit | ].
    rewrite IH, <- app_assoc. reflexivity.
Qed.

Lemma fromFlag_WS (address : string) (d : DeviceDescription) :
  fromFlag address = Some d -> Type_ d = DeviceTypeWS.
Proof.
  unfold fromFlag.
  destruct (Split address) as [ | host [ | portStr [ | ? ?]]]; try discriminate.
  destruct (ParseInt portStr 64); cbn; [ | discriminate].
  intros [= <-]. reflexivity.
Qed.

(** X25. Without device flags [main] uses the devices found, or one
    fake device when none was found.  With device flags it uses, in
    the order of the flags, one web-socket device for every flag of
    the form host:port whose port is a decimal 64-bit integer, and
    nothing else: flags of another form are passed over, and the case
    of the flag "fake" cannot be reached, since a flag that gets that
    far contains a colon.  So the flag "fake" alone leaves no device
    and [main] exits with the usage message. *)
Theorem devices_from_flags (found : list DeviceDescription)
  (addressFlags : list string) :
  (addressFlags = [] ->
   devices found addressFlags
   = match found with [] => [mkDesc DeviceTypeFake "0" "" 0] | _ => found end)
  /\ (addressFlags <> [] ->
      devices found addressFlags = omap fromFlag addressFlags
      /\ Forall (fun d => Type_ d = DeviceTypeWS) (devices found addressFlags))
  /\ (forall saveToDisk, main [fakeDev] saveToDisk [] found = UsageExit).
Proof.
  split; [ | split].
  - intros ->. reflexivity.
  - intros Hne.
    assert (Heq : devices found addressFlags = omap fromFlag addressFlags).
    { unfold devices. destruct addressFlags as [ | a rest]; [contradiction | ].
      apply (fromFlags_omap (a :: rest) 0%nat []). }
    split; [exact Heq | ]. rewrite Heq.
    apply Forall_forall. intros d Hd.
    apply list_elem_of_omap in Hd as (address & _ & Hd).
    apply (fromFlag_WS address d Hd).
  - intros saveToDisk. reflexivity.
Qed.

Lemma devices_from_flags_witness :
  devices [] ["10.0.0.7:4444"; "fake"; "lidar:x"]
  = [mkDesc DeviceTypeWS "" "10.0.0.7" 4444].
Proof.
  rewrite (proj1 (proj1 (proj2 (devices_from_flags []
                      ["10.0.0.7:4444"; "fake"; "lidar:x"])) ltac:(discriminate))).
  reflexivity.
Defined.

Lemma ParseInt_range (s : string) (bitSize v : Z) :
  ParseInt s bitSize = Some v ->
  - 2 ^ (bitSize - 1) <= v < 2 ^ (bitSize - 1).
Proof.
  unfold ParseInt.
  destruct (match s with
            | String.String c rest =>
                if Z.of_nat (Ascii.nat_of_ascii c) =? 45 then (true, rest)
                else if Z.of_nat (Ascii.nat_of_ascii c) =? 43 then (false, rest)
                else (false, s)
            | String.EmptyString => (false, s)
            end) as [neg body].
  destruct body as [ | c body']; [discriminate | ].
  destruct (Wx250sSetup.digits (String.String c body') 0) as [n | ];
    [ | discriminate].
  destruct ((- 2 ^ (bitSize - 1) <=? (if neg then - n else n))
            && ((if neg then - n else n) <? 2 ^ (bitSize - 1))) eqn:Hin;
    [ | discriminate].
  intros [= <-]. apply andb_true_iff in Hin as [H1 H2]. lia.
Qed.

(** X26. [main] takes the port of the viewer from the second argument
    left after the flags, not the first.  Without such arguments the
    port is 5555; with exactly one argument, whatever it is, [main]
    ends in [Fatal], for the second argument is then the empty string;
    with two or more the first is never looked at and the second has
    to be a decimal 32-bit integer, which becomes the port. *)
Theorem main_port (addressFlags : list string) (saveToDisk : string)
  (found : list DeviceDescription) :
  (main addressFlags saveToDisk [] found
   = match devices found addressFlags with
     | [] => UsageExit
     | d :: ds => ViewLidar 5555 (d :: ds) saveToDisk
     end)
  /\ (forall a, main addressFlags saveToDisk [a] found = Fatal)
  /\ (forall a b rest,
        (ParseInt b 32 = None ->
         main addressFlags saveToDisk (a :: b :: rest) found = Fatal)
        /\ (forall port, ParseInt b 32 = Some port ->
              - 2 ^ 31 <= port < 2 ^ 31
              /\ main addressFlags saveToDisk (a :: b :: rest) found
                 = match devices found addressFlags with
                   | [] => UsageExit
                   | d :: ds => ViewLidar port (d :: ds) saveToDisk
                   end)).
Proof.
  split; [ | split].
  - unfold main. cbn [length Nat.leb].
    destruct (devices found addressFlags); reflexivity.
  - intros a. reflexivity.
  - intros a b rest. split.
    + intros Hb. unfold main, Arg. cbn [length Nat.leb lookup list_lookup default].
      cbn. rewrite Hb. reflexivity.
    + intros port Hb. split; [apply (ParseInt_range b 32 port Hb) | ].
      unfold main, Arg. cbn. rewrite Hb.
      destruct (devices found addressFlags); reflexivity.
Qed.

Lemma main_port_witness :
  main [] "" ["8080"] [] = Fatal
  /\ main [] "" ["x"; "8080"] []
     = ViewLidar 8080 [mkDesc DeviceTypeFake "0" "" 0] "".
Proof.
  destruct (main_port [] "" []) as (_ & Hone & Htwo). split.
  - apply Hone.
  - destruct (Htwo "x" "8080" []) as [_ Hport].
    destruct (Hport 8080 eq_refl) as [_ Hmain]. rewrite Hmain. reflexivity.
Defined.

Local Open Scope Q_scope.

Lemma bestFrom_spec (answers : list (Q * option string)) :
  Forall (fun a => snd a = None) answers ->
  forall (i : nat) (b : Q) (n : nat),
  exists r m,
    bestFrom answers i b n = inl (r, m)
    /\ r <= b
    /\ Forall (fun a => r <= fst a) answers
    /\ ((r = b /\ m = n /\ Forall (fun a => ~ fst a < b) answers)
        \/ ((i <= m)%nat /\ answers !! (m - i)%nat = Some (r, None)
            /\ r < b
            /\ forall j a, (j < m - i)%nat -> answers !! j = Some a -> r < fst a)).
Proof.
  induction 1 as [ | [angRes err] rest Herr Hrest IH]; intros i b n.
  - exists b, n. split; [reflexivity | ]. split; [apply Qle_refl | ].
    split; [constructor | ]. left. repeat split. constructor.
  - cbn [snd] in Herr. subst err. cbn [bestFrom].
    destruct (Minirover.Qlt_bool angRes b) eqn:Hlt.
    + apply MiniroverFacts.Qlt_bool_iff in Hlt.
      destruct (IH (S i) angRes i) as (r & m & Hrun & Hle & Hall & Hcase).
      exists r, m. split; [exact Hrun | ].
      split; [apply Qlt_le_weak, (Qle_lt_trans _ _ _ Hle Hlt) | ].
      split; [constructor; [exact Hle | exact Hall] | ].
      right. destruct Hcase as [(-> & -> & Hnone) | (Him & Hlook & Hrb & Hbefore)].
      * split; [lia | ]. rewrite Nat.sub_diag.
        split; [reflexivity | ]. split; [exact Hlt | ].
        intros j a Hj. lia.
      * split; [lia | ].
        replace (m - i)%nat with (S (m - S i)) by lia.
        split; [exact Hlook | ].
        split; [apply (Qlt_trans _ _ _ Hrb Hlt) | ].
        intros [ | j] a Hj Ha.
        -- injection Ha as <-. exact Hrb.
        -- apply (Hbefore j a); [lia | exact Ha].
    + assert (Hge : b <= angRes).
      { apply Qnot_lt_le. intros H. apply MiniroverFacts.Qlt_bool_iff in H.
        congruence. }
      destruct (IH (S i) b n) as (r & m & Hrun & Hle & Hall & Hcase).
      exists r, m. split; [exact Hrun | ]. split; [exact Hle | ].
      split; [constructor; [apply (Qle_trans _ _ _ Hle Hge) | exact Hall] | ].
      destruct Hcase as [(-> & -> & Hnone) | (Him & Hlook & Hrb & Hbefore)].
      * left. repeat split. constructor; [ | exact Hnone].
        cbn [fst]. apply Qle_not_lt, Hge.
      * right. split; [lia | ].
        replace (m - i)%nat with (S (m - S i)) by lia.
        split; [exact Hlook | ]. split; [exact Hrb | ].
        intros [ | j] a Hj Ha.
        -- injection Ha as <-. apply (Qlt_le_trans _ _ _ Hrb Hge).
        -- apply (Hbefore j a); [lia | exact Ha].
Qed.

Lemma bestFrom_error (pre : list (Q * option string)) (r : Q) (e : string)
  (post : list (Q * option string)) :
  Forall (fun a => snd a = None) pre ->
  forall i b n, bestFrom (pre ++ (r, Some e) :: post) i b n = inr e.
Proof.
  induction 1 as [ | [angRes err] rest Herr Hrest IH]; intros i b n.
  - reflexivity.
  - cbn [snd] in Herr. subst err. cbn [app bestFrom].
    destruct (Minirover.Qlt_bool angRes b); apply IH.
Qed.

(** X27. The loop of [viewLidar] that chooses the compass asks the
    devices for their angular resolution in order and gives up with
    the error of the first device that fails.  When all answer, it
    settles on the first device whose resolution is the smallest:
    no device has a smaller one and every device before it has a
    larger one.  When no resolution is below [math.MaxFloat64] it
    stays with device 0. *)
Theorem best_first_minimum (answers : list (Q * option string)) :
  (forall pre r e post,
     answers = (pre ++ (r, Some e) :: post)%list ->
     Forall (fun a => snd a = None) pre ->
     best answers = inr e)
  /\ (Forall (fun a => snd a = None) answers ->
      exists r n,
        best answers = inl (r, n)
        /\ Forall (fun a => r <= fst a) answers
        /\ ((r = MaxFloat64 /\ n = 0%nat
             /\ Forall (fun a => ~ fst a < MaxFloat64) answers)
            \/ (answers !! n = Some (r, None)
                /\ r < MaxFloat64
                /\ forall j a, (j < n)%nat -> answers !! j = Some a ->
                               r < fst a))).
Proof.
  split.
  - intros pre r e post -> Hpre. apply (bestFrom_error pre r e post Hpre).
  - intros Hall.
    destruct (bestFrom_spec answers Hall 0%nat MaxFloat64 0%nat)
      as (r & m & Hrun & _ & Hle & Hcase).
    exists r, m. split; [exact Hrun | ]. split; [exact Hle | ].
    destruct Hcase as [(-> & -> & Hnone) | (_ & Hlook & Hrb & Hbefore)].
    + left. repeat split. exact Hnone.
    + right. rewrite Nat.sub_0_r in Hlook, Hbefore.
      split; [exact Hlook | ]. split; [exact Hrb | exact Hbefore].
Qed.

Lemma best_first_minimum_witness :
  best [(1, None); (0.5, None); (0.5, None); (2, None)] = inl (0.5, 1%nat)
  /\ best [(1, None); (0.5, Some "timeout"); (0.25, None)] = inr "timeout".
Proof.
  split.
  - destruct (proj2 (best_first_minimum
                       [(1, None); (0.5, None); (0.5, None); (2, None)]))
      as (r & n & Hrun & _); [repeat constructor | ].
    rewrite Hrun. vm_compute in Hrun. injection Hrun as <- <-. reflexivity.
  - apply (proj1 (best_first_minimum
                    [(1, None); (0.5, Some "timeout"); (0.25, None)])
             [(1, None)] 0.5 "timeout" [(0.25, None)] eq_refl).
    repeat constructor.
Defined.

End LidarViewFacts.


Module ArmClientFacts.

Import ArmClient ProgFacts.

Section Client.
Context {Extra Struct Pose PosePb WorldState WorldStateMsg : Type}.
Context {Model Input JointPositions Config : Type}.
Variable StructToStructPb : option Extra -> Struct + string.
Variable InputFromProtobuf : Model -> JointPositions -> list Input.
Variable ProtobufFromInput : Model -> list Input -> JointPositions.
Variable GetName : Config -> string.
Variable ProtobufToFrameSystemPart : Config -> option Model + string.

Abbreviation Op := (@ArmClient.Op Struct PosePb WorldStateMsg JointPositions).
Abbreviation reply :=
  (@ArmClient.reply Struct PosePb WorldStateMsg JointPositions Config).

Lemma firstNamed_first (pre : list Config) (cfg : Config) (post : list Config)
  (name' : string) :
  Forall (fun c => GetName c <> name') pre ->
  GetName cfg = name' ->
  firstNamed GetName ProtobufToFrameSystemPart (pre ++ cfg :: post) name'
  = match ProtobufToFrameSystemPart cfg with
    | inl modelFrame => modelFrame
    | inr _ => None
    end.
Proof.
  intros Hpre Hcfg. induction Hpre as [ | c pre Hc Hpre IH]; cbn [app firstNamed].
  - rewrite Hcfg, String.eqb_refl. reflexivity.
  - destruct (String.eqb_spec (GetName c) name'); [contradiction | exact IH].
Qed.

Lemma firstNamed_none (cfgs : list Config) (name' : string) :
  Forall (fun c => GetName c <> name') cfgs ->
  firstNamed GetName ProtobufToFrameSystemPart cfgs name' = None.
Proof.
  induction 1 as [ | c cfgs Hc Hrest IH]; cbn [firstNamed]; [reflexivity | ].
  destruct (String.eqb_spec (GetName c) name'); [contradiction | exact IH].
Qed.

(** X28. The client asks the robot for its frame system once, when it
    is made, and keeps as its model the model of the first
    configuration that bears its name: none when the call fails, when
    no configuration bears the name, or when that first one does not
    convert or has no model, whatever configurations follow.  Without
    a model [GoToInputs] fails with "unable to retrieve a valid arm
    model from arm client" before any call to the server, whereas
    [CurrentInputs] first asks the server for the joint positions and
    fails with that error only if the call succeeded, with the error
    of the call otherwise.  With a model [GoToInputs] makes the one
    call MoveToJointPositions, under the client's name, with the goal
    converted by the model, and returns its error. *)
Theorem client_model {W : Type}
  (respond : W -> forall o : Op, reply o * W) (name' : string) (w : W) :
  (exists c w',
     run respond (NewClientFromConn GetName ProtobufToFrameSystemPart name') w
     = ([FrameSystemConfig], Returned c, w')
     /\ name c = name'
     /\ model c = match fst (respond w FrameSystemConfig) with
                  | inr _ => None
                  | inl cfgs => firstNamed GetName ProtobufToFrameSystemPart cfgs name'
                  end)
  /\ (forall pre cfg post,
        Forall (fun c => GetName c <> name') pre -> GetName cfg = name' ->
        firstNamed GetName ProtobufToFrameSystemPart (pre ++ cfg :: post) name'
        = match ProtobufToFrameSystemPart cfg with
          | inl modelFrame => modelFrame
          | inr _ => None
          end)
  /\ (forall cfgs,
        Forall (fun c => GetName c <> name') cfgs ->
        firstNamed GetName ProtobufToFrameSystemPart cfgs name' = None)
  /\ (forall (c : client (Model := Model)) goal ext,
        StructToStructPb None = inl ext ->
        match model c with
        | None =>
            (GoToInputs StructToStructPb ProtobufFromInput c goal
             : Prog.prog Op reply (option string))
            = Ret (Some errArmClientModelNotValid)
            /\ exists e w',
                 run respond (CurrentInputs StructToStructPb InputFromProtobuf c) w
                 = ([GetJointPositions (name c) ext], Returned (inr e), w')
                 /\ e = match fst (respond w (GetJointPositions (name c) ext)) with
                        | inr err => err
                        | inl _ => errArmClientModelNotValid
                        end
        | Some m =>
            run respond (GoToInputs StructToStructPb ProtobufFromInput c goal) w
            = ([RpcMoveToJointPositions (name c) (ProtobufFromInput m goal) ext],
               Returned (fst (respond w (RpcMoveToJointPositions (name c)
                                           (ProtobufFromInput m goal) ext))),
               snd (respond w (RpcMoveToJointPositions (name c)
                                 (ProtobufFromInput m goal) ext)))
        end).
Proof.
  split; [ | split; [ | split]].
  - unfold NewClientFromConn, getModel, call. cbn [bind trigger run].
    destruct (respond w FrameSystemConfig) as [[cfgs | err] w1]; cbn [bind run fst];
      eexists _, _; (split; [reflexivity | split; reflexivity]).
  - intros pre cfg post. apply firstNamed_first.
  - intros cfgs. apply firstNamed_none.
  - intros c goal ext Hext. destruct (model c) as [m | ] eqn:Hm.
    + unfold GoToInputs, MoveToJointPositions, call. rewrite Hm, Hext.
      unfold trigger. cbn [run].
      destruct (respond w (RpcMoveToJointPositions (name c)
                             (ProtobufFromInput m goal) ext)) as [r w1].
      reflexivity.
    + split; [unfold GoToInputs; rewrite Hm; reflexivity | ].
      unfold CurrentInputs, JointPositionsOf, call. rewrite Hext, Hm.
      cbn [bind trigger run].
      destruct (respond w (GetJointPositions (name c) ext)) as [[resp | err] w1];
        cbn [bind run fst]; eexists _, _; (split; reflexivity).
Qed.

End Client.

(** Two configurations named arm: the model of the first is taken. *)
Lemma client_model_witness :
  firstNamed (Model := nat) fst snd
    [("base", inl None); ("arm", inl (Some 7%nat)); ("arm", inl (Some 8%nat))]
    "arm"
  = Some 7%nat.
Proof.
  pose (respond := fun (_ : unit)
          (o : @ArmClient.Op unit unit unit (list nat)) =>
          match o return @ArmClient.reply unit unit unit (list nat)
                           (string * (option nat + string)) o * unit with
          | GetEndPosition _ _ => (inl tt, tt)
          | RpcMoveToPosition _ _ _ _ | RpcMoveToJointPositions _ _ _
          | RpcStop _ _ => (None, tt)
          | GetJointPositions _ _ => (inl [], tt)
          | FrameSystemConfig => (inr "unavailable", tt)
          end).
  destruct (client_model (Extra := unit) (Input := nat)
              (fun _ => inl tt) (fun _ r => r) (fun _ g => g) fst snd
              respond "arm" tt) as (_ & Hfirst & _).
  apply (Hfirst [("base", inl None)] ("arm", inl (Some 7%nat))
           [("arm", inl (Some 8%nat))]).
  - repeat constructor. discriminate.
  - reflexivity.
Defined.

End ArmClientFacts.
